(** * ReplyGuy: the run orchestrator, the reply engine and the history store

    A shallow embedding of [src/reply_engine.py], [src/database.py] and
    the run loop of [src/bot.py], with the properties of the design
    specification stated and proved over it.

    Python strings are sequences of Unicode code points, so a [str] is a
    list of code points and [len] counts code points.  Python exceptions
    are values of a result type.  The collaborators the orchestrator only
    consumes (browser, model backend, clocks, random source) are inputs of
    the embedded functions. *)

From Stdlib Require Import String Ascii List Bool NArith ZArith QArith Lia Lqa.
From Stdlib Require Import Permutation Sorted.
Import ListNotations.

Set Implicit Arguments.

(** ** Python results: a value or a raised exception *)

Inductive exn : Type :=
| ValueError (msg : string)
| AttributeError
| IndexError
| RequestException
| OperationalError
| ProgrammingError
| UnicodeEncodeError
| OverflowError
| WebDriverException.

Inductive result (A : Type) : Type :=
| Ok (a : A)
| Raise (e : exn).

Arguments Ok {A} a.
Arguments Raise {A} e.

Definition bind {A B} (m : result A) (k : A -> result B) : result B :=
  match m with
  | Ok a => k a
  | Raise e => Raise e
  end.

(** [try_except m h] is [try: m  except Exception as e: h e]. *)
Definition try_except {A} (m : result A) (h : exn -> result A) : result A :=
  match m with
  | Ok a => Ok a
  | Raise e => h e
  end.

Definition is_raise {A} (m : result A) : bool :=
  match m with
  | Ok _ => false
  | Raise _ => true
  end.

Declare Scope py_scope.
Delimit Scope py_scope with py.
Notation "x <- m ;; k" := (bind m (fun x => k))
  (at level 61, m at next level, right associativity) : py_scope.

(** ** Python [str] *)

Module PyStr.

Definition codepoint := N.
Definition str := list codepoint.

  (** An ASCII literal as a [str]. *)
Definition lit (s : string) : str := map N_of_ascii (list_ascii_of_string s).

Definition len (s : str) : Z := Z.of_nat (length s).

Definition eqb (a b : str) : bool :=
    if list_eq_dec N.eq_dec a b then true else false.

  (** [str.isspace] on one code point (CPython's [_PyUnicode_IsWhitespace]). *)
Definition isspace (c : codepoint) : bool :=
    ((9 <=? c) && (c <=? 13) || (28 <=? c) && (c <=? 32)
     || (c =? 133) || (c =? 160) || (c =? 5760)
     || (8192 <=? c) && (c <=? 8202)
     || (c =? 8232) || (c =? 8233) || (c =? 8239) || (c =? 8287)
     || (c =? 12288))%N.

Fixpoint lstrip (s : str) : str :=
    match s with
    | [] => []
    | c :: r => if isspace c then lstrip r else s
    end.

Definition rstrip (s : str) : str := rev (lstrip (rev s)).

  (** [s.strip()] *)
Definition strip (s : str) : str := rstrip (lstrip s).

  (** [s.startswith(p)] *)
Fixpoint startswith (p s : str) : bool :=
    match p, s with
    | [], _ => true
    | _ :: _, [] => false
    | a :: p', b :: s' => (a =? b)%N && startswith p' s'
    end.

  (** [s.endswith(p)] *)
Definition endswith (p s : str) : bool := startswith (rev p) (rev s).

  (** Slice indices as [PySlice_AdjustIndices] clamps them (step 1). *)
Definition adjust (n i : Z) : Z :=
    if (i <? 0)%Z then Z.max 0 (i + n) else Z.min i n.

  (** [s[lo:hi]]; [None] is an omitted bound. *)
Definition slice (lo hi : option Z) (s : str) : str :=
    let n := len s in
    let a := match lo with None => 0%Z | Some i => adjust n i end in
    let b := match hi with None => n | Some j => adjust n j end in
    firstn (Z.to_nat (b - a)) (skipn (Z.to_nat a) s).

  (** [sub in s] *)
Fixpoint contains (sub s : str) : bool :=
    startswith sub s ||
    match s with
    | [] => false
    | _ :: r => contains sub r
    end.

  (** [s.rfind(sub)], with [i] the index of the head of [s]: the highest
      index where [sub] occurs, or -1. *)
Fixpoint rfind_from (i : Z) (sub s : str) : Z :=
    match s with
    | [] => if startswith sub [] then i else (-1)%Z
    | _ :: r =>
        let later := rfind_from (i + 1) sub r in
        if (0 <=? later)%Z then later
        else if startswith sub s then i else (-1)%Z
    end.

Definition rfind (sub s : str) : Z := rfind_from 0 sub s.

  (** [s.replace(old, "")] for a non-empty [old]: occurrences are removed
      left to right without overlap.  [skip] counts the code points of an
      occurrence that are still to be dropped. *)
Fixpoint remove_from (skip : nat) (old s : str) : str :=
    match s with
    | [] => []
    | c :: r =>
        match skip with
        | S k => remove_from k old r
        | O =>
            if startswith old s then remove_from (length old - 1) old r
            else c :: remove_from 0 old r
        end
    end.

Definition remove_all (old s : str) : str := remove_from 0 old s.

(** [s.encode('utf-8')] succeeds: a [str] may hold surrogate code points
    (U+D800 to U+DFFF), which UTF-8 does not encode. *)
Definition is_surrogate (c : codepoint) : bool := ((55296 <=? c) && (c <=? 57343))%N.

Definition encodable (s : str) : bool := forallb (fun c => negb (is_surrogate c)) s.

  (** *** Case *)

Definition ascii_upper (c : codepoint) : bool := ((65 <=? c) && (c <=? 90))%N.
Definition ascii_lower (c : codepoint) : bool := ((97 <=? c) && (c <=? 122))%N.
Definition is_ascii (c : codepoint) : bool := (c <? 128)%N.

(** The lower-case mapping of an ASCII code point. *)
Definition ascii_tolower (c : codepoint) : codepoint :=
  if ascii_upper c then (c + 32)%N else c.

  (** The Unicode character database outside ASCII is not part of the
      program: it is a parameter.  [lower_full before c after] is the
      lower-case mapping of the non-ASCII code point [c] between [before]
      and [after] (one code point may map to several, and capital sigma
      depends on its context). *)
Class UnicodeData : Type := {
    lower_full : str -> codepoint -> str -> str;
    uni_islower : codepoint -> bool;
    uni_isupper : codepoint -> bool;
    uni_istitle : codepoint -> bool
  }.

Section Case.
Context {U : UnicodeData}.

Definition lower_cp (before : str) (c : codepoint) (after : str) : str :=
      if is_ascii c then [ascii_tolower c]
      else lower_full before c after.

Fixpoint lower_from (before s : str) : str :=
      match s with
      | [] => []
      | c :: r => lower_cp before c r ++ lower_from (before ++ [c]) r
      end.

    (** [s.lower()] *)
Definition lower (s : str) : str := lower_from [] s.

Definition cp_islower (c : codepoint) : bool :=
      if is_ascii c then ascii_lower c else uni_islower c.
Definition cp_isupper (c : codepoint) : bool :=
      if is_ascii c then ascii_upper c else uni_isupper c.
Definition cp_istitle (c : codepoint) : bool :=
      if is_ascii c then false else uni_istitle c.

    (** The loop of CPython's [unicode_isupper_impl]. *)
Fixpoint isupper_loop (cased : bool) (s : str) : bool :=
      match s with
      | [] => cased
      | c :: r =>
          if cp_islower c || cp_istitle c then false
          else isupper_loop (cased || cp_isupper c) r
      end.

    (** [s.isupper()] *)
Definition isupper (s : str) : bool :=
      match s with
      | [c] => cp_isupper c
      | _ => isupper_loop false s
      end.
End Case.

  (** A character database that knows ASCII only: every other code point
      is uncased. *)
Definition ascii_only : UnicodeData :=
    {| lower_full := fun _ c _ => [c];
       uni_islower := fun _ => false;
       uni_isupper := fun _ => false;
       uni_istitle := fun _ => false |}.

End PyStr.

(** ** The reply engine ([src/reply_engine.py])

    The values the engine computes are embedded; of the lines it writes
    to its logger, the one of [is_appropriate_tweet] is; the others and
    the two-second sleep between attempts are not. *)

Module ReplyEngine.
Import PyStr.

(** [OLLAMA_MODEL], [OLLAMA_URL] and [self.system_instruction]. *)
Record t : Type := mk {
  model : str;
  url : str;
  system_instruction : str
}.

Definition quote : codepoint := 34%N.
Definition apostrophe : codepoint := 39%N.
Definition newline : codepoint := 10%N.

(** [_format_prompt_for_gemma] *)
Definition _format_prompt_for_gemma (system_instruction tweet_text : str) : str :=
  let user_content :=
    system_instruction ++ [newline; newline] ++ lit "Tweet to reply to:"
      ++ [newline; quote] ++ tweet_text ++ [quote; newline; newline]
      ++ lit "Generate a natural, enthusiastic reply as a software engineer would write:" in
  lit "<start_of_turn>user" ++ [newline] ++ user_content
    ++ lit "<end_of_turn>" ++ [newline] ++ lit "<start_of_turn>model" ++ [newline].

(** What one HTTP request to the backend comes to: [requests] raises, or
    something else raises (a body that is not JSON, a [response] field
    that is not a string), or a JSON object arrives whose [response]
    field is a string or is absent. *)
Inductive backend_outcome : Type :=
| RequestFailed
| OtherFailure
| Body (response : option str).

(** [_query_ollama]: [None] on any exception, otherwise the stripped
    [response] field, which defaults to the empty string. *)
Definition _query_ollama (o : backend_outcome) : option str :=
  match o with
  | RequestFailed => None
  | OtherFailure => None
  | Body None => Some (strip [])
  | Body (Some text) => Some (strip text)
  end.

(** The ranges of the character class of [_remove_emojis]. *)
Definition is_emoji (c : codepoint) : bool :=
  ((128512 <=? c) && (c <=? 128591)
   || (127744 <=? c) && (c <=? 128511)
   || (128640 <=? c) && (c <=? 128767)
   || (127456 <=? c) && (c <=? 127487)
   || (9986 <=? c) && (c <=? 10160)
   || (9410 <=? c) && (c <=? 127569))%N.

(** [_remove_emojis] *)
Definition _remove_emojis (text : str) : str :=
  strip (filter (fun c => negb (is_emoji c)) text).

Definition fallbacks : list str :=
  [ lit "Interesting!";
    lit "Great point, definitely something to think about.";
    lit "Love seeing this kind of content, keep it up.";
    lit "Solid take btw.";
    lit "Sounds interesting.";
    lit "Nice perspective on this.";
    lit "Well said.";
    lit "Good stuff.";
    lit "That's a great thought.";
    lit "Appreciate this insight.";
    lit "Glad you shared this.";
    lit "This is worth reflecting on.";
    lit "Strong point you made here.";
    lit "Thanks for the perspective.";
    lit "Really like this viewpoint.";
    lit "Good point, appreciate you sharing.";
    lit "This makes sense to me.";
    lit "Nice one, thanks for sharing.";
    lit "Thoughtful take on this.";
    lit "Love this kind of discussion." ].

(** [random.choice(seq)]: [IndexError] on an empty sequence, otherwise the
    element at the index the random source gives; [draw] is the value of
    the source, reduced to an index below [len(seq)]. *)
Definition random_choice {A} (seq : list A) (draw : nat) : result A :=
  match nth_error seq (draw mod length seq) with
  | Some a => Ok a
  | None => Raise IndexError
  end.

(** [_fallback_reply] *)
Definition _fallback_reply (tweet_text : str) (draw : nat) : result str :=
  random_choice fallbacks draw.

Definition prefixes_to_remove : list str :=
  [ lit "Reply:"; lit "reply:"; lit "Response:"; lit "response:";
    lit "Here's"; lit "Here is" ].

Definition max_retries : Z := 3.

(** The length bound of the specification on a reply. *)
Definition within_bounds (reply : str) : Prop := (5 <= len reply <= 200)%Z.

(** [s] holds [word] in some mix of upper and lower case. *)
Definition holds_ignoring_case (word s : str) : Prop :=
  exists before w after, s = before ++ w ++ after /\ map ascii_tolower w = word.

Section Engine.
Context {U : UnicodeData}.

(** One pass of [for prefix in prefixes_to_remove]. *)
Definition remove_prefix (reply prefix : str) : str :=
  if startswith (lower prefix) (lower reply) then
    let reply := strip (slice (Some (len prefix)) None reply) in
    if startswith (lit ":") reply then strip (slice (Some 1%Z) None reply)
    else reply
  else reply.

(** Lines 152-170: the clean-up of a non-empty response. *)
Definition clean (reply : str) : str :=
  let reply := strip (remove_all (lit "<end_of_turn>") reply) in
  let reply :=
    if startswith [quote] reply && endswith [quote] reply
    then strip (slice (Some 1%Z) (Some (-1)%Z) reply) else reply in
  let reply :=
    if startswith [apostrophe] reply && endswith [apostrophe] reply
    then strip (slice (Some 1%Z) (Some (-1)%Z) reply) else reply in
  let reply := fold_left remove_prefix prefixes_to_remove reply in
  _remove_emojis reply.

(** Lines 173-179: the length policy. *)
Definition limit_length (reply : str) : str :=
  if (200 <? len reply)%Z then
    if contains (lit ".") (slice None (Some 197%Z) reply) then
      let last_period := rfind (lit ".") (slice None (Some 197%Z) reply) in
      slice None (Some (last_period + 1)%Z) reply
    else slice None (Some 197%Z) reply ++ lit "..."
  else reply.

(** The body of the inner [try] for one attempt. *)
Definition attempt_body (o : backend_outcome) : result str :=
  match _query_ollama o with
  | None => Raise (ValueError "Empty response from Ollama")
  | Some [] => Raise (ValueError "Empty response from Ollama")
  | Some reply =>
      let reply := limit_length (clean reply) in
      if (len reply <? 5)%Z then Raise (ValueError "Reply too short")
      else Ok reply
  end.

(** [for attempt in range(max_retries)] from [attempt] on, [todo] attempts
    left.  [backend prompt attempt] is what the request of that attempt
    comes to.  A failed attempt that is not the last one sleeps and goes
    on; the last one re-raises.  When the range is exhausted the loop
    falls through to the fallback of line 196. *)
Fixpoint retry_loop (backend : str -> Z -> backend_outcome)
    (prompt tweet_text : str) (draw : nat) (todo : nat) (attempt : Z)
    : result str :=
  match todo with
  | O => _fallback_reply tweet_text draw
  | S todo' =>
      try_except (attempt_body (backend prompt attempt))
        (fun e =>
           if (attempt <? max_retries - 1)%Z
           then retry_loop backend prompt tweet_text draw todo' (attempt + 1)%Z
           else Raise e)
  end.

(** [generate_reply]; [username] is not used by the body. *)
Definition generate_reply (self : t) (backend : str -> Z -> backend_outcome)
    (draw : nat) (tweet_text : str) (username : option str) : result str :=
  try_except
    (let formatted_prompt :=
       _format_prompt_for_gemma (system_instruction self) tweet_text in
     retry_loop backend formatted_prompt tweet_text draw
       (Z.to_nat max_retries) 0%Z)
    (fun e => _fallback_reply tweet_text draw).

Definition blocklist : list str :=
  [ lit "kill"; lit "death"; lit "die"; lit "suicide"; lit "hate";
    lit "violence"; lit "attack"; lit "war"; lit "terror"; lit "bomb";
    lit "gun"; lit "weapon" ].

(** [is_appropriate_tweet]; the answer only: on a blocklisted word the
    source also writes an info line to the logger, which
    [is_appropriate_tweet_logged] has. *)
Definition is_appropriate_tweet (tweet_text : str) : bool :=
  match tweet_text with
  | [] => false
  | _ =>
      let text_lower := lower tweet_text in
      if existsb (fun word => contains word text_lower) blocklist then false
      else if (len (strip tweet_text) <? 10)%Z then false
      else if isupper tweet_text && (20 <? len tweet_text)%Z then false
      else true
  end.

(** The message of [logger.info] at line 265. *)
Definition skipping_line (word : str) : str :=
  lit "Skipping tweet with blocklisted word: " ++ word.

(** [is_appropriate_tweet] with its effect: the lines it writes to the
    logger, all at level INFO, and its answer.  The [for] loop over the
    blocklist returns at the first word that the lowered text holds. *)
Definition is_appropriate_tweet_logged (tweet_text : str) : list str * bool :=
  match tweet_text with
  | [] => ([], false)
  | _ =>
      let text_lower := lower tweet_text in
      match find (fun word => contains word text_lower) blocklist with
      | Some word => ([skipping_line word], false)
      | None =>
          if (len (strip tweet_text) <? 10)%Z then ([], false)
          else if isupper tweet_text && (20 <? len tweet_text)%Z then ([], false)
          else ([], true)
      end
  end.

End Engine.
End ReplyEngine.

(** ** The history store ([src/database.py]) *)

Module Database.
Import PyStr.

(** A row of [replied_tweets]; a timestamp is a number of seconds. *)
Record row : Type := mk_row {
  tweet_id : str;
  username : str;
  tweet_text : str;
  reply_text : str;
  replied_at : Q
}.

(** [self.conn]: [None] when [_init_db] could not connect, otherwise a
    connection, open or closed. *)
Inductive connection : Type :=
| NoConnection
| Open
| Closed.

(** The store a [Database] object works on: its connection, and the table
    [replied_tweets] of the database file, in insertion order; [None]
    when the file has no such table. *)
Record t : Type := mk {
  conn : connection;
  replied_tweets : option (list row)
}.

(** [_init_db] on a database file holding [file]: [connect_ok] and
    [create_ok] say whether [sqlite3.connect] and the
    [CREATE TABLE IF NOT EXISTS] statement succeed.  Every exception is
    logged and swallowed. *)
Definition _init_db (connect_ok create_ok : bool) (file : option (list row)) : t :=
  if connect_ok then
    if create_ok then
      mk Open (match file with None => Some [] | Some rows => Some rows end)
    else mk Open file
  else mk NoConnection file.

(** [self.conn.cursor()] followed by [cursor.execute] of a statement over
    [replied_tweets] that sqlite3 accepts: what is raised here comes from
    the connection and from the table.  [execute_with] below adds what
    sqlite3 raises for the parameters and for the database file. *)
Definition execute {A} (self : t) (statement : list row -> A) : result A :=
  match conn self with
  | NoConnection => Raise AttributeError
  | Closed => Raise ProgrammingError
  | Open =>
      match replied_tweets self with
      | None => Raise OperationalError
      | Some rows => Ok (statement rows)
      end
  end.

(** [SELECT 1 FROM replied_tweets WHERE tweet_id = ?] *)
Definition select_by_id (id : str) (rows : list row) : list row :=
  filter (fun r => eqb (tweet_id r) id) rows.

(** [cursor.fetchone()] *)
Definition fetchone {A} (rows : list A) : option A := hd_error rows.

(** [has_replied], as a result before its [except] clause. *)
Definition has_replied_query (self : t) (id : str) : result bool :=
  (selected <- execute self (select_by_id id) ;;
   Ok (match fetchone selected with Some _ => true | None => false end))%py.

(** [has_replied] *)
Definition has_replied (self : t) (id : str) : bool :=
  match has_replied_query self id with
  | Ok answer => answer
  | Raise _ => false
  end.

(** [INSERT OR REPLACE] under the primary key [tweet_id]: the rows in
    conflict with the new one are deleted, then it is inserted. *)
Definition insert_or_replace (new : row) (rows : list row) : list row :=
  filter (fun r => negb (eqb (tweet_id r) (tweet_id new))) rows ++ [new].

(** [mark_replied] when sqlite3 accepts the [INSERT]; [now] is
    [datetime.now()].  A failed write is logged and leaves the store as it
    was.  [mark_replied_with] below is the call with the refusals of
    sqlite3. *)
Definition mark_replied (self : t) (id user text reply : str) (now : Q) : t :=
  match execute self (insert_or_replace (mk_row id user text reply now)) with
  | Ok rows => mk (conn self) (Some rows)
  | Raise _ => self
  end.

(** [get_replied_count] *)
Definition get_replied_count (self : t) : Z :=
  match execute self (fun rows => Z.of_nat (length rows)) with
  | Ok n => n
  | Raise _ => 0%Z
  end.

(** [close] *)
Definition close (self : t) : t :=
  match conn self with
  | NoConnection => self
  | _ => mk Closed (replied_tweets self)
  end.

(** The rows keyed by [id], whatever the state of the connection. *)
Definition rows_for (self : t) (id : str) : list row :=
  match replied_tweets self with
  | Some rows => select_by_id id rows
  | None => []
  end.

(** The connection is open and the table exists: the statements that
    sqlite3 accepts succeed. *)
Definition readable (self : t) : Prop :=
  conn self = Open /\ replied_tweets self <> None.

(** *** Introspection and sequences of recordings *)

(** [ORDER BY replied_at DESC]: the rows by decreasing timestamp.  SQLite
    promises no order among rows of equal timestamp; here they keep the
    order of the table. *)
Fixpoint insert_by_recency (r : row) (sorted : list row) : list row :=
  match sorted with
  | [] => [r]
  | x :: rest =>
      if Qle_bool (replied_at x) (replied_at r) then r :: sorted
      else x :: insert_by_recency r rest
  end.

Definition order_by_recency (rows : list row) : list row :=
  fold_right insert_by_recency [] rows.

(** [a] is at least as recent as [b]. *)
Definition more_recent (a b : row) : Prop := replied_at b <= replied_at a.

(** [LIMIT ?] for a limit that sqlite3 could bind: a negative limit is
    no limit. *)
Definition limit_rows (limit : Z) (rows : list row) : list row :=
  if (limit <? 0)%Z then rows else firstn (Z.to_nat limit) rows.

(** [get_recent_replies] when sqlite3 accepts the [SELECT]; the
    dictionaries it returns have the fields of the rows. *)
Definition get_recent_replies (self : t) (limit : Z) : list row :=
  match execute self (fun rows => limit_rows limit (order_by_recency rows)) with
  | Ok rows => rows
  | Raise _ => []
  end.

(** [mark_replied] with the fields of [r], and one call after the other. *)
Definition mark_row (self : t) (r : row) : t :=
  mark_replied self (tweet_id r) (username r) (tweet_text r) (reply_text r)
               (replied_at r).

Definition mark_all (self : t) (calls : list row) : t :=
  fold_left mark_row calls self.

(** The last of [calls] that has the key [id]. *)
Definition latest (id : str) (calls : list row) : option row :=
  find (fun r => eqb (tweet_id r) id) (rev calls).

(** The primary key holds: no two rows of the table share a [tweet_id]. *)
Definition unique_keys (self : t) : Prop :=
  match replied_tweets self with
  | Some rows => NoDup (map tweet_id rows)
  | None => True
  end.

(** *** The statements with the refusals of sqlite3

    A statement that is in order for the connection and the table is
    still refused by sqlite3 when it cannot bind a parameter, a [str]
    that holds a lone surrogate (UnicodeEncodeError) or an [int] outside
    64 bits (OverflowError), and when the database file is locked by
    another connection or the disk is full (OperationalError).  The
    [except] clause of every method swallows these as it does the
    others.  The definitions above are the statements that sqlite3
    accepts, and the run loop of [Bot] records and looks up through them;
    the ones below are the methods on every parameter and whatever the
    file answers. *)

(** The values the methods bind to the [?] of their statements. *)
Inductive parameter : Type :=
| Text (s : str)
| Integer (n : Z)
| Timestamp (moment : Q).

Definition bind_parameter (p : parameter) : result unit :=
  match p with
  | Text s => if encodable s then Ok tt else Raise UnicodeEncodeError
  | Integer n =>
      if ((- 2 ^ 63 <=? n) && (n <? 2 ^ 63))%Z then Ok tt else Raise OverflowError
  | Timestamp _ => Ok tt
  end.

Fixpoint bind_parameters (parameters : list parameter) : result unit :=
  match parameters with
  | [] => Ok tt
  | p :: rest => (bound <- bind_parameter p ;; bind_parameters rest)%py
  end.

(** [self.conn.cursor()] followed by [cursor.execute(sql, parameters)]:
    the cursor and the statement are made as in [execute], then the
    parameters are bound, then the statement runs on the file;
    [file_error] is the error the file answers with, if it does. *)
Definition execute_with {A} (self : t) (file_error : option exn)
    (parameters : list parameter) (statement : list row -> A) : result A :=
  (answer <- execute self statement ;;
   bound <- bind_parameters parameters ;;
   match file_error with
   | Some e => Raise e
   | None => Ok answer
   end)%py.

(** sqlite3 accepts a statement: the parameters bind and the file answers
    with no error. *)
Definition accepts (file_error : option exn) (parameters : list parameter) : bool :=
  match bind_parameters parameters, file_error with
  | Ok _, None => true
  | _, _ => false
  end.

(** [has_replied]; [file_error] is what the file answers to the
    [SELECT].  A [tweet_id] that cannot be bound and an error of the file
    end in the [except] clause: the answer is [False]. *)
Definition has_replied_with (self : t) (file_error : option exn) (id : str) : bool :=
  match execute_with self file_error [Text id] (select_by_id id) with
  | Ok selected => match fetchone selected with Some _ => true | None => false end
  | Raise _ => false
  end.

(** The parameters of the [INSERT] of [mark_replied]. *)
Definition row_parameters (r : row) : list parameter :=
  [Text (tweet_id r); Text (username r); Text (tweet_text r); Text (reply_text r);
   Timestamp (replied_at r)].

(** [mark_replied]; [file_error] is what the file answers to the
    [INSERT].  A refused statement is logged and writes nothing.  When the
    statement is accepted and its commit is refused, the row stays in the
    open transaction of the connection, where the statements of the
    connection read it: the table is the table as they read it. *)
Definition mark_replied_with (self : t) (file_error : option exn)
    (id user text reply : str) (now : Q) : t :=
  match execute_with self file_error (row_parameters (mk_row id user text reply now))
          (insert_or_replace (mk_row id user text reply now)) with
  | Ok rows => mk (conn self) (Some rows)
  | Raise _ => self
  end.

(** [get_replied_count]; the statement has no parameter. *)
Definition get_replied_count_with (self : t) (file_error : option exn) : Z :=
  match execute_with self file_error [] (fun rows => Z.of_nat (length rows)) with
  | Ok n => n
  | Raise _ => 0%Z
  end.

(** [get_recent_replies]; [limit] is bound to [LIMIT ?], which a Python
    [int] outside 64 bits cannot be. *)
Definition get_recent_replies_with (self : t) (file_error : option exn) (limit : Z)
    : list row :=
  match execute_with self file_error [Integer limit]
          (fun rows => limit_rows limit (order_by_recency rows)) with
  | Ok rows => rows
  | Raise _ => []
  end.

(** One [mark_replied] call after the other, each with what the file
    answers to it. *)
Definition mark_row_with (self : t) (call : option exn * row) : t :=
  mark_replied_with self (fst call) (tweet_id (snd call)) (username (snd call))
                    (tweet_text (snd call)) (reply_text (snd call))
                    (replied_at (snd call)).

Definition mark_all_with (self : t) (calls : list (option exn * row)) : t :=
  fold_left mark_row_with calls self.

(** The rows of the calls that sqlite3 accepts. *)
Definition accepted_rows (calls : list (option exn * row)) : list row :=
  map snd (filter (fun call => accepts (fst call) (row_parameters (snd call))) calls).

End Database.

(** ** The run orchestrator ([src/bot.py]) *)

Module Bot.
Import PyStr.

(** The dictionary [extract_post_data] returns; [element] stands for the
    browser's handle of the article, which the orchestrator only hands
    back to the action performer. *)
Record post_data : Type := mk_post {
  tweet_id : str;
  username : str;
  text : str;
  element : nat
}.

(** The attributes of [XReplyBot] the run loop reads and writes. *)
Record t : Type := mk {
  manual_approval : bool;
  db : Database.t;
  reply_engine : ReplyEngine.t;
  max_replies_per_run : Z;
  min_delay_between_replies : Q;
  last_reply_time : Q
}.

(** [XReplyBot.__init__], on the store [Database()] opened. *)
Definition __init__ (manual : bool) (store : Database.t) (engine : ReplyEngine.t) : t :=
  mk manual store engine 20%Z (30 # 1) (0 # 1).

(** The local variables of [run_once]. *)
Record locals : Type := mk_locals {
  replies_made : Z;
  consecutive_failures : Z
}.

Definition MAX_FAILURES : Z := 5.

Inductive level : Type := INFO | WARNING | ERROR.

(** What the run loop does to its collaborators, in order. *)
Inductive event : Type :=
| Scroll
| Scan (visible : result nat)
| Extract (p_data : result (option post_data))
| HasReplied (id : str) (answer : bool)
| IsAppropriate (tweet_text : str) (answer : bool)
| Generate (id tweet_text user : str) (reply : result str)
| ManualPause
| RateLimit (time_since_last : Q) (wait : option Q)
| Submit (id : str) (article_element : nat) (reply_text : str) (success : result bool)
| MarkReplied (id user tweet_text reply_text : str) (now : Q)
| Sleep (seconds : Q)
| Log (lvl : level) (msg : string).

(** What the collaborators answer during one iteration of the outer
    [while]: the visible elements of each search attempt, already
    shuffled, each with what [extract_post_data] gives on it; the
    backend and the random draw of the reply engine; [time.time()] at
    the rate-limit check and after a success, [datetime.now()] at the
    recording; what [reply_to_tweet] comes to; [random.uniform(20, 40)]. *)
Record cycle_input : Type := mk_input {
  scans : Z -> result (list (result (option post_data)));
  backend : str -> Z -> ReplyEngine.backend_outcome;
  draw : nat;
  clock_rate_limit : Q;
  submit : result bool;
  clock_record : Q;
  clock_success : Q;
  sleep_time : Q
}.

Inductive flow : Type :=
| Continue
| Break
| Escaped (e : exn).

(** The outcome of a piece of the loop body. *)
Record step : Type := mk_step {
  events : list event;
  bot : t;
  vars : locals;
  next : flow
}.

Definition prepend {A} (evs : list event) (r : list event * A) : list event * A :=
  (evs ++ fst r, snd r).

Definition set_db (self : t) (d : Database.t) : t :=
  mk (manual_approval self) d (reply_engine self) (max_replies_per_run self)
     (min_delay_between_replies self) (last_reply_time self).

Definition set_last_reply_time (self : t) (now : Q) : t :=
  mk (manual_approval self) (db self) (reply_engine self) (max_replies_per_run self)
     (min_delay_between_replies self) now.

Section Run.
Context {U : UnicodeData}.

(** [for element in visible_elements] (lines 183-210): the first element
    that has data, is not in the store and passes the filter. *)
Fixpoint select (self : t) (visible : list (result (option post_data)))
    : list event * option post_data :=
  match visible with
  | [] => ([], None)
  | el :: rest =>
      match el with
      | Ok (Some p_data) =>
          let id := tweet_id p_data in
          if Database.has_replied (db self) id then
            prepend [Extract el; HasReplied id true] (select self rest)
          else if negb (ReplyEngine.is_appropriate_tweet (text p_data)) then
            prepend [Extract el; HasReplied id false; IsAppropriate (text p_data) false]
                    (select self rest)
          else
            ([Extract el; HasReplied id false; IsAppropriate (text p_data) true;
              Log INFO "Found candidate tweet"], Some p_data)
      | _ => prepend [Extract el] (select self rest)
      end
  end.

(** [while not found_candidate and search_attempts < 10] (lines 171-213),
    with [remaining] the attempts left, 10 at the start.  An exception of
    [get_visible_tweet_elements] is not caught here. *)
Fixpoint search_loop (self : t) (inp : cycle_input) (remaining : nat)
    (search_attempts : Z) : list event * result (option post_data) :=
  match remaining with
  | O => ([], Ok None)
  | S remaining' =>
      let search_attempts := (search_attempts + 1)%Z in
      match scans inp search_attempts with
      | Raise e => ([Scroll; Scan (Raise e)], Raise e)
      | Ok visible =>
          let selection := select self visible in
          match snd selection with
          | Some p_data =>
              (Scroll :: Scan (Ok (length visible)) :: fst selection,
               Ok (Some p_data))
          | None =>
              prepend
                (Scroll :: Scan (Ok (length visible)) :: fst selection
                 ++ [Log INFO "No suitable tweets found in current view, scrolling..."])
                (search_loop self inp remaining' search_attempts)
          end
      end
  end.

(** Lines 247-251. *)
Definition rate_limit (self : t) (now : Q) : list event :=
  let time_since_last := now - last_reply_time self in
  if Qlt_le_dec time_since_last (min_delay_between_replies self) then
    let wait := min_delay_between_replies self - time_since_last in
    [RateLimit time_since_last (Some wait);
     Log INFO "Waiting for rate limit..."; Sleep wait]
  else [RateLimit time_since_last None].

(** Lines 226-273: the reply process for the selected candidate. *)
Definition reply_process (self : t) (l : locals) (inp : cycle_input)
    (post : post_data) : step :=
  let id := tweet_id post in
  let user := username post in
  let tweet_text := text post in
  let article_element := element post in
  match ReplyEngine.generate_reply (reply_engine self) (backend inp) (draw inp)
          tweet_text (Some user) with
  | Raise e => mk_step [Generate id tweet_text user (Raise e)] self l (Escaped e)
  | Ok reply_text =>
      let before :=
        [Generate id tweet_text user (Ok reply_text)]
        ++ (if manual_approval self then [ManualPause; Sleep (5 # 1)] else [])
        ++ rate_limit self (clock_rate_limit inp)
        ++ [Log INFO "Replying"; Submit id article_element reply_text (submit inp)] in
      match submit inp with
      | Ok true =>
          let store :=
            Database.mark_replied (db self) id user tweet_text reply_text
              (clock_record inp) in
          mk_step
            (before
             ++ [MarkReplied id user tweet_text reply_text (clock_record inp);
                 Log INFO "Reply success!"; Log INFO "Sleeping before next search...";
                 Sleep (sleep_time inp)])
            (set_last_reply_time (set_db self store) (clock_success inp))
            (mk_locals (replies_made l + 1) (consecutive_failures l))
            Continue
      | Ok false =>
          mk_step (before ++ [Log WARNING "Reply action failed"]) self l Continue
      | Raise e =>
          mk_step (before ++ [Log ERROR "Exception during reply action"]) self l Continue
      end
  end.

(** One iteration of [while replies_made < self.max_replies_per_run]. *)
Definition cycle (self : t) (l : locals) (inp : cycle_input) : step :=
  let search := search_loop self inp 10 0 in
  match snd search with
  | Raise e => mk_step (fst search) self l (Escaped e)
  | Ok None =>
      let failures := (consecutive_failures l + 1)%Z in
      let l := mk_locals (replies_made l) failures in
      let warned :=
        fst search
        ++ [Log WARNING "Could not find any suitable tweets after multiple scrolls"] in
      if (MAX_FAILURES <=? failures)%Z then
        mk_step (warned ++ [Log ERROR "Too many failures finding tweets, aborting run"])
                self l Break
      else mk_step warned self l Continue
  | Ok (Some post) =>
      let l := mk_locals (replies_made l) 0 in
      let s := reply_process self l inp post in
      mk_step (fst search ++ events s) (bot s) (vars s) (next s)
  end.

(** How far a run has come: out of the loop on the quota or on the
    failure budget, out of [run_once] on an exception, or still in the
    loop when the answers of the collaborators end. *)
Inductive status : Type :=
| QuotaReached
| Aborted
| Crashed (e : exn)
| Running.

Record run : Type := mk_run {
  run_events : list event;
  run_bot : t;
  run_vars : locals;
  run_status : status
}.

Definition after (evs : list event) (r : run) : run :=
  mk_run (evs ++ run_events r) (run_bot r) (run_vars r) (run_status r).

(** The outer [while] of [run_once], one [cycle_input] per iteration. *)
Fixpoint while_loop (self : t) (l : locals) (inputs : list cycle_input)
    {struct inputs} : run :=
  if (replies_made l <? max_replies_per_run self)%Z then
    match inputs with
    | [] => mk_run [] self l Running
    | inp :: rest =>
        let s := cycle self l inp in
        match next s with
        | Continue => after (events s) (while_loop (bot s) (vars s) rest)
        | Break => mk_run (events s) (bot s) (vars s) Aborted
        | Escaped e => mk_run (events s) (bot s) (vars s) (Crashed e)
        end
    end
  else mk_run [] self l QuotaReached.

(** What the browser and the feed answer during one call of [run_once]. *)
Record run_input : Type := mk_run_input {
  navigate : result unit;
  cycles : list cycle_input
}.

(** [run_once]; the value returned is [replies_made (run_vars _)]. *)
Definition run_once (self : t) (inp : run_input) : run :=
  let start := mk_locals 0 0 in
  match navigate inp with
  | Raise e =>
      mk_run [Log INFO "Navigating to home feed...";
              Log ERROR "Critical error in run_once"] self start (Crashed e)
  | Ok _ =>
      let r := after [Log INFO "Navigating to home feed..."]
                 (while_loop self start (cycles inp)) in
      match run_status r with
      | Running => r
      | Crashed _ =>
          mk_run (run_events r ++ [Log ERROR "Critical error in run_once"])
                 (run_bot r) (run_vars r) (run_status r)
      | _ =>
          mk_run (run_events r ++ [Log INFO "Run complete"])
                 (run_bot r) (run_vars r) (run_status r)
      end
  end.

(** [run_continuous]: one [run_once] after the other on the same
    instance, as far as the answers of the collaborators go. *)
Fixpoint run_continuous (self : t) (interval_minutes : Z) (runs : list run_input)
    : list event * t :=
  match runs with
  | [] => ([], self)
  | inp :: rest =>
      let r := run_once self inp in
      match run_status r with
      | Running => (run_events r, run_bot r)
      | _ =>
          prepend
            (run_events r
             ++ [Log INFO "Waiting until next run...";
                 Sleep (inject_Z (interval_minutes * 60))])
            (run_continuous (run_bot r) interval_minutes rest)
      end
  end.

End Run.

(** *** Reading a trace *)

(** The states of the design's state machine. *)
Inductive state : Type :=
| Scanning
| Selecting
| RateLimiting
| Generating
| Submitting
| Recording.

(** The state in which the loop does [e]; pauses, sleeps and log lines
    belong to the state they occur in. *)
Definition state_of (e : event) : option state :=
  match e with
  | Scroll | Scan _ => Some Scanning
  | Extract _ | HasReplied _ _ | IsAppropriate _ _ => Some Selecting
  | Generate _ _ _ _ => Some Generating
  | RateLimit _ _ => Some RateLimiting
  | Submit _ _ _ _ => Some Submitting
  | MarkReplied _ _ _ _ _ => Some Recording
  | ManualPause | Sleep _ | Log _ _ => None
  end.


(** The store after the recordings of a trace. *)
Definition apply_event (d : Database.t) (e : event) : Database.t :=
  match e with
  | MarkReplied id user tweet_text reply_text now =>
      Database.mark_replied d id user tweet_text reply_text now
  | _ => d
  end.

Definition replay (d : Database.t) (tr : list event) : Database.t :=
  fold_left apply_event tr d.

(** [e] invokes the reply generator or the action dispatcher for [id]. *)
Definition acts_on (id : str) (e : event) : Prop :=
  (exists tweet_text user reply, e = Generate id tweet_text user reply)
  \/ (exists el reply_text success, e = Submit id el reply_text success).

(** Along [tr], started on the store [d], the generator and the
    dispatcher are only invoked for ids the store has no row for at that
    moment. *)
Fixpoint dedup_ok (d : Database.t) (tr : list event) : Prop :=
  match tr with
  | [] => True
  | e :: r =>
      (forall id, acts_on id e -> Database.rows_for d id = [])
      /\ dedup_ok (apply_event d e) r
  end.

(** The events of scanning and selecting. *)
Definition search_event (e : event) : bool :=
  match e with
  | Scroll | Scan _ | Extract _ | HasReplied _ _ | IsAppropriate _ _ | Log _ _ => true
  | _ => false
  end.






(** [e] is a submission that succeeded. *)
Definition is_success (e : event) : bool :=
  match e with
  | Submit _ _ _ (Ok true) => true
  | _ => false
  end.

(** [e] is a rate-limit check that made the loop wait. *)
Definition is_wait (e : event) : bool :=
  match e with
  | RateLimit _ (Some _) => true
  | _ => false
  end.

(** Up to the first successful submission of [tr], no rate-limit check
    made the loop wait. *)
Fixpoint calm (tr : list event) : bool :=
  match tr with
  | [] => true
  | e :: r => negb (is_wait e) && (is_success e || calm r)
  end.

(** A bot as [__init__] leaves its rate limiter. *)
Definition fresh (self : t) : Prop :=
  last_reply_time self = 0 # 1 /\ min_delay_between_replies self = 30 # 1.

(** What a piece of a run keeps of a fresh bot: no wait before the first
    success, and a bot still fresh when there was no success. *)
Definition keeps_calm (tr : list event) (self' : t) : Prop :=
  calm tr = true /\ (existsb is_success tr = true \/ fresh self').

(** *** More on traces *)

(** The tweet id and reply text of the submissions that succeeded, and of
    the recordings, in order. *)
Fixpoint successes (tr : list event) : list (str * str) :=
  match tr with
  | [] => []
  | Submit id _ reply_text (Ok true) :: r => (id, reply_text) :: successes r
  | _ :: r => successes r
  end.

Fixpoint records (tr : list event) : list (str * str) :=
  match tr with
  | [] => []
  | MarkReplied id _ _ reply_text _ :: r => (id, reply_text) :: records r
  | _ :: r => records r
  end.

Definition is_scan (e : event) : bool :=
  match e with
  | Scan _ => true
  | _ => false
  end.

Definition is_scroll (e : event) : bool :=
  match e with
  | Scroll => true
  | _ => false
  end.

Definition is_submit (e : event) : bool :=
  match e with
  | Submit _ _ _ _ => true
  | _ => false
  end.



(** What [setup_driver] comes to: [True], or [False] with [self.driver]
    set (the window could not be maximized) or not (no browser). *)
Inductive setup_outcome : Type :=
| DriverReady
| DriverFailed (driver_set : bool).



Section Starting.
Context {U : UnicodeData}.

(** The checks of lines 188-200 on one visible element. *)
Definition eligible (self : t) (el : result (option post_data)) : bool :=
  match el with
  | Ok (Some p_data) =>
      negb (Database.has_replied (db self) (tweet_id p_data))
      && ReplyEngine.is_appropriate_tweet (text p_data)
  | _ => false
  end.

(** [cleanup]: [driver] says whether [self.driver] is set, [quit] what
    [driver.quit()] comes to; [save_cookies] catches its exceptions.  The
    events, and the bot afterwards or the exception that cuts it short. *)
Definition cleanup (self : t) (driver : bool) (quit : result unit)
    : list event * result t :=
  let closed := set_db self (Database.close (db self)) in
  if driver then
    match quit with
    | Ok _ => ([Log INFO "Cleaning up..."; Log INFO "Cleanup complete"], Ok closed)
    | Raise e => ([Log INFO "Cleaning up..."], Raise e)
    end
  else ([Log INFO "Cleaning up..."; Log INFO "Cleanup complete"], Ok closed).

(** [start]: [setup] is what [setup_driver] comes to, [login] what
    [login_if_needed] returns; [first] and [more] are the runs the
    collaborators answer for before the interrupt that ends the bot
    (only [first] when not [continuous]). *)
Definition start (self : t) (continuous : bool) (interval_minutes : Z)
    (setup : setup_outcome) (login : bool) (first : run_input)
    (more : list run_input) (quit : result unit) : list event * result t :=
  match setup with
  | DriverReady =>
      if login then
        let ran :=
          if continuous then run_continuous self interval_minutes (first :: more)
          else (run_events (run_once self first), run_bot (run_once self first)) in
        prepend (fst ran) (cleanup (snd ran) true quit)
      else prepend [Log ERROR "Failed to login"] (cleanup self true quit)
  | DriverFailed driver_set =>
      prepend [Log ERROR "Failed to setup driver"] (cleanup self driver_set quit)
  end.

End Starting.

End Bot.

(** ** The post fetcher ([src/fetch_posts.py]) *)

Module PostFetcher.
Import PyStr.

(** An article element as the extractors see it: the [href] of each of
    its links; its user-name elements; what [find_element] gives for a
    CSS selector; its text.  Every access to the browser may raise. *)
Record user_element : Type := mk_user_element {
  el_text : result str;
  el_href : result (option str)
}.

Inductive lookup : Type :=
| NoSuchElement
| Found (text : result str)
| LookupFailed (e : exn).

Record article : Type := mk_article {
  handle : nat;
  links : result (list (result (option str)));
  username_elements : result (list user_element);
  find_text : str -> lookup;
  article_text : result str
}.

(** The dictionary of [extract_post_data]. *)
Record post_dict : Type := mk_dict {
  tweet_id : str;
  username : str;
  text : str;
  element : nat;
  already_replied : bool
}.

Definition to_post_data (d : post_dict) : Bot.post_data :=
  Bot.mk_post (tweet_id d) (username d) (text d) (element d).

Section Fetcher.
(** [uni_isdecimal c]: the non-ASCII code point [c] is a decimal digit,
    which the class [\d] of a [str] pattern matches too. *)
Variable uni_isdecimal : codepoint -> bool.

Definition is_digit (c : codepoint) : bool :=
  if is_ascii c then ((48 <=? c) && (c <=? 57))%N else uni_isdecimal c.

Fixpoint take_digits (s : str) : str :=
  match s with
  | [] => []
  | c :: r => if is_digit c then c :: take_digits r else []
  end.

(** The group of [/status/(\d+)] matched at the head of [s]. *)
Definition match_status_here (s : str) : option str :=
  if startswith (lit "/status/") s then
    match take_digits (skipn 8 s) with
    | [] => None
    | digits => Some digits
    end
  else None.

(** [re.search(r'/status/(\d+)', s)]: the group of the leftmost match. *)
Fixpoint search_status (s : str) : option str :=
  match match_status_here s with
  | Some digits => Some digits
  | None =>
      match s with
      | [] => None
      | _ :: r => search_status r
      end
  end.

(** The loop of [extract_tweet_id] over the links. *)
Fixpoint scan_links (links : list (result (option str))) : result (option str) :=
  match links with
  | [] => Ok None
  | link :: rest =>
      match link with
      | Raise e => Raise e
      | Ok None => scan_links rest
      | Ok (Some href) =>
          if negb (eqb href []) && contains (lit "/status/") href then
            match search_status href with
            | Some id => Ok (Some id)
            | None => scan_links rest
            end
          else scan_links rest
      end
  end.

(** [extract_tweet_id] *)
Definition extract_tweet_id (a : article) : option str :=
  match (found <- links a ;; scan_links found)%py with
  | Ok id => id
  | Raise _ => None
  end.

(** [s.split(sep)[-1]] for a separator of one code point: what follows
    the last separator. *)
Fixpoint last_part (sep : codepoint) (s : str) : str :=
  match s with
  | [] => []
  | c :: r => if contains [sep] r then last_part sep r
              else if (c =? sep)%N then r else s
  end.

(** The loop of [extract_username]. *)
Fixpoint scan_usernames (elems : list user_element) : result (option str) :=
  match elems with
  | [] => Ok None
  | elem :: rest =>
      (raw <- el_text elem ;;
       let text := strip raw in
       if startswith (lit "@") text then Ok (Some (slice (Some 1%Z) None text))
       else
         href <- el_href elem ;;
         match href with
         | Some h =>
             if negb (eqb h []) && contains (lit "/") h
                && negb (startswith (lit "status") (last_part 47%N h))
             then Ok (Some (last_part 47%N h))
             else scan_usernames rest
         | None => scan_usernames rest
         end)%py
  end.

(** [extract_username] *)
Definition extract_username (a : article) : option str :=
  match (elems <- username_elements a ;; scan_usernames elems)%py with
  | Ok name => name
  | Raise _ => None
  end.

Definition text_selectors : list str :=
  [ lit "[data-testid='tweetText']";
    lit "[data-testid='tweetText'] span";
    lit "div[lang] span";
    lit "div[data-testid='tweetText']" ].

(** The loop of [extract_tweet_text] over the selectors: the first
    stripped text that is not empty. *)
Fixpoint scan_selectors (a : article) (selectors : list str) : result (option str) :=
  match selectors with
  | [] => Ok None
  | selector :: rest =>
      match find_text a selector with
      | NoSuchElement => scan_selectors a rest
      | LookupFailed e => Raise e
      | Found (Raise e) => Raise e
      | Found (Ok raw) =>
          match strip raw with
          | [] => scan_selectors a rest
          | text => Ok (Some text)
          end
      end
  end.

(** [text.split(newline)] *)
Fixpoint split_lines (current : str) (s : str) : list str :=
  match s with
  | [] => [rev current]
  | c :: r =>
      if (c =? 10)%N then rev current :: split_lines [] r
      else split_lines (c :: current) r
  end.

(** The two code points the source file has between its quotes in the
    test on a line of the fallback. *)
Definition separator_mark : str := [194%N; 183%N].

Definition content_line (line : str) : bool :=
  negb (eqb line []) && negb (startswith (lit "@") line)
  && negb (contains separator_mark line) && (10 <? len line)%Z.

(** [' '.join(lines)] *)
Fixpoint join_spaces (lines : list str) : str :=
  match lines with
  | [] => []
  | [line] => line
  | line :: rest => line ++ [32%N] ++ join_spaces rest
  end.

(** [extract_tweet_text] *)
Definition extract_tweet_text (a : article) : option str :=
  match
    (found <- scan_selectors a text_selectors ;;
     match found with
     | Some text => Ok (Some text)
     | None =>
         whole <- article_text a ;;
         let lines := split_lines [] whole in
         let content_lines := filter content_line lines in
         Ok (Some (join_spaces (firstn 3 content_lines)))
     end)%py
  with
  | Ok text => text
  | Raise _ => None
  end.

(** [check_already_replied] *)
Definition check_already_replied (a : article) : bool := false.

(** [extract_post_data] *)
Definition extract_post_data (a : article) : option post_dict :=
  match extract_tweet_id a with
  | None => None
  | Some [] => None
  | Some id =>
      let name := extract_username a in
      match extract_tweet_text a with
      | None => None
      | Some [] => None
      | Some body =>
          if (len body <? 10)%Z then None
          else
            Some (mk_dict id
                    (match name with
                     | None => lit "unknown"
                     | Some [] => lit "unknown"
                     | Some n => n
                     end)
                    body (handle a) (check_already_replied a))
      end
  end.

(** The loop of [fetch_posts]: [posts] in reverse order of appending. *)
Fixpoint collect (max_posts : Z) (seen_ids : list str) (posts : list post_dict)
    (articles : list article) : list post_dict :=
  match articles with
  | [] => rev posts
  | a :: rest =>
      if (max_posts <=? Z.of_nat (length posts))%Z then rev posts
      else
        match extract_post_data a with
        | Some post_data =>
            if existsb (eqb (tweet_id post_data)) seen_ids
            then collect max_posts seen_ids posts rest
            else collect max_posts (tweet_id post_data :: seen_ids)
                         (post_data :: posts) rest
        | None => collect max_posts seen_ids posts rest
        end
  end.

(** [fetch_posts]: [wait] and [scroll] are what waiting for the feed and
    [scroll_feed] come to, [visible] what [get_visible_tweet_elements]
    gives. *)
Definition fetch_posts (max_posts : Z) (scroll_first : bool)
    (wait scroll : result unit) (visible : result (list article)) : list post_dict :=
  match
    (_ <- wait ;;
     _ <- (if scroll_first then scroll else Ok tt) ;;
     articles <- visible ;;
     Ok (collect max_posts [] [] articles))%py
  with
  | Ok posts => posts
  | Raise _ => []
  end.

End Fetcher.
End PostFetcher.

(** ** The action performer ([src/action.py]) *)

Module ActionPerformer.
Import PyStr.

(** A button found in the page: whether [is_displayed()] holds (or the
    exception, other than [NoSuchElementException], that it raises) and
    what [click()] comes to. *)
Record button : Type := mk_button {
  button_id : nat;
  is_displayed : result bool;
  click : result unit
}.

Inductive lookup : Type :=
| NoSuchElement
| Found (b : button)
| LookupFailed (e : exn).

Definition reply_selectors : list str :=
  [ lit "[data-testid='reply']";
    lit "button[aria-label*='Reply']";
    lit "button[aria-label*='reply']";
    lit "div[role='button'][aria-label*='Reply']" ].

(** The loop of [click_reply_button] over the selectors, with
    [reply_button] the button held so far. *)
Fixpoint find_reply_button (find_element : str -> lookup) (selectors : list str)
    (reply_button : option button) : result (option button) :=
  match selectors with
  | [] => Ok reply_button
  | selector :: rest =>
      match find_element selector with
      | NoSuchElement => find_reply_button find_element rest reply_button
      | LookupFailed e => Raise e
      | Found b =>
          (shown <- is_displayed b ;;
           if shown : bool then Ok (Some b)
           else find_reply_button find_element rest (Some b))%py
      end
  end.

(** [click_reply_button]: the answer, and the button clicked if any;
    [scroll_to_element] catches its exceptions. *)
Definition click_reply_button (find_element : str -> lookup) : bool * option button :=
  match find_reply_button find_element reply_selectors None with
  | Raise _ => (false, None)
  | Ok None => (false, None)
  | Ok (Some b) =>
      match click b with
      | Ok _ => (true, Some b)
      | Raise _ => (false, Some b)
      end
  end.

(** [reply_to_tweet]: [type_reply] and [post_reply] are what these steps
    return when they are reached. *)
Definition reply_to_tweet (find_element : str -> lookup)
    (type_reply post_reply : bool) : bool :=
  if negb (fst (click_reply_button find_element)) then false
  else if negb type_reply then false
  else if negb post_reply then false
  else true.

End ActionPerformer.

(** ** Sample data *)

Module Samples.
Import PyStr.

Definition engine : ReplyEngine.t :=
  ReplyEngine.mk (lit "gemma3:1b") (lit "http://localhost:11434/api/generate")
                 (lit "You are a passionate software engineer.").

(** A new store, and a bot on it. *)
Definition store : Database.t := Database._init_db true true None.

Definition bot0 : Bot.t := Bot.__init__ false store engine.

Definition post_b : Bot.post_data :=
  Bot.mk_post (lit "2") (lit "bob")
    (lit "I think microservices are overrated for small teams") 2.

Definition backend_down (prompt : str) (attempt : Z) : ReplyEngine.backend_outcome :=
  ReplyEngine.RequestFailed.

(** A first view with one article without data, then views showing
    [post_b]; the backend is down. *)
Definition feed (search_attempts : Z) : result (list (result (option Bot.post_data))) :=
  if (search_attempts =? 1)%Z then Ok [Ok None] else Ok [Ok (Some post_b)].

Definition answers (submit : result bool) : Bot.cycle_input :=
  Bot.mk_input feed backend_down 3 (1700000000 # 1) submit
               (1700000001 # 1) (1700000002 # 1) (25 # 1).

(** Views that show [post_b] first. *)
Definition answers_b : Bot.cycle_input :=
  Bot.mk_input (fun _ => Ok [Ok (Some post_b)]) backend_down 3 (1700000000 # 1)
               (Ok true) (1700000001 # 1) (1700000002 # 1) (25 # 1).

(** Views that show nothing. *)
Definition answers_empty : Bot.cycle_input :=
  Bot.mk_input (fun _ => Ok []) backend_down 3 (1700000000 # 1) (Ok true)
               (1700000001 # 1) (1700000002 # 1) (25 # 1).

(** A store that holds a reply to [post_b], written by an earlier
    process, on a bot whose [_init_db] could not connect. *)
Definition row_b : Database.row :=
  Database.mk_row (lit "2") (lit "bob")
    (lit "I think microservices are overrated for small teams")
    (lit "Solid take btw.") (1699999990 # 1).

Definition store_down : Database.t := Database._init_db false true (Some [row_b]).

Definition bot_down : Bot.t := Bot.__init__ false store_down engine.


Definition start : Bot.locals := Bot.mk_locals 0 0.

Definition failing_run : Bot.run_input :=
  Bot.mk_run_input (Ok tt)
    [answers_empty; answers_empty; answers_empty; answers_empty; answers_empty;
     answers_b].

Definition replying_run : Bot.run_input :=
  Bot.mk_run_input (Ok tt) [answers (Ok true); answers (Ok true)].

Definition shouting_bomb : str := lit "That talk was a BoMb, honestly".

(** Backend responses: 300 letters, and 300 letters after a short sentence
    of 12 characters. *)
Definition long_response : str := repeat 97%N 300.

Definition long_sentence : str := lit "Hello there." ++ repeat 97%N 300.

Definition all_caps : str := lit "THIS IS ALL CAPS SHOUTING".

(** Recordings: one for tweet 1, then two for tweet 2. *)
Definition row_a : Database.row :=
  Database.mk_row (lit "1") (lit "alice") (lit "Rust or Go for a new service?")
    (lit "Nice perspective on this.") (1699999000 # 1).

Definition row_b_again : Database.row :=
  Database.mk_row (lit "2") (lit "bob")
    (lit "I think microservices are overrated for small teams")
    (lit "Well said.") (1699999995 # 1).

Definition store_two : Database.t := Database.mark_all store [row_a; row_b].

(** A bot with a quota of zero. *)
Definition bot_zero : Bot.t :=
  Bot.mk false store engine 0 (30 # 1) (0 # 1).

(** A backend that cannot be reached at the first attempt and answers at
    the second. *)
Definition backend_second (prompt : str) (attempt : Z) : ReplyEngine.backend_outcome :=
  if (attempt =? 0)%Z then ReplyEngine.RequestFailed
  else ReplyEngine.Body (Some (lit "Fair point, shipping beats polishing here.")).

Definition warehouse : str := lit "the WARehouse is full of boxes".

(** An article with a status link, a user name and a text. *)
Definition sample_article : PostFetcher.article :=
  PostFetcher.mk_article 7
    (Ok [Ok None; Ok (Some (lit "https://x.com/bob"));
         Ok (Some (lit "https://x.com/bob/status/1234567890/photo/1"))])
    (Ok [PostFetcher.mk_user_element (Ok (lit " @bob ")) (Ok None)])
    (fun selector =>
       if eqb selector (lit "div[lang] span")
       then PostFetcher.Found (Ok (lit "  I think microservices are overrated  "))
       else PostFetcher.NoSuchElement)
    (Ok []).

(** Only the ASCII digits are decimal digits. *)
Definition ascii_digits (c : codepoint) : bool := false.

(** An article whose second link holds two status ids. *)
Definition quoting_article : PostFetcher.article :=
  PostFetcher.mk_article 8
    (Ok [Ok (Some (lit "https://x.com/bob"));
         Ok (Some (lit "https://x.com/bob/status/111/x/status/222"))])
    (Ok []) (fun selector => PostFetcher.NoSuchElement) (Ok []).

(** A reply text with a lone surrogate, [U+DC00], and the error of a
    database file that another connection has locked. *)
Definition broken_reply : str := lit "Nice " ++ [56320%N].

Definition locked : option exn := Some OperationalError.

(** A page where only the second reply selector finds a button, and the
    button is hidden. *)
Definition hidden_button : ActionPerformer.button :=
  ActionPerformer.mk_button 1 (Ok false) (Ok tt).

Definition find_hidden (selector : str) : ActionPerformer.lookup :=
  if eqb selector (lit "button[aria-label*='Reply']")
  then ActionPerformer.Found hidden_button
  else ActionPerformer.NoSuchElement.

End Samples.

(** * Properties *)

(** ** Facts about strings *)

Module StrFacts.
Import PyStr.

Lemma len_nonneg (s : str) : (0 <= len s)%Z.
Proof. unfold len. lia. Qed.

Lemma len_app (a b : str) : len (a ++ b) = (len a + len b)%Z.
Proof. unfold len. rewrite length_app. lia. Qed.

Lemma slice_prefix (k : Z) (s : str) :
  (0 <= k)%Z -> slice None (Some k) s = firstn (Z.to_nat k) s.
Proof.
  intros Hk. unfold slice, adjust, len.
  destruct (Z.ltb_spec k 0) as [Hneg | _]; [lia |].
  rewrite Z.sub_0_r. simpl skipn.
  destruct (Z.le_gt_cases k (Z.of_nat (length s))) as [Hle | Hgt].
  - rewrite Z.min_l by lia. reflexivity.
  - rewrite Z.min_r by lia. rewrite Nat2Z.id.
    rewrite !firstn_all2 by lia. reflexivity.
Qed.

Lemma len_slice_prefix (k : Z) (s : str) :
  (0 <= k)%Z -> len (slice None (Some k) s) = Z.min k (len s).
Proof.
  intros Hk. rewrite slice_prefix by assumption.
  unfold len. rewrite length_firstn. lia.
Qed.

Lemma startswith_app (p s : str) : startswith p (p ++ s) = true.
Proof.
  induction p as [| c p IH]; simpl; [reflexivity |].
  rewrite N.eqb_refl. exact IH.
Qed.

Lemma contains_here (sub s : str) :
  startswith sub s = true -> contains sub s = true.
Proof. intros H. destruct s; simpl; rewrite H; reflexivity. Qed.

Lemma contains_app (sub a b : str) : contains sub (a ++ sub ++ b) = true.
Proof.
  induction a as [| c a IH].
  - cbn [app]. apply contains_here, startswith_app.
  - cbn [app contains]. rewrite IH. apply orb_true_r.
Qed.

Lemma startswith_char (c : codepoint) (s : str) (k : nat) :
  startswith [c] (skipn k s) = true <-> nth_error s k = Some c.
Proof.
  revert s. induction k as [| k IH]; intros [| d s]; simpl; try (split; discriminate).
  - rewrite andb_true_r, N.eqb_eq. split; intros H; [subst | injection H]; congruence.
  - apply IH.
Qed.

(** [rfind] gives -1 exactly when [sub] does not occur, and otherwise the
    highest index where it occurs. *)
Lemma rfind_from_spec (sub s : str) (i : Z) :
  sub <> [] -> (0 <= i)%Z ->
  (rfind_from i sub s = (-1)%Z /\ contains sub s = false)
  \/ (exists k : nat,
        rfind_from i sub s = (i + Z.of_nat k)%Z /\ (k < length s)%nat
        /\ contains sub s = true
        /\ startswith sub (skipn k s) = true
        /\ forall j : nat, (k < j)%nat -> startswith sub (skipn j s) = false).
Proof.
  intros Hsub. revert i. induction s as [| c s IH]; intros i Hi.
  - left. destruct sub as [| a sub]; [congruence |]. simpl. auto.
  - cbn [rfind_from contains].
    destruct (IH (i + 1)%Z ltac:(lia)) as [[Hr Hc] | (k & Hr & Hk & Hc & Hat & Hlast)].
    + rewrite Hr, Hc. cbn [Z.leb Z.compare]. rewrite orb_false_r.
      destruct (startswith sub (c :: s)) eqn:Hs.
      * right. exists 0%nat. repeat split; simpl; try lia; try assumption.
        intros [| j] Hj; [lia |]. simpl.
        destruct (startswith sub (skipn j s)) eqn:E; [| reflexivity].
        exfalso. clear - E Hc Hsub.
        revert s Hc E. induction j as [| j IHj]; intros s Hc E.
        -- simpl in E. destruct s; simpl in Hc; rewrite E in Hc; discriminate.
        -- destruct s as [| d s].
           ++ simpl in E. destruct sub; [congruence | discriminate].
           ++ simpl in Hc. apply orb_false_iff in Hc. apply (IHj s); tauto.
      * left. auto.
    + rewrite Hr, Hc, orb_true_r.
      destruct (Z.leb_spec 0 (i + 1 + Z.of_nat k)) as [_ | Hbad]; [| lia].
      right. exists (S k). repeat split; simpl; try lia; try assumption.
      intros [| j] Hj; [lia |]. simpl. apply Hlast. lia.
Qed.

(** The lower-case form of a string that holds an ASCII word. *)
Lemma lower_from_ascii_word {U : UnicodeData} (w post before : str) :
  forallb is_ascii w = true ->
  lower_from before (w ++ post)
  = map ascii_tolower w ++ lower_from (before ++ w) post.
Proof.
  revert before. induction w as [| c w IH]; intros before Hw; simpl.
  - rewrite app_nil_r. reflexivity.
  - simpl in Hw. apply andb_true_iff in Hw as [Hc Hw].
    unfold lower_cp. rewrite Hc. simpl.
    rewrite IH by assumption. rewrite <- app_assoc. reflexivity.
Qed.

Lemma lower_from_app {U : UnicodeData} (pre rest before : str) :
  exists out, lower_from before (pre ++ rest)
              = out ++ lower_from (before ++ pre) rest.
Proof.
  revert before. induction pre as [| c pre IH]; intros before; simpl.
  - exists []. rewrite app_nil_r. reflexivity.
  - destruct (IH (before ++ [c])) as [out Hout].
    exists (lower_cp before c (pre ++ rest) ++ out).
    rewrite Hout, <- !app_assoc. reflexivity.
Qed.

(** *** Stripping *)

Lemma lstrip_suffix (s : str) : exists pre, s = pre ++ lstrip s.
Proof.
  induction s as [| c s [pre IH]]; [exists []; reflexivity |].
  cbn [lstrip]. destruct (isspace c).
  - exists (c :: pre). cbn [app]. f_equal. exact IH.
  - exists []. reflexivity.
Qed.

Lemma lstrip_head (s : str) : isspace (hd 0%N (lstrip s)) = false.
Proof.
  induction s as [| c s IH]; [reflexivity |].
  cbn [lstrip]. destruct (isspace c) eqn:E; [exact IH | exact E].
Qed.

Lemma lstrip_fixed (s : str) : isspace (hd 0%N s) = false -> lstrip s = s.
Proof. destruct s as [| c s]; [reflexivity |]. cbn. intros ->. reflexivity. Qed.

Lemma hd_rev (s : str) : hd 0%N (rev s) = last s 0%N.
Proof.
  induction s as [| c s IH] using rev_ind; [reflexivity |].
  rewrite rev_app_distr, last_last. reflexivity.
Qed.

Lemma last_suffix (pre s : str) : s <> [] -> last (pre ++ s) 0%N = last s 0%N.
Proof.
  intros Hs. induction pre as [| c pre IH]; [reflexivity |].
  cbn [app]. destruct (pre ++ s) eqn:E.
  - apply app_eq_nil in E as [_ E]. congruence.
  - exact IH.
Qed.

(** A stripped string neither starts nor ends with white space. *)
Lemma strip_ends (s : str) :
  isspace (hd 0%N (strip s)) = false /\ isspace (last (strip s) 0%N) = false.
Proof.
  unfold strip, rstrip. split.
  - rewrite hd_rev.
    destruct (lstrip_suffix (rev (lstrip s))) as [pre Hpre].
    destruct (lstrip (rev (lstrip s))) as [| c r] eqn:E; [reflexivity |].
    rewrite <- (last_suffix pre (s := c :: r)) by discriminate.
    rewrite <- Hpre, <- hd_rev, rev_involutive. apply lstrip_head.
  - rewrite <- hd_rev, rev_involutive. apply lstrip_head.
Qed.

Lemma strip_clean_ends (s : str) :
  isspace (hd 0%N s) = false -> isspace (last s 0%N) = false -> strip s = s.
Proof.
  intros Hh Hl. unfold strip, rstrip.
  rewrite (lstrip_fixed _ Hh), lstrip_fixed, rev_involutive; [reflexivity |].
  rewrite hd_rev. exact Hl.
Qed.

Lemma Forall_lstrip (P : codepoint -> Prop) (s : str) :
  Forall P s -> Forall P (lstrip s).
Proof.
  intros H. destruct (lstrip_suffix s) as [pre Hpre].
  rewrite Hpre in H. apply Forall_app in H. tauto.
Qed.

Lemma Forall_strip (P : codepoint -> Prop) (s : str) :
  Forall P s -> Forall P (strip s).
Proof.
  intros H. unfold strip, rstrip.
  apply Forall_rev, Forall_lstrip, Forall_rev, Forall_lstrip, H.
Qed.

Lemma Forall_firstn_str (P : codepoint -> Prop) (n : nat) (s : str) :
  Forall P s -> Forall P (firstn n s).
Proof.
  intros H. rewrite <- (firstn_skipn n s) in H. apply Forall_app in H. tauto.
Qed.

Lemma hd_firstn (n : nat) (s : str) : hd 0%N (firstn (S n) s) = hd 0%N s.
Proof. destruct s; reflexivity. Qed.

Lemma last_firstn (s : str) (p : nat) (c : codepoint) :
  nth_error s p = Some c -> last (firstn (S p) s) 0%N = c.
Proof.
  revert s. induction p as [| p IH]; intros [| d s]; cbn [nth_error]; try discriminate.
  - intros [= ->]. destruct s; reflexivity.
  - intros H. specialize (IH s H). destruct s as [| e s].
    + destruct p; discriminate H.
    + exact IH.
Qed.

End StrFacts.

(** ** The reply engine *)

Module EngineFacts.
Import PyStr ReplyEngine StrFacts.

Lemma fallbacks_within_bounds : Forall within_bounds fallbacks.
Proof. repeat constructor; vm_compute; discriminate. Qed.

Lemma fallbacks_nonempty : Forall (fun phrase => phrase <> []) fallbacks.
Proof. repeat constructor; discriminate. Qed.

Lemma fallbacks_NoDup : NoDup fallbacks.
Proof.
  repeat (constructor;
          [ intros H; cbn [In fallbacks] in H;
            repeat (destruct H as [H | H]; [discriminate H |]); exact H | ]).
  constructor.
Qed.

Lemma fallback_reply_ok (tweet_text : str) (draw : nat) :
  exists phrase,
    _fallback_reply tweet_text draw = Ok phrase
    /\ nth_error fallbacks (draw mod length fallbacks) = Some phrase
    /\ In phrase fallbacks.
Proof.
  unfold _fallback_reply, random_choice.
  destruct (nth_error fallbacks (draw mod length fallbacks)) as [phrase |] eqn:E.
  - exists phrase. repeat split. eapply nth_error_In, E.
  - apply nth_error_None in E.
    pose proof (Nat.mod_upper_bound draw (length fallbacks)) as Hlt.
    cbn [length fallbacks] in *. lia.
Qed.

Section WithUnicode.
Context {U : UnicodeData}.

(** The index of the last period that [limit_length] cuts at. *)
Lemma last_period (reply : str) :
  contains (lit ".") (slice None (Some 197%Z) reply) = true ->
  exists p : nat,
    rfind (lit ".") (slice None (Some 197%Z) reply) = Z.of_nat p
    /\ (p < 197)%nat /\ (p < length reply)%nat
    /\ nth_error reply p = Some 46%N
    /\ forall j : nat, (p < j < 197)%nat -> nth_error reply j <> Some 46%N.
Proof.
  intros Hc. rewrite slice_prefix in * by lia.
  destruct (rfind_from_spec (sub := lit ".") (firstn (Z.to_nat 197) reply) (i := 0))
    as [[_ Hno] | (p & Hr & Hp & _ & Hat & Hlast)]; try discriminate; try lia.
  - rewrite Hno in Hc. discriminate.
  - exists p. rewrite length_firstn in Hp.
    change (Z.to_nat 197) with 197%nat in *.
    repeat split; try lia.
    + exact Hr.
    + apply (startswith_char 46%N) in Hat.
      rewrite nth_error_firstn in Hat.
      destruct (Nat.ltb_spec p 197); [exact Hat | discriminate].
    + intros j Hj Hdot.
      assert (Hs : startswith (lit ".") (skipn j (firstn 197 reply)) = true).
      { apply (startswith_char 46%N). rewrite nth_error_firstn.
        destruct (Nat.ltb_spec j 197); [exact Hdot | lia]. }
      rewrite (Hlast j) in Hs by lia. discriminate.
Qed.

Lemma limit_length_long_no_period (reply : str) :
  (200 < len reply)%Z ->
  contains (lit ".") (slice None (Some 197%Z) reply) = false ->
  limit_length reply = slice None (Some 197%Z) reply ++ lit "..."
  /\ len (limit_length reply) = 200%Z.
Proof.
  intros Hlen Hno. unfold limit_length.
  destruct (Z.ltb_spec 200 (len reply)); [| lia].
  rewrite Hno. split; [reflexivity |].
  rewrite len_app, len_slice_prefix by lia.
  change (len (lit "...")) with 3%Z. lia.
Qed.

Lemma limit_length_long_period (reply : str) :
  (200 < len reply)%Z ->
  contains (lit ".") (slice None (Some 197%Z) reply) = true ->
  exists p : nat,
    (p < 197)%nat
    /\ nth_error reply p = Some 46%N
    /\ (forall j : nat, (p < j < 197)%nat -> nth_error reply j <> Some 46%N)
    /\ limit_length reply = slice None (Some (Z.of_nat p + 1)%Z) reply
    /\ len (limit_length reply) = (Z.of_nat p + 1)%Z.
Proof.
  intros Hlen Hyes. unfold limit_length.
  destruct (Z.ltb_spec 200 (len reply)); [| lia].
  rewrite Hyes.
  destruct (last_period reply Hyes) as (p & Hr & Hp & Hpl & Hat & Hlast).
  exists p. rewrite Hr. repeat split; try assumption.
  rewrite len_slice_prefix by lia. lia.
Qed.

Lemma limit_length_bound (reply : str) : (len (limit_length reply) <= 200)%Z.
Proof.
  destruct (Z.ltb_spec 200 (len reply)) as [Hlong | Hshort].
  - destruct (contains (lit ".") (slice None (Some 197%Z) reply)) eqn:Hc.
    + destruct (limit_length_long_period reply Hlong Hc) as (p & Hp & _ & _ & _ & Hl).
      lia.
    + destruct (limit_length_long_no_period reply Hlong Hc) as [_ Hl]. lia.
  - unfold limit_length.
    destruct (Z.ltb_spec 200 (len reply)); [lia | assumption].
Qed.

Lemma attempt_body_ok (o : backend_outcome) (raw : str) :
  _query_ollama o = Some raw -> raw <> [] ->
  attempt_body o
  = if (len (limit_length (clean raw)) <? 5)%Z
    then Raise (ValueError "Reply too short")
    else Ok (limit_length (clean raw)).
Proof.
  intros Hq Hraw. unfold attempt_body. rewrite Hq.
  destruct raw; [congruence | reflexivity].
Qed.

Lemma attempt_body_bound (o : backend_outcome) (reply : str) :
  attempt_body o = Ok reply -> within_bounds reply.
Proof.
  unfold attempt_body.
  destruct (_query_ollama o) as [[| c raw] |]; try discriminate.
  destruct (Z.ltb_spec (len (limit_length (clean (c :: raw)))) 5); [discriminate |].
  intros [= <-]. split; [assumption | apply limit_length_bound].
Qed.

Lemma retry_loop_bound backend prompt tweet_text draw todo attempt reply :
  retry_loop backend prompt tweet_text draw todo attempt = Ok reply ->
  within_bounds reply.
Proof.
  revert attempt. induction todo as [| todo IH]; intros attempt; cbn [retry_loop].
  - intros H. destruct (fallback_reply_ok tweet_text draw) as (p & Hp & _ & Hin).
    rewrite Hp in H. injection H as <-.
    exact (proj1 (Forall_forall _ _) fallbacks_within_bounds _ Hin).
  - destruct (attempt_body (backend prompt attempt)) as [r | e] eqn:Ha; cbn [try_except].
    + intros [= <-]. eapply attempt_body_bound, Ha.
    + destruct (attempt <? max_retries - 1)%Z; [apply IH | discriminate].
Qed.

(** When the first attempt succeeds, its reply is what is returned. *)
Lemma generate_reply_first self backend draw tweet_text username reply :
  attempt_body
    (backend (_format_prompt_for_gemma (system_instruction self) tweet_text) 0%Z)
  = Ok reply ->
  generate_reply self backend draw tweet_text username = Ok reply.
Proof.
  intros H. unfold generate_reply.
  change (Z.to_nat max_retries) with 3%nat. cbn [retry_loop].
  rewrite H. reflexivity.
Qed.

(** When every attempt fails, the loop re-raises on the last one. *)
Lemma retry_loop_all_fail backend prompt tweet_text draw :
  (forall attempt, (0 <= attempt < max_retries)%Z ->
     is_raise (attempt_body (backend prompt attempt)) = true) ->
  is_raise (retry_loop backend prompt tweet_text draw (Z.to_nat max_retries) 0%Z)
  = true.
Proof.
  intros Hfail. change (Z.to_nat max_retries) with 3%nat.
  pose proof (Hfail 0%Z ltac:(unfold max_retries; lia)) as H0.
  pose proof (Hfail 1%Z ltac:(unfold max_retries; lia)) as H1.
  pose proof (Hfail 2%Z ltac:(unfold max_retries; lia)) as H2.
  cbn [retry_loop Z.add Z.ltb Z.sub Z.compare Pos.compare max_retries].
  destruct (attempt_body (backend prompt 0%Z)); [discriminate |].
  cbn. destruct (attempt_body (backend prompt 1%Z)); [discriminate |].
  cbn. destruct (attempt_body (backend prompt 2%Z)); [discriminate |].
  reflexivity.
Qed.

Lemma generate_reply_total self backend draw tweet_text username :
  exists reply,
    generate_reply self backend draw tweet_text username = Ok reply
    /\ within_bounds reply.
Proof.
  unfold generate_reply.
  destruct (retry_loop backend _ tweet_text draw (Z.to_nat max_retries) 0%Z)
    as [reply | e] eqn:E; cbn [try_except].
  - exists reply. split; [reflexivity |]. eapply retry_loop_bound, E.
  - destruct (fallback_reply_ok tweet_text draw) as (p & Hp & _ & Hin).
    exists p. split; [exact Hp |].
    exact (proj1 (Forall_forall _ _) fallbacks_within_bounds _ Hin).
Qed.

(** C2. For every backend response, [generate_reply] returns a string of
    5 to 200 characters.  When the first response, once cleaned, is longer
    than 200 characters and has no period among its first 197, the reply
    is these 197 characters followed by an ellipsis; when it has one, the
    reply is cut just after the last period among them (and, when that
    leaves at least 5 characters, returned). *)
Theorem generate_reply_length_bound :
  (forall self backend draw tweet_text username,
     exists reply,
       generate_reply self backend draw tweet_text username = Ok reply
       /\ (5 <= len reply <= 200)%Z)
  /\ (forall self backend draw tweet_text username raw,
        _query_ollama
          (backend (_format_prompt_for_gemma (system_instruction self) tweet_text) 0%Z)
        = Some raw ->
        raw <> [] ->
        (200 < len (clean raw))%Z ->
        contains (lit ".") (slice None (Some 197%Z) (clean raw)) = false ->
        generate_reply self backend draw tweet_text username
        = Ok (slice None (Some 197%Z) (clean raw) ++ lit "...")
        /\ len (slice None (Some 197%Z) (clean raw)) = 197%Z)
  /\ (forall self backend draw tweet_text username raw,
        _query_ollama
          (backend (_format_prompt_for_gemma (system_instruction self) tweet_text) 0%Z)
        = Some raw ->
        raw <> [] ->
        (200 < len (clean raw))%Z ->
        contains (lit ".") (slice None (Some 197%Z) (clean raw)) = true ->
        exists p : nat,
          (p < 197)%nat
          /\ nth_error (clean raw) p = Some 46%N
          /\ (forall j : nat, (p < j < 197)%nat -> nth_error (clean raw) j <> Some 46%N)
          /\ limit_length (clean raw) = slice None (Some (Z.of_nat p + 1)%Z) (clean raw)
          /\ ((5 <= Z.of_nat p + 1)%Z ->
              generate_reply self backend draw tweet_text username
              = Ok (slice None (Some (Z.of_nat p + 1)%Z) (clean raw)))).
Proof.
  split; [| split].
  - intros. apply generate_reply_total.
  - intros self backend draw tweet_text username raw Hq Hraw Hlong Hno.
    destruct (limit_length_long_no_period _ Hlong Hno) as [Heq Hlen].
    split.
    + apply generate_reply_first. rewrite (attempt_body_ok _ Hq Hraw), Hlen, <- Heq.
      reflexivity.
    + rewrite len_slice_prefix by lia. lia.
  - intros self backend draw tweet_text username raw Hq Hraw Hlong Hyes.
    destruct (limit_length_long_period _ Hlong Hyes) as (p & Hp & Hat & Hlast & Heq & Hlen).
    exists p. repeat split; try assumption.
    intros Hfive. apply generate_reply_first.
    rewrite (attempt_body_ok _ Hq Hraw), Hlen, <- Heq.
    destruct (Z.ltb_spec (Z.of_nat p + 1) 5); [lia | reflexivity].
Qed.

(** C5. When all three attempts fail (the backend cannot be reached, the
    response is empty, or the cleaned reply has fewer than 5 characters),
    [generate_reply] returns the phrase of the fallback list at the index
    the random source draws; the list has 20 distinct non-empty phrases,
    so a uniform draw selects uniformly.  No call of [generate_reply]
    raises. *)
Theorem fallback_guarantee :
  (15 <= length fallbacks)%nat
  /\ NoDup fallbacks
  /\ (forall o,
        o = RequestFailed \/ o = OtherFailure \/ _query_ollama o = Some []
        \/ (exists raw, _query_ollama o = Some raw /\ (len (clean raw) < 5)%Z) ->
        is_raise (attempt_body o) = true)
  /\ (forall self backend draw tweet_text username,
        (forall attempt, (0 <= attempt < max_retries)%Z ->
           is_raise
             (attempt_body
                (backend (_format_prompt_for_gemma (system_instruction self) tweet_text)
                         attempt)) = true) ->
        exists phrase,
          generate_reply self backend draw tweet_text username = Ok phrase
          /\ nth_error fallbacks (draw mod length fallbacks) = Some phrase
          /\ In phrase fallbacks
          /\ phrase <> [])
  /\ (forall self backend draw tweet_text username,
        exists reply, generate_reply self backend draw tweet_text username = Ok reply).
Proof.
  split; [cbn; lia |]. split; [exact fallbacks_NoDup |]. split; [| split].
  - intros o [-> | [-> | [Hq | (raw & Hq & Hshort)]]]; try reflexivity.
    + unfold attempt_body. rewrite Hq. reflexivity.
    + unfold attempt_body. rewrite Hq. destruct raw as [| c raw]; [reflexivity |].
      unfold limit_length.
      destruct (Z.ltb_spec 200 (len (clean (c :: raw)))); [lia |].
      destruct (Z.ltb_spec (len (clean (c :: raw))) 5); [reflexivity | lia].
  - intros self backend draw tweet_text username Hfail.
    destruct (fallback_reply_ok tweet_text draw) as (phrase & Hp & Hnth & Hin).
    exists phrase. repeat split; try assumption.
    + unfold generate_reply.
      pose proof (retry_loop_all_fail backend _ tweet_text draw Hfail) as Hr.
      destruct (retry_loop backend _ tweet_text draw (Z.to_nat max_retries) 0%Z);
        [discriminate | exact Hp].
    + exact (proj1 (Forall_forall _ _) fallbacks_nonempty _ Hin).
  - intros self backend draw tweet_text username.
    destruct (generate_reply_total self backend draw tweet_text username) as (r & Hr & _).
    exists r. exact Hr.
Qed.

(** *** The suitability filter *)

Lemma blocked_word (word tweet_text : str) :
  In word blocklist ->
  contains word (lower tweet_text) = true ->
  is_appropriate_tweet tweet_text = false.
Proof.
  intros Hin Hc. unfold is_appropriate_tweet.
  destruct tweet_text as [| c r]; [reflexivity |].
  replace (existsb (fun w => contains w (lower (c :: r))) blocklist) with true;
    [reflexivity |].
  symmetry. apply existsb_exists. exists word. split; assumption.
Qed.

Lemma tolower_ascii (c : codepoint) :
  (ascii_tolower c < 128)%N -> is_ascii c = true.
Proof.
  unfold ascii_tolower, ascii_upper, is_ascii. intros H.
  apply N.ltb_lt.
  destruct (N.leb_spec 65 c), (N.leb_spec c 90); cbn [andb] in H; lia.
Qed.

Lemma tolower_word_ascii (w word : str) :
  map ascii_tolower w = word ->
  Forall (fun c => (c < 128)%N) word ->
  forallb is_ascii w = true.
Proof.
  intros <- H. induction w as [| c w IH]; [reflexivity |].
  cbn [map] in H. inversion H as [| ? ? Hc Hw]; subst.
  cbn [forallb]. rewrite (tolower_ascii _ Hc), IH by assumption. reflexivity.
Qed.

Lemma lower_holds (word s : str) :
  Forall (fun c => (c < 128)%N) word ->
  holds_ignoring_case word s ->
  contains word (lower s) = true.
Proof.
  intros Hascii (before & w & after & -> & Hw).
  unfold lower.
  destruct (lower_from_app before (w ++ after) []) as [out ->].
  rewrite lower_from_ascii_word by (eapply tolower_word_ascii; eassumption).
  rewrite Hw. apply contains_app.
Qed.

Lemma find_first {A} (f : A -> bool) (l : list A) (x : A) :
  find f l = Some x ->
  exists before after,
    l = before ++ x :: after /\ f x = true /\ forall y, In y before -> f y = false.
Proof.
  induction l as [| a l IH]; cbn [find]; [discriminate |].
  destruct (f a) eqn:E.
  - intros [= ->]. exists [], l. repeat split; [exact E | intros y []].
  - intros H. destruct (IH H) as (before & after & -> & Hx & Hbefore).
    exists (a :: before), after. repeat split; [exact Hx |].
    intros y [<- | Hy]; auto.
Qed.

Lemma find_existsb {A} (f : A -> bool) (l : list A) :
  existsb f l = match find f l with Some _ => true | None => false end.
Proof.
  induction l as [| a l IH]; [reflexivity |]. cbn [existsb find].
  destruct (f a); [reflexivity | exact IH].
Qed.

(** The answer of the filter with its log line is the answer of the
    filter. *)
Lemma logged_answer (s : str) :
  snd (is_appropriate_tweet_logged s) = is_appropriate_tweet s.
Proof.
  unfold is_appropriate_tweet_logged, is_appropriate_tweet.
  destruct s as [| c r]; [reflexivity |]. cbv zeta. rewrite find_existsb.
  destruct (find _ blocklist); [reflexivity |].
  destruct (len (strip (c :: r)) <? 10)%Z; [reflexivity |].
  destruct (isupper (c :: r) && (20 <? len (c :: r))%Z); reflexivity.
Qed.

Lemma logged_silent (s : str) :
  s = [] \/ (forall word, In word blocklist -> contains word (lower s) = false) ->
  fst (is_appropriate_tweet_logged s) = [].
Proof.
  unfold is_appropriate_tweet_logged. destruct s as [| c r]; [reflexivity |].
  intros [H | H]; [discriminate |]. cbv zeta.
  destruct (find _ blocklist) as [word |] eqn:E.
  - apply find_some in E as [Hin Hc]. rewrite (H _ Hin) in Hc. discriminate.
  - destruct (len (strip (c :: r)) <? 10)%Z; [reflexivity |].
    destruct (isupper (c :: r) && (20 <? len (c :: r))%Z); reflexivity.
Qed.

Lemma logged_blocked (s word : str) :
  s <> [] -> In word blocklist -> contains word (lower s) = true ->
  exists before first after,
    blocklist = before ++ first :: after
    /\ contains first (lower s) = true
    /\ (forall w, In w before -> contains w (lower s) = false)
    /\ is_appropriate_tweet_logged s = ([skipping_line first], false).
Proof.
  intros Hs Hin Hc. unfold is_appropriate_tweet_logged.
  destruct s as [| c r]; [congruence |]. cbv zeta.
  destruct (find (fun w => contains w (lower (c :: r))) blocklist) as [first |] eqn:E.
  - destruct (find_first _ _ E) as (before & after & Hl & Hfirst & Hbefore).
    exists before, first, after. auto.
  - apply (find_none _ _ E) in Hin. cbv beta in Hin. congruence.
Qed.

(** C8, as amended.  The filter rejects the empty string and "ok",
    accepts "I love debugging at 2am", rejects every string that holds
    "bomb" in any mix of cases and every upper-case string of more than
    20 characters.  Its answer is a function of the text alone, but it is
    not free of side effects: on a non-empty text whose lowered form
    holds a word of the blocklist it writes one line to the logger, which
    names the first such word of the blocklist; on every other text, so
    on every text it accepts, it writes nothing. *)
Theorem is_appropriate_tweet_vignettes :
  is_appropriate_tweet (lit "") = false
  /\ is_appropriate_tweet (lit "ok") = false
  /\ (len (strip (lit "ok")) < 10)%Z
  /\ is_appropriate_tweet (lit "I love debugging at 2am") = true
  /\ (forall s, holds_ignoring_case (lit "bomb") s -> is_appropriate_tweet s = false)
  /\ (forall s, isupper s = true -> (20 < len s)%Z -> is_appropriate_tweet s = false)
  /\ (forall s, snd (is_appropriate_tweet_logged s) = is_appropriate_tweet s)
  /\ (forall s,
        s = [] \/ (forall word, In word blocklist -> contains word (lower s) = false) ->
        fst (is_appropriate_tweet_logged s) = [])
  /\ (forall s word,
        s <> [] -> In word blocklist -> contains word (lower s) = true ->
        exists before first after,
          blocklist = before ++ first :: after
          /\ contains first (lower s) = true
          /\ (forall w, In w before -> contains w (lower s) = false)
          /\ is_appropriate_tweet_logged s = ([skipping_line first], false))
  /\ (forall s, is_appropriate_tweet s = true -> fst (is_appropriate_tweet_logged s) = [])
  /\ (forall s, holds_ignoring_case (lit "bomb") s ->
        exists word,
          In word blocklist
          /\ is_appropriate_tweet_logged s = ([skipping_line word], false)).
Proof.
  assert (Hbomb : forall s, holds_ignoring_case (lit "bomb") s ->
            s <> [] /\ In (lit "bomb") blocklist /\ contains (lit "bomb") (lower s) = true).
  { intros s Hs. split; [| split].
    - destruct Hs as (before & w & after & -> & Hw).
      destruct w as [| c w]; [discriminate |]. destruct before; discriminate.
    - cbn. tauto.
    - apply lower_holds; [| exact Hs]. repeat constructor. }
  split; [reflexivity |]. split; [reflexivity |]. split; [reflexivity |].
  split; [reflexivity |]. split; [| split; [| split; [| split; [| split; [| split]]]]].
  - intros s Hs. destruct (Hbomb s Hs) as (_ & Hin & Hc).
    exact (@blocked_word _ _ Hin Hc).
  - intros s Hup Hlong. unfold is_appropriate_tweet.
    destruct s as [| c r]; [reflexivity |].
    rewrite Hup. destruct (Z.ltb_spec 20 (len (c :: r))); [| lia].
    destruct (existsb _ blocklist); [reflexivity |].
    destruct (len (strip (c :: r)) <? 10)%Z; reflexivity.
  - exact logged_answer.
  - exact logged_silent.
  - exact logged_blocked.
  - intros s Hok.
    destruct (is_appropriate_tweet_logged s) as [lines answer] eqn:E.
    pose proof (logged_answer s) as Ha. rewrite E in Ha. cbn [snd fst] in *.
    unfold is_appropriate_tweet_logged in E. destruct s as [| c r]; [congruence |].
    cbv zeta in E. destruct (find _ blocklist).
    + injection E as <- <-. congruence.
    + destruct (len (strip (c :: r)) <? 10)%Z; [congruence |].
      destruct (isupper (c :: r) && (20 <? len (c :: r))%Z); congruence.
  - intros s Hs. destruct (Hbomb s Hs) as (Hne & Hin & Hc).
    destruct (logged_blocked Hne Hin Hc) as (before & first & after & Hl & _ & _ & Hlog).
    exists first. split; [| exact Hlog].
    rewrite Hl. apply in_elt.
Qed.

(** *** What every reply has *)

Lemma retry_loop_invariant (P : str -> Prop) backend prompt tweet_text draw todo attempt reply :
  (forall o r, attempt_body o = Ok r -> P r) ->
  Forall P fallbacks ->
  retry_loop backend prompt tweet_text draw todo attempt = Ok reply -> P reply.
Proof.
  intros Hattempt Hfall. revert attempt.
  induction todo as [| todo IH]; intros attempt; cbn [retry_loop].
  - intros H. destruct (fallback_reply_ok tweet_text draw) as (p & Hp & _ & Hin).
    rewrite Hp in H. injection H as <-.
    exact (proj1 (Forall_forall _ _) Hfall _ Hin).
  - destruct (attempt_body (backend prompt attempt)) as [r | e] eqn:Ha; cbn [try_except].
    + intros [= <-]. eapply Hattempt, Ha.
    + destruct (attempt <? max_retries - 1)%Z; [apply IH | discriminate].
Qed.

Lemma generate_reply_invariant (P : str -> Prop) :
  (forall o r, attempt_body o = Ok r -> P r) ->
  Forall P fallbacks ->
  forall self backend draw tweet_text username,
  exists reply, generate_reply self backend draw tweet_text username = Ok reply /\ P reply.
Proof.
  intros Hattempt Hfall self backend draw tweet_text username.
  unfold generate_reply.
  destruct (retry_loop backend _ tweet_text draw (Z.to_nat max_retries) 0%Z)
    as [reply | e] eqn:E; cbn [try_except].
  - exists reply. split; [reflexivity |]. eapply retry_loop_invariant; eassumption.
  - destruct (fallback_reply_ok tweet_text draw) as (p & Hp & _ & Hin).
    exists p. split; [exact Hp |]. exact (proj1 (Forall_forall _ _) Hfall _ Hin).
Qed.

Lemma attempt_body_inversion (o : backend_outcome) (reply : str) :
  attempt_body o = Ok reply ->
  exists raw, reply = limit_length (clean raw) /\ (5 <= len reply)%Z.
Proof.
  unfold attempt_body.
  destruct (_query_ollama o) as [[| c raw] |]; try discriminate.
  destruct (Z.ltb_spec (len (limit_length (clean (c :: raw)))) 5); [discriminate |].
  intros [= <-]. eauto.
Qed.

Lemma remove_emojis_none (text : str) :
  Forall (fun c => is_emoji c = false) (_remove_emojis text).
Proof.
  unfold _remove_emojis. apply Forall_strip, Forall_forall.
  intros c Hc. apply filter_In in Hc as [_ Hc]. apply negb_true_iff, Hc.
Qed.

Lemma limit_length_forall (P : codepoint -> Prop) (reply : str) :
  P 46%N -> Forall P reply -> Forall P (limit_length reply).
Proof.
  intros Hdot H. unfold limit_length.
  destruct (200 <? len reply)%Z; [| exact H].
  destruct (contains (lit ".") (slice None (Some 197%Z) reply)) eqn:Hc.
  - destruct (last_period reply Hc) as (p & -> & _).
    rewrite slice_prefix by lia. apply Forall_firstn_str, H.
  - rewrite slice_prefix by lia. apply Forall_app. split.
    + apply Forall_firstn_str, H.
    + repeat constructor; exact Hdot.
Qed.

(** X6. No reply of [generate_reply] has a code point of the emoji ranges
    of [_remove_emojis], whatever the backend answers. *)
Theorem reply_has_no_emoji self backend draw tweet_text username :
  exists reply,
    generate_reply self backend draw tweet_text username = Ok reply
    /\ Forall (fun c => is_emoji c = false) reply.
Proof.
  apply (generate_reply_invariant (P := Forall (fun c => is_emoji c = false))).
  - intros o r Hr. destruct (attempt_body_inversion _ Hr) as (raw & -> & _).
    apply limit_length_forall; [reflexivity |]. apply remove_emojis_none.
  - repeat constructor.
Qed.

Lemma limit_length_ends (reply : str) :
  isspace (hd 0%N reply) = false -> isspace (last reply 0%N) = false ->
  isspace (hd 0%N (limit_length reply)) = false
  /\ isspace (last (limit_length reply) 0%N) = false.
Proof.
  intros Hh Hl.
  destruct (Z.ltb_spec 200 (len reply)) as [Hlong | Hshort].
  - destruct (contains (lit ".") (slice None (Some 197%Z) reply)) eqn:Hc.
    + destruct (limit_length_long_period reply Hlong Hc) as (p & _ & Hat & _ & -> & _).
      rewrite slice_prefix by lia.
      replace (Z.to_nat (Z.of_nat p + 1)) with (S p) by lia.
      rewrite hd_firstn, (last_firstn _ _ Hat). auto.
    + destruct (limit_length_long_no_period reply Hlong Hc) as [-> _].
      rewrite slice_prefix by lia. split.
      * destruct reply as [| c r]; [cbn in Hlong; lia | exact Hh].
      * rewrite last_suffix by discriminate. reflexivity.
  - unfold limit_length. destruct (Z.ltb_spec 200 (len reply)); [lia | auto].
Qed.

Lemma clean_ends (raw : str) :
  isspace (hd 0%N (clean raw)) = false /\ isspace (last (clean raw) 0%N) = false.
Proof. unfold clean, _remove_emojis. apply strip_ends. Qed.

(** X7. Every reply of [generate_reply] is stripped: it neither starts
    nor ends with white space, so [reply.strip()] is the reply itself. *)
Theorem reply_is_stripped self backend draw tweet_text username :
  exists reply,
    generate_reply self backend draw tweet_text username = Ok reply
    /\ strip reply = reply.
Proof.
  apply (generate_reply_invariant (P := fun reply => strip reply = reply)).
  - intros o r Hr. destruct (attempt_body_inversion _ Hr) as (raw & -> & _).
    destruct (clean_ends raw) as [Hh Hl].
    destruct (limit_length_ends (clean raw) Hh Hl) as [Hh' Hl'].
    apply strip_clean_ends; assumption.
  - repeat constructor.
Qed.

(** *** The blocklist and the attempts *)

Lemma blocklist_ascii (word : str) :
  In word blocklist -> Forall (fun c => (c < 128)%N) word.
Proof.
  cbn [In blocklist]. intros H.
  repeat (destruct H as [<- | H]; [repeat constructor |]). destruct H.
Qed.

(** X8. A text that holds any word of the blocklist, in any mix of upper
    and lower case and also inside a longer word, is rejected by
    [is_appropriate_tweet]. *)
Theorem blocklist_rejects (word s : str) :
  In word blocklist -> holds_ignoring_case word s -> is_appropriate_tweet s = false.
Proof.
  intros Hin Hs. apply (blocked_word (word := word)); [exact Hin |].
  apply lower_holds; [apply blocklist_ascii, Hin | exact Hs].
Qed.

(** X9. [generate_reply] asks the backend at most three times, always
    with the prompt it formatted: two backends that answer attempts 0, 1
    and 2 on that prompt alike give the same reply.  The reply is that of
    the first attempt that succeeds; later attempts are not made. *)
Theorem three_attempts self draw tweet_text username :
  let prompt := _format_prompt_for_gemma (system_instruction self) tweet_text in
  (forall b1 b2,
     (forall attempt, (0 <= attempt < 3)%Z -> b1 prompt attempt = b2 prompt attempt) ->
     generate_reply self b1 draw tweet_text username
     = generate_reply self b2 draw tweet_text username)
  /\ (forall backend k reply,
        (0 <= k < 3)%Z ->
        (forall attempt, (0 <= attempt < k)%Z ->
           is_raise (attempt_body (backend prompt attempt)) = true) ->
        attempt_body (backend prompt k) = Ok reply ->
        generate_reply self backend draw tweet_text username = Ok reply).
Proof.
  intros prompt. split.
  - intros b1 b2 Hsame. unfold generate_reply. fold prompt.
    change (Z.to_nat max_retries) with 3%nat.
    cbn [retry_loop Z.add Pos.add Pos.succ].
    rewrite (Hsame 0%Z), (Hsame 1%Z), (Hsame 2%Z) by lia. reflexivity.
  - intros backend k reply Hk Hfail Hok. unfold generate_reply. fold prompt.
    change (Z.to_nat max_retries) with 3%nat.
    cbn [retry_loop Z.add Pos.add Pos.succ].
    assert (Hcases : k = 0%Z \/ k = 1%Z \/ k = 2%Z) by lia.
    destruct Hcases as [-> | [-> | ->]].
    + rewrite Hok. reflexivity.
    + pose proof (Hfail 0%Z ltac:(lia)) as H0.
      destruct (attempt_body (backend prompt 0%Z)); [discriminate |].
      cbn [try_except]. change (0 <? max_retries - 1)%Z with true. cbv iota.
      rewrite Hok. reflexivity.
    + pose proof (Hfail 0%Z ltac:(lia)) as H0.
      pose proof (Hfail 1%Z ltac:(lia)) as H1.
      destruct (attempt_body (backend prompt 0%Z)); [discriminate |].
      cbn [try_except]. change (0 <? max_retries - 1)%Z with true. cbv iota.
      destruct (attempt_body (backend prompt 1%Z)); [discriminate |].
      cbn [try_except]. change (1 <? max_retries - 1)%Z with true. cbv iota.
      rewrite Hok. reflexivity.
Qed.

End WithUnicode.
End EngineFacts.

(** ** The history store *)

Module StoreFacts.
Import PyStr Database.

Lemma eqb_refl (a : str) : eqb a a = true.
Proof. unfold eqb. destruct (list_eq_dec N.eq_dec a a); congruence. Qed.

Lemma eqb_eq (a b : str) : eqb a b = true <-> a = b.
Proof.
  unfold eqb. destruct (list_eq_dec N.eq_dec a b); split; congruence.
Qed.

Lemma select_deleted (id : str) (rows : list row) :
  select_by_id id (filter (fun r => negb (eqb (tweet_id r) id)) rows) = [].
Proof.
  unfold select_by_id. induction rows as [| r rows IH]; [reflexivity |].
  cbn [filter]. destruct (eqb (tweet_id r) id) eqn:E; cbn [negb]; [exact IH |].
  cbn [filter]. rewrite E. exact IH.
Qed.

Lemma select_other (id other : str) (rows : list row) :
  other <> id ->
  select_by_id other (filter (fun r => negb (eqb (tweet_id r) id)) rows)
  = select_by_id other rows.
Proof.
  intros Hne. unfold select_by_id. induction rows as [| r rows IH]; [reflexivity |].
  cbn [filter]. destruct (eqb (tweet_id r) id) eqn:E; cbn [negb].
  - apply eqb_eq in E. destruct (eqb (tweet_id r) other) eqn:E'.
    + apply eqb_eq in E'. congruence.
    + exact IH.
  - cbn [filter]. destruct (eqb (tweet_id r) other); [f_equal |]; exact IH.
Qed.

(** After an upsert the key has exactly the new row. *)
Lemma select_inserted (new : row) (rows : list row) :
  select_by_id (tweet_id new) (insert_or_replace new rows) = [new].
Proof.
  unfold insert_or_replace, select_by_id. rewrite filter_app.
  fold (select_by_id (tweet_id new)
          (filter (fun r => negb (eqb (tweet_id r) (tweet_id new))) rows)).
  rewrite select_deleted. cbn [filter app]. rewrite eqb_refl. reflexivity.
Qed.

Lemma select_inserted_other (new : row) (other : str) (rows : list row) :
  other <> tweet_id new ->
  select_by_id other (insert_or_replace new rows) = select_by_id other rows.
Proof.
  intros Hne. unfold insert_or_replace.
  unfold select_by_id at 1. rewrite filter_app.
  fold (select_by_id other
          (filter (fun r => negb (eqb (tweet_id r) (tweet_id new))) rows)).
  rewrite select_other by assumption. cbn [filter].
  destruct (eqb (tweet_id new) other) eqn:E.
  - apply eqb_eq in E. congruence.
  - apply app_nil_r.
Qed.

Lemma mark_replied_readable (d : t) id user text reply now :
  readable d ->
  exists rows,
    replied_tweets d = Some rows
    /\ mark_replied d id user text reply now
       = mk Open (Some (insert_or_replace (mk_row id user text reply now) rows)).
Proof.
  intros [Hc Ht]. destruct d as [c [rows |]]; cbn in *; [| congruence].
  subst c. exists rows. split; reflexivity.
Qed.

Lemma mark_replied_keeps_readable (d : t) id user text reply now :
  readable d -> readable (mark_replied d id user text reply now).
Proof.
  intros H. destruct (mark_replied_readable id user text reply now H) as (rows & _ & ->).
  split; cbn; congruence.
Qed.

(** A readable store answers truthfully. *)
Lemma has_replied_truthful (d : t) (id : str) :
  readable d -> (has_replied d id = false <-> rows_for d id = []).
Proof.
  intros [Hc Ht]. destruct d as [c [rows |]]; cbn in *; [| congruence].
  subst c. unfold has_replied, has_replied_query, execute, rows_for, fetchone. cbn.
  destruct (select_by_id id rows); cbn; split; congruence.
Qed.

Lemma has_replied_fails_open (d : t) (id : str) (e : exn) :
  has_replied_query d id = Raise e -> has_replied d id = false.
Proof. unfold has_replied. intros ->. reflexivity. Qed.

Lemma unreadable_raises (d : t) (id : str) :
  conn d <> Open \/ replied_tweets d = None ->
  exists e, has_replied_query d id = Raise e.
Proof.
  unfold has_replied_query, execute.
  destruct d as [[| |] [rows |]]; cbn; intros [H | H]; try congruence; eauto.
Qed.

(** *** Lookups after recordings *)

Lemma has_replied_rows (d : t) (id : str) :
  readable d ->
  has_replied d id = match rows_for d id with [] => false | _ :: _ => true end.
Proof.
  intros [Hc Ht]. destruct d as [c [rows |]]; cbn in *; [| congruence].
  subst c. unfold has_replied, has_replied_query, execute, rows_for, fetchone. cbn.
  destruct (select_by_id id rows); reflexivity.
Qed.

Lemma rows_for_mark_replied (d : t) (id user text reply : str) (now : Q) (key : str) :
  readable d ->
  rows_for (mark_replied d id user text reply now) key
  = if eqb key id then [mk_row id user text reply now] else rows_for d key.
Proof.
  intros Hd. destruct (mark_replied_readable id user text reply now Hd) as (rows & Hrows & ->).
  unfold rows_for. cbn [replied_tweets]. rewrite Hrows.
  destruct (eqb key id) eqn:E.
  - apply eqb_eq in E. subst key.
    apply (select_inserted (mk_row id user text reply now)).
  - apply (select_inserted_other (mk_row id user text reply now)).
    intros ->. rewrite eqb_refl in E. discriminate.
Qed.

Lemma eqb_neq (a b : str) : a <> b -> eqb a b = false.
Proof. intros H. destruct (eqb a b) eqn:E; [apply eqb_eq in E; congruence | reflexivity]. Qed.

(** *** What sqlite3 refuses *)

Lemma execute_with_accepted {A} (d : t) (file_error : option exn)
    (ps : list parameter) (statement : list row -> A) :
  accepts file_error ps = true ->
  execute_with d file_error ps statement = execute d statement.
Proof.
  unfold accepts, execute_with. intros H.
  destruct (execute d statement) as [a | e]; [| reflexivity]. cbn [bind].
  destruct (bind_parameters ps) as [[] | e]; [| discriminate]. cbn [bind].
  destruct file_error; [discriminate | reflexivity].
Qed.

Lemma execute_with_refused {A} (d : t) (file_error : option exn)
    (ps : list parameter) (statement : list row -> A) :
  accepts file_error ps = false ->
  exists e, execute_with d file_error ps statement = Raise e.
Proof.
  unfold accepts, execute_with. intros H.
  destruct (execute d statement) as [a | e]; [| eexists; reflexivity]. cbn [bind].
  destruct (bind_parameters ps) as [[] | e]; [| eexists; reflexivity]. cbn [bind].
  destruct file_error; [eexists; reflexivity | discriminate].
Qed.

(** Each method is the one of the accepted statement when sqlite3
    accepts, and its [except] clause when it refuses. *)
Lemma mark_replied_with_cases (d : t) (file_error : option exn)
    (id user text reply : str) (now : Q) :
  mark_replied_with d file_error id user text reply now
  = if accepts file_error (row_parameters (mk_row id user text reply now))
    then mark_replied d id user text reply now else d.
Proof.
  unfold mark_replied_with, mark_replied.
  destruct (accepts file_error (row_parameters (mk_row id user text reply now))) eqn:E.
  - rewrite execute_with_accepted by exact E. reflexivity.
  - destruct (@execute_with_refused _ d _ _ (insert_or_replace (mk_row id user text reply now)) E)
      as [e ->].
    reflexivity.
Qed.

Lemma has_replied_with_cases (d : t) (file_error : option exn) (id : str) :
  has_replied_with d file_error id = accepts file_error [Text id] && has_replied d id.
Proof.
  unfold has_replied_with, has_replied, has_replied_query.
  destruct (accepts file_error [Text id]) eqn:E; cbn [andb].
  - rewrite execute_with_accepted by exact E.
    destruct (execute d (select_by_id id)); reflexivity.
  - destruct (@execute_with_refused _ d _ _ (select_by_id id) E) as [e ->]. reflexivity.
Qed.

Lemma get_replied_count_with_cases (d : t) (file_error : option exn) :
  get_replied_count_with d file_error
  = if accepts file_error [] then get_replied_count d else 0%Z.
Proof.
  unfold get_replied_count_with, get_replied_count.
  destruct (accepts file_error []) eqn:E.
  - rewrite execute_with_accepted by exact E. reflexivity.
  - destruct (@execute_with_refused _ d _ _ (fun rows => Z.of_nat (length rows)) E) as [e ->].
    reflexivity.
Qed.

Lemma get_recent_replies_with_cases (d : t) (file_error : option exn) (limit : Z) :
  get_recent_replies_with d file_error limit
  = if accepts file_error [Integer limit] then get_recent_replies d limit else [].
Proof.
  unfold get_recent_replies_with, get_recent_replies.
  destruct (accepts file_error [Integer limit]) eqn:E.
  - rewrite execute_with_accepted by exact E. reflexivity.
  - destruct (@execute_with_refused _ d _ _
                (fun rows => limit_rows limit (order_by_recency rows)) E) as [e ->].
    reflexivity.
Qed.

(** The [INSERT] of a row is accepted exactly when the file answers with
    no error and the four strings of the row hold no lone surrogate. *)
Lemma accepts_row (file_error : option exn) (r : row) :
  accepts file_error (row_parameters r) = true
  <-> file_error = None
      /\ encodable (tweet_id r) = true /\ encodable (username r) = true
      /\ encodable (tweet_text r) = true /\ encodable (reply_text r) = true.
Proof.
  unfold accepts, row_parameters. cbn [bind_parameters bind_parameter].
  destruct (encodable (tweet_id r)), (encodable (username r)),
    (encodable (tweet_text r)), (encodable (reply_text r)), file_error;
    cbn [bind]; split; try discriminate; try tauto;
    intros (H0 & H1 & H2 & H3 & H4); discriminate.
Qed.

Lemma accepts_text (s : str) : accepts None [Text s] = encodable s.
Proof.
  unfold accepts. cbn [bind_parameters bind_parameter].
  destruct (encodable s); reflexivity.
Qed.

Lemma accepts_integer (file_error : option exn) (n : Z) :
  accepts file_error [Integer n] = true
  <-> file_error = None /\ (- 2 ^ 63 <= n < 2 ^ 63)%Z.
Proof.
  unfold accepts. cbn [bind_parameters bind_parameter].
  destruct (Z.leb_spec (- 2 ^ 63) n), (Z.ltb_spec n (2 ^ 63)), file_error;
    cbn [andb bind]; split; try discriminate; try tauto;
    intros [H1 H2]; try discriminate; lia.
Qed.

Lemma mark_replied_with_keeps_readable (d : t) (file_error : option exn)
    (id user text reply : str) (now : Q) :
  readable d -> readable (mark_replied_with d file_error id user text reply now).
Proof.
  intros Hd. rewrite mark_replied_with_cases.
  destruct (accepts _ _); auto using mark_replied_keeps_readable.
Qed.

Lemma rows_for_mark_replied_with (d : t) (file_error : option exn)
    (id user text reply : str) (now : Q) (key : str) :
  readable d ->
  rows_for (mark_replied_with d file_error id user text reply now) key
  = if accepts file_error (row_parameters (mk_row id user text reply now)) && eqb key id
    then [mk_row id user text reply now] else rows_for d key.
Proof.
  intros Hd. rewrite mark_replied_with_cases.
  destruct (accepts _ _); cbn [andb]; [| reflexivity].
  apply rows_for_mark_replied, Hd.
Qed.


(** X1. On a store whose connection is open and whose table exists, a
    [mark_replied] that sqlite3 accepts makes [has_replied] answer [True]
    for that tweet id at every later lookup that the file answers; one
    that sqlite3 refuses, for a lone surrogate in one of the four strings
    or for an error of the file, leaves the store as it was; and the
    answer for every other id is as before in both cases. *)
Theorem mark_then_has_replied (d : t) (file_error : option exn)
    (id user text reply : str) (now : Q) :
  readable d ->
  let written := accepts file_error (row_parameters (mk_row id user text reply now)) in
  let d' := mark_replied_with d file_error id user text reply now in
  (written = true -> has_replied_with d' None id = true)
  /\ (written = false -> d' = d)
  /\ (written = true
      <-> file_error = None /\ encodable id = true /\ encodable user = true
          /\ encodable text = true /\ encodable reply = true)
  /\ (forall other lookup_error, other <> id ->
        has_replied_with d' lookup_error other = has_replied_with d lookup_error other).
Proof.
  intros Hd written d'.
  pose proof (mark_replied_with_keeps_readable file_error id user text reply now Hd) as Hd'.
  fold d' in Hd'.
  split; [| split; [| split]].
  - intros Hw. apply accepts_row in Hw as Hfields. destruct Hfields as (_ & Hid & _).
    cbn [tweet_id] in Hid.
    rewrite has_replied_with_cases, accepts_text, Hid, (has_replied_rows _ Hd').
    unfold d'. rewrite (rows_for_mark_replied_with _ _ _ _ _ _ _ Hd).
    fold written. rewrite Hw, eqb_refl. reflexivity.
  - intros Hw. unfold d'. rewrite mark_replied_with_cases. fold written. rewrite Hw.
    reflexivity.
  - apply (accepts_row file_error (mk_row id user text reply now)).
  - intros other lookup_error Hne. rewrite !has_replied_with_cases. f_equal.
    rewrite (has_replied_rows _ Hd'), (has_replied_rows _ Hd). unfold d'.
    rewrite (rows_for_mark_replied_with _ _ _ _ _ _ _ Hd), (eqb_neq Hne), andb_false_r.
    reflexivity.
Qed.

Lemma mark_all_readable (calls : list row) (d : t) :
  readable d -> readable (mark_all d calls).
Proof.
  revert d. induction calls as [| r calls IH]; intros d Hd; [exact Hd |].
  apply IH. apply mark_replied_keeps_readable, Hd.
Qed.

Lemma mark_all_app (d : t) (a b : list row) :
  mark_all d (a ++ b) = mark_all (mark_all d a) b.
Proof. apply fold_left_app. Qed.

Lemma mark_all_rows (d : t) (calls : list row) (id : str) :
  readable d ->
  rows_for (mark_all d calls) id
  = match latest id calls with
    | Some r => [r]
    | None => rows_for d id
    end.
Proof.
  intros Hd. induction calls as [| r calls IH] using rev_ind; [reflexivity |].
  rewrite mark_all_app. cbn [mark_all fold_left]. unfold mark_row.
  rewrite rows_for_mark_replied by (apply mark_all_readable, Hd).
  unfold latest. rewrite rev_app_distr. cbn [rev app find].
  destruct (list_eq_dec N.eq_dec id (tweet_id r)) as [-> | Hne].
  - rewrite !eqb_refl. destruct r; reflexivity.
  - assert (E1 : eqb id (tweet_id r) = false) by (apply eqb_neq, Hne).
    assert (E2 : eqb (tweet_id r) id = false) by (apply eqb_neq; congruence).
    rewrite E1, E2. exact IH.
Qed.

Lemma mark_row_with_cases (d : t) (call : option exn * row) :
  mark_row_with d call
  = if accepts (fst call) (row_parameters (snd call)) then mark_row d (snd call) else d.
Proof.
  unfold mark_row_with, mark_row. rewrite mark_replied_with_cases.
  destruct (snd call); reflexivity.
Qed.

Lemma mark_all_with_accepted (calls : list (option exn * row)) (d : t) :
  mark_all_with d calls = mark_all d (accepted_rows calls).
Proof.
  revert d. induction calls as [| call calls IH]; intros d; [reflexivity |].
  unfold mark_all_with, accepted_rows. cbn [fold_left filter].
  fold (mark_all_with (mark_row_with d call) calls). rewrite IH, mark_row_with_cases.
  unfold accepted_rows.
  destruct (accepts (fst call) (row_parameters (snd call))); reflexivity.
Qed.

(** X2. After any sequence of [mark_replied] calls on a store whose
    connection is open and whose table exists, whatever the file answers
    to each, the rows under a key are exactly the row of the last call
    with that key that sqlite3 accepted; a key for which it accepted no
    call has the rows it had before. *)
Theorem mark_all_latest (d : t) (calls : list (option exn * row)) (id : str) :
  readable d ->
  rows_for (mark_all_with d calls) id
  = match latest id (accepted_rows calls) with
    | Some r => [r]
    | None => rows_for d id
    end.
Proof.
  intros Hd. rewrite mark_all_with_accepted. apply mark_all_rows, Hd.
Qed.

(** *** The primary key and the count *)

Lemma keys_filter (f : row -> bool) (rows : list row) (key : str) :
  In key (map tweet_id (filter f rows)) -> In key (map tweet_id rows).
Proof.
  intros H. apply in_map_iff in H as (r & <- & Hr).
  apply filter_In in Hr as [Hr _]. apply in_map, Hr.
Qed.

Lemma keys_filter_NoDup (f : row -> bool) (rows : list row) :
  NoDup (map tweet_id rows) -> NoDup (map tweet_id (filter f rows)).
Proof.
  induction rows as [| r rows IH]; cbn [map filter]; [auto |].
  intros H. inversion H as [| ? ? Hnotin Hrest]; subst.
  destruct (f r); cbn [map]; [| auto].
  constructor; [| auto]. intros Hin. apply Hnotin. eapply keys_filter, Hin.
Qed.

Lemma insert_or_replace_keys (new : row) (rows : list row) :
  NoDup (map tweet_id rows) ->
  NoDup (map tweet_id (insert_or_replace new rows)).
Proof.
  intros H. unfold insert_or_replace. rewrite map_app. cbn [map].
  apply NoDup_app.
  - apply keys_filter_NoDup, H.
  - repeat constructor. intros [].
  - intros key Hin [<- | []].
    apply in_map_iff in Hin as (r & Hk & Hr).
    apply filter_In in Hr as [_ Hr]. rewrite Hk, eqb_refl in Hr. discriminate.
Qed.

Lemma select_unique (rows : list row) (id : str) :
  NoDup (map tweet_id rows) -> (length (select_by_id id rows) <= 1)%nat.
Proof.
  unfold select_by_id. induction rows as [| r rows IH]; cbn [map filter]; [auto |].
  intros H. inversion H as [| ? ? Hnotin Hrest]; subst.
  destruct (eqb (tweet_id r) id) eqn:E; [| auto].
  apply eqb_eq in E. cbn [length].
  replace (filter (fun r0 => eqb (tweet_id r0) id) rows) with (@nil row); [auto |].
  symmetry. destruct (filter (fun r0 => eqb (tweet_id r0) id) rows) as [| x l] eqn:F;
    [reflexivity |].
  exfalso. apply Hnotin.
  assert (Hx : In x (filter (fun r0 => eqb (tweet_id r0) id) rows))
    by (rewrite F; apply in_eq).
  apply filter_In in Hx as [Hx Hk]. apply eqb_eq in Hk.
  rewrite E, <- Hk. apply in_map, Hx.
Qed.

Lemma filter_split_length (f : row -> bool) (rows : list row) :
  (length (filter f rows) + length (filter (fun r => negb (f r)) rows))%nat
  = length rows.
Proof.
  induction rows as [| r rows IH]; [reflexivity |].
  cbn [filter]. destruct (f r); cbn [negb length]; lia.
Qed.

Lemma mark_replied_accepted_count (d : t) (id user text reply : str) (now : Q) :
  readable d -> unique_keys d ->
  unique_keys (mark_replied d id user text reply now)
  /\ get_replied_count (mark_replied d id user text reply now)
     = (get_replied_count d + if has_replied d id then 0 else 1)%Z.
Proof.
  intros Hd Hu.
  rewrite (has_replied_rows id Hd).
  destruct (mark_replied_readable id user text reply now Hd) as (rows & Hrows & ->).
  unfold unique_keys, get_replied_count, execute, rows_for in *.
  destruct Hd as [Hc _]. rewrite Hrows in *. rewrite Hc. cbn [conn replied_tweets].
  split; [apply insert_or_replace_keys, Hu |].
  unfold insert_or_replace. rewrite length_app. cbn [length tweet_id].
  pose proof (filter_split_length (fun r => eqb (tweet_id r) id) rows) as Hsplit.
  pose proof (@select_unique rows id Hu) as Hone. unfold select_by_id in *.
  cbv beta in Hsplit.
  destruct (filter (fun r => eqb (tweet_id r) id) rows) as [| x [| y l]];
    cbn [length] in *; lia.
Qed.

(** X3. On a store whose connection is open and whose table exists,
    [mark_replied] keeps the primary key: when no two rows share a
    [tweet_id] before, none do afterwards.  The count that
    [get_replied_count] reads when the file answers grows by one when
    sqlite3 accepted the [INSERT] and the tweet id was not recorded; it
    stays when the id was recorded, and when sqlite3 refused the
    [INSERT].  A count that the file answers with an error is 0. *)
Theorem mark_replied_count (d : t) (file_error : option exn)
    (id user text reply : str) (now : Q) :
  readable d -> unique_keys d ->
  let written := accepts file_error (row_parameters (mk_row id user text reply now)) in
  let d' := mark_replied_with d file_error id user text reply now in
  unique_keys d'
  /\ get_replied_count_with d' None
     = (get_replied_count_with d None
        + if written && negb (has_replied_with d None id) then 1 else 0)%Z
  /\ (forall e, get_replied_count_with d' (Some e) = 0%Z).
Proof.
  intros Hd Hu written d'.
  assert (Hcount : forall s, get_replied_count_with s None = get_replied_count s).
  { intros s. rewrite get_replied_count_with_cases. reflexivity. }
  split; [| split].
  - unfold d'. rewrite mark_replied_with_cases. fold written.
    destruct written; [| exact Hu].
    apply (mark_replied_accepted_count id user text reply now Hd Hu).
  - rewrite !Hcount. unfold d'. rewrite mark_replied_with_cases. fold written.
    destruct written eqn:Hw; cbn [andb]; [| lia].
    apply accepts_row in Hw as (_ & Hid & _). cbn [tweet_id] in Hid.
    rewrite has_replied_with_cases, accepts_text, Hid. cbn [andb].
    rewrite (proj2 (mark_replied_accepted_count id user text reply now Hd Hu)).
    destruct (has_replied d id); reflexivity.
  - intros e. rewrite get_replied_count_with_cases. reflexivity.
Qed.

(** *** A store that cannot be used *)

Lemma unusable_inert (d : t) :
  conn d <> Open \/ replied_tweets d = None ->
  (forall id, has_replied d id = false)
  /\ (forall id user text reply now, mark_replied d id user text reply now = d)
  /\ get_replied_count d = 0%Z
  /\ (forall limit, get_recent_replies d limit = []).
Proof.
  intros Hbad.
  assert (Hex : forall A (q : list row -> A), exists e, execute d q = Raise e).
  { intros A q. unfold execute.
    destruct d as [[| |] [rows |]]; cbn in *; destruct Hbad; try congruence; eauto. }
  repeat split.
  - intros id. unfold has_replied, has_replied_query.
    destruct (Hex _ (select_by_id id)) as [e ->]. reflexivity.
  - intros id user text reply now. unfold mark_replied.
    destruct (Hex _ (insert_or_replace (mk_row id user text reply now))) as [e ->].
    reflexivity.
  - unfold get_replied_count.
    destruct (Hex _ (fun rows => Z.of_nat (length rows))) as [e ->]. reflexivity.
  - intros limit. unfold get_recent_replies.
    destruct (Hex _ (fun rows => limit_rows limit (order_by_recency rows))) as [e ->].
    reflexivity.
Qed.

(** X4. After [close], and after an [_init_db] that could not connect,
    the table of the file is as it was but the object is inert:
    [has_replied] answers [False] for every id, also recorded ones,
    [mark_replied] changes nothing, the count is 0 and the recent replies
    are empty; no call raises.  [close] twice is [close] once. *)
Theorem closed_store_inert (d : t) (create_ok : bool) (file : option (list row)) :
  let inert (s : t) :=
    (forall id, has_replied s id = false)
    /\ (forall id user text reply now, mark_replied s id user text reply now = s)
    /\ get_replied_count s = 0%Z
    /\ (forall limit, get_recent_replies s limit = []) in
  inert (close d)
  /\ replied_tweets (close d) = replied_tweets d
  /\ close (close d) = close d
  /\ inert (_init_db false create_ok file)
  /\ replied_tweets (_init_db false create_ok file) = file.
Proof.
  cbv zeta. repeat apply conj; try reflexivity;
    try (apply unusable_inert; left; destruct d as [[| |] rows]; discriminate);
    try (destruct d as [[| |] rows]; reflexivity).
Qed.

(** *** The recent replies *)

Lemma insert_by_recency_perm (r : row) (l : list row) :
  Permutation (insert_by_recency r l) (r :: l).
Proof.
  induction l as [| x l IH]; cbn [insert_by_recency]; [reflexivity |].
  destruct (Qle_bool (replied_at x) (replied_at r)); [reflexivity |].
  rewrite IH. apply perm_swap.
Qed.

Lemma order_by_recency_perm (rows : list row) :
  Permutation (order_by_recency rows) rows.
Proof.
  induction rows as [| r rows IH]; [reflexivity |].
  cbn [order_by_recency fold_right]. fold (order_by_recency rows).
  rewrite insert_by_recency_perm, IH. reflexivity.
Qed.

Lemma insert_by_recency_sorted (r : row) (l : list row) :
  StronglySorted more_recent l -> StronglySorted more_recent (insert_by_recency r l).
Proof.
  induction l as [| x l IH]; cbn [insert_by_recency]; intros Hs.
  - repeat constructor.
  - inversion Hs as [| ? ? Hl Hx]; subst.
    destruct (Qle_bool (replied_at x) (replied_at r)) eqn:E.
    + apply Qle_bool_iff in E. constructor; [exact Hs |].
      constructor; [exact E |].
      eapply Forall_impl; [| exact Hx]. intros y Hy. unfold more_recent in *.
      eapply Qle_trans; eassumption.
    + assert (Hlt : replied_at r <= replied_at x).
      { destruct (Qlt_le_dec (replied_at r) (replied_at x)) as [Hlt | Hle].
        - apply Qlt_le_weak, Hlt.
        - apply Qle_bool_iff in Hle. congruence. }
      constructor; [apply IH, Hl |].
      eapply Permutation_Forall; [symmetry; apply insert_by_recency_perm |].
      constructor; assumption.
Qed.

Lemma order_by_recency_sorted (rows : list row) :
  StronglySorted more_recent (order_by_recency rows).
Proof.
  induction rows as [| r rows IH]; [constructor |].
  cbn [order_by_recency fold_right]. apply insert_by_recency_sorted, IH.
Qed.

Lemma get_recent_replies_accepted (d : t) (rows : list row) (limit : Z) :
  conn d = Open -> replied_tweets d = Some rows ->
  exists rest,
    Permutation (get_recent_replies d limit ++ rest) rows
    /\ StronglySorted more_recent (get_recent_replies d limit ++ rest)
    /\ length (get_recent_replies d limit)
       = (if (limit <? 0)%Z then length rows
          else Nat.min (Z.to_nat limit) (length rows)).
Proof.
  intros Hc Ht. unfold get_recent_replies, execute. rewrite Hc, Ht.
  unfold limit_rows. destruct (limit <? 0)%Z.
  - exists []. rewrite app_nil_r. split; [apply order_by_recency_perm |].
    split; [apply order_by_recency_sorted |].
    apply Permutation_length, order_by_recency_perm.
  - exists (skipn (Z.to_nat limit) (order_by_recency rows)).
    rewrite firstn_skipn. split; [apply order_by_recency_perm |].
    split; [apply order_by_recency_sorted |].
    rewrite length_firstn, (Permutation_length (order_by_recency_perm rows)).
    reflexivity.
Qed.

(** X5. On a store whose connection is open and whose table exists,
    [get_recent_replies] with a [limit] that fits in 64 bits, when the
    file answers, returns the first [limit] rows (all of them for a
    negative [limit]) of the table put in order of decreasing
    [replied_at]: what it returns and what it leaves out are together the
    rows of the table, each as often as there, no row left out is more
    recent than a row returned, and the rows returned are in order.  With
    a [limit] outside 64 bits, or when the file answers with an error, it
    returns the empty list. *)
Theorem get_recent_replies_sorted (d : t) (rows : list row)
    (file_error : option exn) (limit : Z) :
  conn d = Open -> replied_tweets d = Some rows ->
  let recent := get_recent_replies_with d file_error limit in
  (file_error = None /\ (- 2 ^ 63 <= limit < 2 ^ 63)%Z ->
   exists rest,
     Permutation (recent ++ rest) rows
     /\ StronglySorted more_recent (recent ++ rest)
     /\ length recent
        = (if (limit <? 0)%Z then length rows
           else Nat.min (Z.to_nat limit) (length rows)))
  /\ (file_error <> None \/ (limit < - 2 ^ 63)%Z \/ (2 ^ 63 <= limit)%Z -> recent = []).
Proof.
  intros Hc Ht recent. unfold recent. rewrite get_recent_replies_with_cases.
  pose proof (accepts_integer file_error limit) as Hacc.
  destruct (accepts file_error [Integer limit]); split.
  - intros _. apply get_recent_replies_accepted; assumption.
  - destruct (proj1 Hacc eq_refl) as [-> Hrange]. intros [H | [H | H]]; [congruence | lia | lia].
  - intros H. apply Hacc in H. discriminate.
  - reflexivity.
Qed.

End StoreFacts.

(** ** The run orchestrator *)

Module BotFacts.
Import PyStr Bot StoreFacts EngineFacts.

(** *** Traces *)

Lemma replay_app (d : Database.t) (a b : list event) :
  replay d (a ++ b) = replay (replay d a) b.
Proof. apply fold_left_app. Qed.

Lemma replay_cons (d : Database.t) (e : event) (tr : list event) :
  replay d (e :: tr) = replay (apply_event d e) tr.
Proof. reflexivity. Qed.

Lemma dedup_ok_app (d : Database.t) (a b : list event) :
  dedup_ok d (a ++ b) <-> dedup_ok d a /\ dedup_ok (replay d a) b.
Proof.
  revert d. induction a as [| e a IH]; intros d; cbn [app dedup_ok].
  - cbn. tauto.
  - rewrite IH. cbn. tauto.
Qed.

Lemma dedup_ok_at (d : Database.t) (pre : list event) (e : event)
    (post : list event) (id : str) :
  dedup_ok d (pre ++ e :: post) -> acts_on id e ->
  Database.rows_for (replay d pre) id = [].
Proof.
  intros H Hact. apply dedup_ok_app in H as [_ H].
  cbn [dedup_ok] in H. apply (proj1 H). exact Hact.
Qed.

Lemma search_event_quiet (e : event) :
  search_event e = true ->
  (forall d, apply_event d e = d) /\ (forall id, ~ acts_on id e)
  /\ is_wait e = false /\ is_success e = false
  /\ (state_of e = None \/ state_of e = Some Scanning \/ state_of e = Some Selecting).
Proof.
  destruct e; cbn; try discriminate; intros _;
    (repeat split; auto;
     intros ? [(? & ? & ? & H) | (? & ? & ? & H)]; discriminate H).
Qed.

Lemma search_events_replay (d : Database.t) (tr : list event) :
  forallb search_event tr = true -> replay d tr = d.
Proof.
  induction tr as [| e tr IH]; [reflexivity |].
  cbn [forallb]. intros H. apply andb_true_iff in H as [He Htr].
  unfold replay. cbn [fold_left].
  rewrite (proj1 (search_event_quiet e He)). apply IH, Htr.
Qed.

Lemma search_events_dedup (d : Database.t) (tr : list event) :
  forallb search_event tr = true -> dedup_ok d tr.
Proof.
  induction tr as [| e tr IH]; [constructor |].
  cbn [forallb]. intros H. apply andb_true_iff in H as [He Htr].
  destruct (search_event_quiet e He) as (Hd & Hact & _).
  cbn [dedup_ok]. split.
  - intros id Hid. destruct (Hact id Hid).
  - rewrite Hd. apply IH, Htr.
Qed.

Lemma search_events_no_wait (tr : list event) :
  forallb search_event tr = true -> existsb is_wait tr = false.
Proof.
  induction tr as [| e tr IH]; [reflexivity |].
  cbn [forallb existsb]. intros H. apply andb_true_iff in H as [He Htr].
  destruct (search_event_quiet e He) as (_ & _ & -> & _). apply IH, Htr.
Qed.

Lemma search_events_no_success (tr : list event) :
  forallb search_event tr = true -> existsb is_success tr = false.
Proof.
  induction tr as [| e tr IH]; [reflexivity |].
  cbn [forallb existsb]. intros H. apply andb_true_iff in H as [He Htr].
  destruct (search_event_quiet e He) as (_ & _ & _ & -> & _). apply IH, Htr.
Qed.

Lemma calm_no_wait (a b : list event) :
  existsb is_wait a = false -> calm b = true -> calm (a ++ b) = true.
Proof.
  induction a as [| e a IH]; [auto |].
  cbn [existsb app calm]. intros H Hb. apply orb_false_iff in H as [-> Ha].
  rewrite (IH Ha Hb). cbn. apply orb_true_r.
Qed.

Lemma calm_success (a b : list event) :
  existsb is_wait a = false -> existsb is_success a = true -> calm (a ++ b) = true.
Proof.
  induction a as [| e a IH]; [discriminate |].
  cbn [existsb app calm]. intros H Hs. apply orb_false_iff in H as [-> Ha].
  cbn [negb andb]. destruct (is_success e); [reflexivity |].
  cbn [orb] in *. apply (IH Ha Hs).
Qed.

Lemma calm_at (pre : list event) (e : event) (post : list event) :
  calm (pre ++ e :: post) = true -> is_wait e = true ->
  existsb is_success pre = true.
Proof.
  induction pre as [| x pre IH]; cbn [app calm existsb].
  - intros H He. rewrite He in H. discriminate.
  - intros H He. apply andb_true_iff in H as [_ H].
    destruct (is_success x); [reflexivity |]. cbn [orb] in *. apply (IH H He).
Qed.




(** *** Selection *)

Section WithUnicode.
Context {U : UnicodeData}.

Lemma select_events (self : t) visible :
  forallb search_event (fst (select self visible)) = true.
Proof.
  induction visible as [| el rest IH]; [reflexivity |].
  cbn [select]. destruct el as [[p |] | e]; try exact IH.
  destruct (Database.has_replied (db self) (tweet_id p)); [exact IH |].
  destruct (ReplyEngine.is_appropriate_tweet (text p)); [reflexivity | exact IH].
Qed.

(** The candidate selected has no answer [True] from the store and
    passes the filter. *)
Lemma select_found (self : t) visible (post : post_data) :
  snd (select self visible) = Some post ->
  Database.has_replied (db self) (tweet_id post) = false
  /\ ReplyEngine.is_appropriate_tweet (text post) = true
  /\ In (Ok (Some post)) visible.
Proof.
  induction visible as [| el rest IH]; [discriminate |].
  cbn [select]. destruct el as [[p |] | e]; cbn [prepend snd];
    try (intros H; destruct (IH H) as (? & ? & ?); repeat split; auto using in_cons).
  destruct (Database.has_replied (db self) (tweet_id p)) eqn:Hr; cbn [prepend snd];
    [intros H; destruct (IH H) as (? & ? & ?); repeat split; auto using in_cons |].
  destruct (ReplyEngine.is_appropriate_tweet (text p)) eqn:Ha; cbn [negb prepend snd];
    [| intros H; destruct (IH H) as (? & ? & ?); repeat split; auto using in_cons].
  intros [= <-]. repeat split; auto using in_eq.
Qed.

Lemma search_loop_events (self : t) inp remaining search_attempts :
  forallb search_event (fst (search_loop self inp remaining search_attempts)) = true.
Proof.
  revert search_attempts.
  induction remaining as [| remaining IH]; intros k; [reflexivity |].
  cbn [search_loop]. destruct (scans inp (k + 1)%Z) as [visible | e]; [| reflexivity].
  pose proof (select_events self visible) as Hsel.
  destruct (snd (select self visible)); unfold prepend; cbn [fst].
  - cbn [forallb search_event andb]. exact Hsel.
  - rewrite forallb_app, IH. cbn [forallb search_event andb].
    rewrite forallb_app, Hsel. reflexivity.
Qed.

Lemma search_loop_found (self : t) inp remaining search_attempts post :
  snd (search_loop self inp remaining search_attempts) = Ok (Some post) ->
  Database.has_replied (db self) (tweet_id post) = false
  /\ ReplyEngine.is_appropriate_tweet (text post) = true.
Proof.
  revert search_attempts.
  induction remaining as [| remaining IH]; intros k; [discriminate |].
  cbn [search_loop]. destruct (scans inp (k + 1)%Z) as [visible | e]; [| discriminate].
  destruct (snd (select self visible)) as [p |] eqn:Hsel; cbn [snd prepend].
  - intros [= <-]. destruct (select_found self visible Hsel) as (? & ? & _). auto.
  - apply IH.
Qed.

(** A candidate that comes first in the first view, is not answered
    [True] by the store and passes the filter, is the one selected. *)
Lemma search_loop_first (self : t) inp post rest :
  scans inp 1%Z = Ok (Ok (Some post) :: rest) ->
  Database.has_replied (db self) (tweet_id post) = false ->
  ReplyEngine.is_appropriate_tweet (text post) = true ->
  snd (search_loop self inp 10 0) = Ok (Some post)
  /\ In (HasReplied (tweet_id post) false) (fst (search_loop self inp 10 0)).
Proof.
  intros Hscan Hr Ha. cbn [search_loop Z.add]. rewrite Hscan.
  cbn [select]. rewrite Hr, Ha. cbn [negb snd fst].
  split; [reflexivity |]. cbn [In]. auto 6.
Qed.

(** *** The reply process *)

Ltac reply_cases :=
  unfold reply_process, rate_limit;
  match goal with
  | |- context [ReplyEngine.generate_reply ?e ?b ?d ?t ?u] =>
      destruct (generate_reply_total e b d t u) as (?reply & -> & _)
  end;
  destruct (manual_approval _); destruct (Qlt_le_dec _ _).

Ltac no_act :=
  let E := fresh "E" in
  intros ? [(? & ? & ? & E) | (? & ? & ? & E)];
  try discriminate E; injection E as <-; intros; assumption.


Lemma reply_process_dedup (self : t) l inp post :
  Database.rows_for (db self) (tweet_id post) = [] ->
  dedup_ok (db self) (events (reply_process self l inp post))
  /\ replay (db self) (events (reply_process self l inp post))
     = db (bot (reply_process self l inp post)).
Proof.
  intros Hnew.
  reply_cases; destruct (submit inp) as [[|] | e];
    cbn [events bot app dedup_ok apply_event replay fold_left db set_db
         set_last_reply_time];
    (split; [repeat split; no_act | reflexivity]).
Qed.

Lemma reply_process_readable (self : t) l inp post :
  Database.readable (db self) ->
  Database.readable (db (bot (reply_process self l inp post))).
Proof.
  intros Hd.
  reply_cases; destruct (submit inp) as [[|] | e];
    cbn [bot db set_db set_last_reply_time];
    auto using mark_replied_keeps_readable.
Qed.

(** The reply process never leaves the loop, and keeps the failure count. *)
Lemma reply_process_next (self : t) l inp post :
  next (reply_process self l inp post) = Continue
  /\ consecutive_failures (vars (reply_process self l inp post))
     = consecutive_failures l.
Proof. reply_cases; destruct (submit inp) as [[|] | e]; split; reflexivity. Qed.

(** It invokes the generator and then the dispatcher for its candidate. *)
Lemma reply_process_acts (self : t) l inp post :
  exists reply_text,
    In (Generate (tweet_id post) (text post) (username post) (Ok reply_text))
       (events (reply_process self l inp post))
    /\ In (Submit (tweet_id post) (element post) reply_text (submit inp))
          (events (reply_process self l inp post)).
Proof.
  reply_cases; exists reply; destruct (submit inp) as [[|] | e];
    cbn [events app In]; split; auto 12.
Qed.

(** A submission that does not succeed changes neither the bot nor the
    counters, and is logged. *)
Lemma reply_process_failed (self : t) l inp post :
  submit inp <> Ok true ->
  let s := reply_process self l inp post in
  bot s = self /\ vars s = l /\ next s = Continue
  /\ (forall id user tweet_text reply_text now,
        ~ In (MarkReplied id user tweet_text reply_text now) (events s))
  /\ (submit inp = Ok false /\ In (Log WARNING "Reply action failed") (events s)
      \/ (exists e, submit inp = Raise e)
         /\ In (Log ERROR "Exception during reply action") (events s)).
Proof.
  intros Hfail.
  reply_cases; destruct (submit inp) as [[|] | e]; try congruence;
    cbn [events bot vars next app In];
    (repeat split;
     [ intros ? ? ? ? ? H; repeat (destruct H as [H | H]; [discriminate H |]); exact H
     | first [ left; split; [reflexivity | auto 12]
             | right; split; [eexists; reflexivity | auto 12] ] ]).
Qed.

(** The submissions of a reply process are those of its candidate, with
    the answer of the dispatcher. *)
Lemma reply_process_submit (self : t) l inp post id el reply_text success :
  In (Submit id el reply_text success) (events (reply_process self l inp post)) ->
  success = submit inp.
Proof.
  reply_cases; destruct (submit inp) as [[|] | e]; cbn [events app In];
    intros H; repeat (destruct H as [H | H]; [try discriminate H |]);
    try contradiction; injection H; intros; subst; reflexivity.
Qed.

(** On a fresh bot, at a time of day past 30 seconds, the check does not
    wait; the bot stays fresh unless the submission succeeds. *)
Lemma reply_process_fresh (self : t) l inp post :
  fresh self -> 30 # 1 <= clock_rate_limit inp ->
  existsb is_wait (events (reply_process self l inp post)) = false
  /\ (existsb is_success (events (reply_process self l inp post)) = true
      \/ fresh (bot (reply_process self l inp post))).
Proof.
  intros [Hlast Hmin] Hclock.
  reply_cases;
    try match goal with
        | q : _ < _ |- _ => exfalso; rewrite Hlast, Hmin in q; lra
        end;
    destruct (submit inp) as [[|] | e];
    cbn [events bot app existsb is_wait is_success orb];
    (split; [reflexivity | first [left; reflexivity | right; split; assumption]]).
Qed.

(** The last reply time only changes on a successful submission. *)
Lemma reply_process_last_reply_time (self : t) l inp post :
  let s := reply_process self l inp post in
  min_delay_between_replies (bot s) = min_delay_between_replies self
  /\ (last_reply_time (bot s) <> last_reply_time self -> submit inp = Ok true).
Proof.
  reply_cases; destruct (submit inp) as [[|] | e];
    cbn [bot set_db set_last_reply_time last_reply_time min_delay_between_replies];
    split; congruence.
Qed.

(** *** One iteration *)

(** The three ways an iteration can go. *)
Lemma cycle_cases (self : t) (l : locals) (inp : cycle_input) :
  let search := search_loop self inp 10 0 in
  (exists e, snd search = Raise e
             /\ cycle self l inp = mk_step (fst search) self l (Escaped e))
  \/ (snd search = Ok None
      /\ cycle self l inp
         = let l' := mk_locals (replies_made l) (consecutive_failures l + 1) in
           let warned :=
             fst search
             ++ [Log WARNING "Could not find any suitable tweets after multiple scrolls"] in
           if (MAX_FAILURES <=? consecutive_failures l + 1)%Z
           then mk_step
                  (warned ++ [Log ERROR "Too many failures finding tweets, aborting run"])
                  self l' Break
           else mk_step warned self l' Continue)
  \/ (exists post,
        snd search = Ok (Some post)
        /\ Database.has_replied (db self) (tweet_id post) = false
        /\ ReplyEngine.is_appropriate_tweet (text post) = true
        /\ cycle self l inp
           = let s := reply_process self (mk_locals (replies_made l) 0) inp post in
             mk_step (fst search ++ events s) (bot s) (vars s) (next s)).
Proof.
  intros search. unfold cycle. fold search.
  destruct (snd search) as [[post |] | e] eqn:E.
  - right. right. exists post.
    destruct (search_loop_found self inp 10 0 E) as [Hr Ha]. auto.
  - right. left. auto.
  - left. eauto.
Qed.

Lemma cycle_dedup (self : t) (l : locals) (inp : cycle_input) :
  Database.readable (db self) ->
  dedup_ok (db self) (events (cycle self l inp))
  /\ replay (db self) (events (cycle self l inp)) = db (bot (cycle self l inp))
  /\ Database.readable (db (bot (cycle self l inp))).
Proof.
  intros Hd. pose proof (search_loop_events self inp 10 0) as Hq.
  destruct (cycle_cases self l inp)
    as [(e & _ & ->) | [(_ & ->) | (post & _ & Hr & _ & ->)]]; cbv zeta.
  - cbn [events bot]. auto using search_events_dedup, search_events_replay.
  - assert (Hw : forall more,
               forallb search_event more = true ->
               dedup_ok (db self) (fst (search_loop self inp 10 0) ++ more)
               /\ replay (db self) (fst (search_loop self inp 10 0) ++ more) = db self).
    { intros more Hm. split.
      - apply search_events_dedup. rewrite forallb_app, Hq, Hm. reflexivity.
      - apply search_events_replay. rewrite forallb_app, Hq, Hm. reflexivity. }
    destruct (MAX_FAILURES <=? consecutive_failures l + 1)%Z; cbn [events bot].
    + rewrite <- app_assoc. cbn [app].
      destruct (Hw [Log WARNING "Could not find any suitable tweets after multiple scrolls";
                    Log ERROR "Too many failures finding tweets, aborting run"] eq_refl).
      auto.
    + destruct (Hw [Log WARNING "Could not find any suitable tweets after multiple scrolls"]
                  eq_refl).
      auto.
  - cbn [events bot].
    apply (has_replied_truthful _ Hd) in Hr.
    destruct (reply_process_dedup self (mk_locals (replies_made l) 0) inp post Hr)
      as [Hok Hrep].
    rewrite dedup_ok_app, replay_app, (search_events_replay _ _ Hq).
    auto using search_events_dedup, reply_process_readable.
Qed.

(** *** The loop and the runs *)

Lemma while_loop_dedup (inputs : list cycle_input) (self : t) (l : locals) :
  Database.readable (db self) ->
  let r := while_loop self l inputs in
  dedup_ok (db self) (run_events r)
  /\ replay (db self) (run_events r) = db (run_bot r)
  /\ Database.readable (db (run_bot r)).
Proof.
  revert self l. induction inputs as [| inp rest IH]; intros self l Hd; cbv zeta;
    cbn [while_loop]; destruct (replies_made l <? max_replies_per_run self)%Z;
    try (cbn; auto; fail).
  destruct (cycle_dedup self l inp Hd) as (Hok & Hrep & Hd').
  destruct (next (cycle self l inp)); cbn [run_events run_bot after]; auto.
  destruct (IH _ (vars (cycle self l inp)) Hd') as (Hok' & Hrep' & Hd'').
  rewrite dedup_ok_app, replay_app, Hrep. auto.
Qed.

Lemma dedup_ok_log (d : Database.t) lvl msg (tr : list event) :
  dedup_ok d (Log lvl msg :: tr) <-> dedup_ok d tr.
Proof.
  cbn [dedup_ok apply_event]. split; [tauto |]. intros H. split; [| exact H].
  intros ? [(? & ? & ? & E) | (? & ? & ? & E)]; discriminate E.
Qed.

Lemma run_once_dedup (self : t) (inp : run_input) :
  Database.readable (db self) ->
  let r := run_once self inp in
  dedup_ok (db self) (run_events r)
  /\ replay (db self) (run_events r) = db (run_bot r)
  /\ Database.readable (db (run_bot r)).
Proof.
  intros Hd. cbv zeta. unfold run_once.
  destruct (navigate inp) as [_ | e].
  - destruct (while_loop_dedup (cycles inp) self (mk_locals 0 0) Hd) as (Hok & Hrep & Hd').
    assert (Hend : forall lvl msg,
               dedup_ok (db self)
                 ((Log INFO "Navigating to home feed..."
                   :: run_events (while_loop self (mk_locals 0 0) (cycles inp)))
                  ++ [Log lvl msg])
               /\ replay (db self)
                    ((Log INFO "Navigating to home feed..."
                      :: run_events (while_loop self (mk_locals 0 0) (cycles inp)))
                     ++ [Log lvl msg])
                  = db (run_bot (while_loop self (mk_locals 0 0) (cycles inp)))).
    { intros lvl msg. cbn [app]. rewrite dedup_ok_log, dedup_ok_app, replay_cons.
      cbn [apply_event]. rewrite replay_app, Hrep. repeat split; auto.
      intros ? [(? & ? & ? & E) | (? & ? & ? & E)]; discriminate E. }
    destruct (run_status (while_loop self (mk_locals 0 0) (cycles inp))) eqn:Hs;
      cbn [after run_status run_events run_bot app]; rewrite ?Hs;
      cbn [after run_events run_bot app];
      try (destruct (Hend INFO "Run complete"%string) as [? ?]; auto; fail);
      try (destruct (Hend ERROR "Critical error in run_once"%string) as [? ?]; auto; fail).
    rewrite dedup_ok_log, replay_cons. auto.
  - cbn [run_events run_bot]. rewrite !dedup_ok_log. cbn. auto.
Qed.

Lemma run_continuous_dedup (runs : list run_input) (self : t) (interval : Z) :
  Database.readable (db self) ->
  let r := run_continuous self interval runs in
  dedup_ok (db self) (fst r)
  /\ replay (db self) (fst r) = db (snd r)
  /\ Database.readable (db (snd r)).
Proof.
  revert self. induction runs as [| inp rest IH]; intros self Hd; cbv zeta;
    cbn [run_continuous]; [cbn; auto |].
  destruct (run_once_dedup self inp Hd) as (Hok & Hrep & Hd').
  destruct (IH _ Hd') as (Hok' & Hrep' & Hd'').
  assert (Hgo :
    dedup_ok (db self)
      (fst (prepend
              (run_events (run_once self inp)
               ++ [Log INFO "Waiting until next run...";
                   Sleep (inject_Z (interval * 60))])
              (run_continuous (run_bot (run_once self inp)) interval rest)))
    /\ replay (db self)
         (fst (prepend
                 (run_events (run_once self inp)
                  ++ [Log INFO "Waiting until next run...";
                      Sleep (inject_Z (interval * 60))])
                 (run_continuous (run_bot (run_once self inp)) interval rest)))
       = db (snd (run_continuous (run_bot (run_once self inp)) interval rest))).
  { unfold prepend. cbn [fst]. rewrite <- app_assoc. cbn [app].
    rewrite dedup_ok_app, replay_app, Hrep, dedup_ok_log, !replay_cons.
    cbn [dedup_ok apply_event].
    repeat split; auto.
    intros ? [(? & ? & ? & E) | (? & ? & ? & E)]; discriminate E. }
  destruct (run_status (run_once self inp)); cbn [fst snd prepend] in *; tauto.
Qed.

(** *** The rate limiter of a fresh bot *)

Lemma calm_seq (a b : list event) :
  calm a = true -> (existsb is_success a = true \/ calm b = true) ->
  calm (a ++ b) = true.
Proof.
  induction a as [| e a IH]; cbn [app calm existsb].
  - intros _ [H | H]; [discriminate | exact H].
  - intros Ha Hb. apply andb_true_iff in Ha as [-> Ha]. cbn [andb].
    destruct (is_success e); [reflexivity |]. cbn [orb] in *. auto.
Qed.

Lemma calm_of_no_wait (tr : list event) :
  existsb is_wait tr = false -> calm tr = true.
Proof.
  intros H. rewrite <- (app_nil_r tr). apply calm_no_wait; [exact H | reflexivity].
Qed.

Lemma keeps_calm_seq (a b : list event) (mid self' : t) :
  keeps_calm a mid -> (fresh mid -> keeps_calm b self') ->
  keeps_calm (a ++ b) self'.
Proof.
  intros [Ha [Hs | Hf]] Hb.
  - split.
    + apply calm_seq; auto.
    + left. rewrite existsb_app, Hs. reflexivity.
  - destruct (Hb Hf) as [Hcb Hsb]. split.
    + apply calm_seq; auto.
    + destruct Hsb as [Hsb | Hsb]; [left | right; exact Hsb].
      rewrite existsb_app, Hsb. apply orb_true_r.
Qed.

Lemma keeps_calm_idle (tr : list event) (self : t) :
  fresh self -> existsb is_wait tr = false -> keeps_calm tr self.
Proof. intros Hf Hw. split; [apply calm_of_no_wait, Hw | right; exact Hf]. Qed.

Lemma cycle_calm (self : t) (l : locals) (inp : cycle_input) :
  fresh self -> 30 # 1 <= clock_rate_limit inp ->
  keeps_calm (events (cycle self l inp)) (bot (cycle self l inp)).
Proof.
  intros Hf Hclock. pose proof (search_loop_events self inp 10 0) as Hq.
  destruct (cycle_cases self l inp)
    as [(e & _ & ->) | [(_ & ->) | (post & _ & _ & _ & ->)]]; cbv zeta.
  - apply keeps_calm_idle; [exact Hf |]. apply search_events_no_wait, Hq.
  - destruct (MAX_FAILURES <=? consecutive_failures l + 1)%Z; cbn [events bot];
      (apply keeps_calm_idle; [exact Hf |]);
      rewrite ?existsb_app, (search_events_no_wait _ Hq); reflexivity.
  - cbn [events bot].
    apply (keeps_calm_seq (mid := self)).
    + apply keeps_calm_idle; [exact Hf |]. apply search_events_no_wait, Hq.
    + intros _.
      destruct (@reply_process_fresh self (mk_locals (replies_made l) 0) inp post
                  Hf Hclock) as [Hw Hs].
      split; [apply calm_of_no_wait, Hw | exact Hs].
Qed.

Lemma while_loop_calm (inputs : list cycle_input) (self : t) (l : locals) :
  fresh self ->
  (forall inp, In inp inputs -> 30 # 1 <= clock_rate_limit inp) ->
  keeps_calm (run_events (while_loop self l inputs)) (run_bot (while_loop self l inputs)).
Proof.
  revert self l. induction inputs as [| inp rest IH]; intros self l Hf Hclock;
    cbn [while_loop]; destruct (replies_made l <? max_replies_per_run self)%Z;
    try (apply keeps_calm_idle; [exact Hf | reflexivity]).
  pose proof (@cycle_calm self l inp Hf (Hclock inp (in_eq _ _))) as Hc.
  destruct (next (cycle self l inp)); cbn [run_events run_bot after]; try exact Hc.
  apply (keeps_calm_seq Hc). intros Hf'. apply IH; auto using in_cons.
Qed.

Lemma run_once_calm (self : t) (inp : run_input) :
  fresh self ->
  (forall c, In c (cycles inp) -> 30 # 1 <= clock_rate_limit c) ->
  keeps_calm (run_events (run_once self inp)) (run_bot (run_once self inp)).
Proof.
  intros Hf Hclock. unfold run_once.
  destruct (navigate inp) as [_ | e];
    [| apply keeps_calm_idle; [exact Hf | reflexivity]].
  pose proof (@while_loop_calm (cycles inp) self (mk_locals 0 0) Hf Hclock) as Hw.
  assert (Hnav : keeps_calm
                   (run_events (after [Log INFO "Navigating to home feed..."]
                                  (while_loop self (mk_locals 0 0) (cycles inp))))
                   (run_bot (while_loop self (mk_locals 0 0) (cycles inp)))).
  { cbn [after run_events].
    apply (keeps_calm_seq (mid := self)); [| intros _; exact Hw].
    apply keeps_calm_idle; [exact Hf | reflexivity]. }
  destruct (run_status (while_loop self (mk_locals 0 0) (cycles inp))) eqn:Hs;
    cbn [after run_status]; rewrite ?Hs; cbn [run_events run_bot];
    try exact Hnav;
    (apply (keeps_calm_seq Hnav); intros Hf';
     apply keeps_calm_idle; [exact Hf' | reflexivity]).
Qed.

Lemma run_continuous_calm (runs : list run_input) (self : t) (interval : Z) :
  fresh self ->
  (forall run c, In run runs -> In c (cycles run) -> 30 # 1 <= clock_rate_limit c) ->
  keeps_calm (fst (run_continuous self interval runs))
             (snd (run_continuous self interval runs)).
Proof.
  revert self. induction runs as [| inp rest IH]; intros self Hf Hclock;
    cbn [run_continuous]; [apply keeps_calm_idle; [exact Hf | reflexivity] |].
  pose proof (@run_once_calm self inp Hf (fun c => Hclock inp c (in_eq _ _))) as Hr.
  destruct (run_status (run_once self inp)); cbn [fst snd prepend]; try exact Hr;
    rewrite <- app_assoc;
    (apply (keeps_calm_seq Hr); intros Hf';
     apply (keeps_calm_seq (mid := run_bot (run_once self inp)));
     [ apply keeps_calm_idle; [exact Hf' | reflexivity]
     | intros _; apply IH; [exact Hf' | intros run c Hrun; apply Hclock, in_cons, Hrun] ]).
Qed.

(** *** The failure budget *)

Lemma cycle_failures (self : t) (l : locals) (inp : cycle_input) :
  (0 <= consecutive_failures l < MAX_FAILURES)%Z ->
  let s := cycle self l inp in
  (next s = Break ->
   consecutive_failures (vars s) = MAX_FAILURES
   /\ exists pre,
        events s
        = pre ++ [Log WARNING "Could not find any suitable tweets after multiple scrolls";
                  Log ERROR "Too many failures finding tweets, aborting run"])
  /\ (next s <> Break -> (0 <= consecutive_failures (vars s) < MAX_FAILURES)%Z).
Proof.
  intros Hl. cbv zeta.
  destruct (cycle_cases self l inp)
    as [(e & _ & ->) | [(_ & ->) | (post & _ & _ & _ & ->)]]; cbv zeta.
  - cbn [next vars]. split; [discriminate | auto].
  - destruct (Z.leb_spec MAX_FAILURES (consecutive_failures l + 1));
      cbn [next vars events consecutive_failures]; (split; [| intros; try congruence; lia]).
    + intros _. split; [lia |]. eexists. rewrite <- app_assoc. reflexivity.
    + discriminate.
  - cbn [next vars events].
    destruct (reply_process_next self (mk_locals (replies_made l) 0) inp post) as [-> ->].
    cbn [consecutive_failures]. split; [discriminate |]. unfold MAX_FAILURES. lia.
Qed.

Lemma while_loop_failures (inputs : list cycle_input) (self : t) (l : locals) :
  (0 <= consecutive_failures l < MAX_FAILURES)%Z ->
  let r := while_loop self l inputs in
  (run_status r = Aborted ->
   consecutive_failures (run_vars r) = MAX_FAILURES
   /\ exists pre,
        run_events r
        = pre ++ [Log WARNING "Could not find any suitable tweets after multiple scrolls";
                  Log ERROR "Too many failures finding tweets, aborting run"])
  /\ (run_status r <> Aborted ->
      (0 <= consecutive_failures (run_vars r) < MAX_FAILURES)%Z).
Proof.
  revert self l. induction inputs as [| inp rest IH]; intros self l Hl; cbv zeta;
    cbn [while_loop]; destruct (replies_made l <? max_replies_per_run self)%Z;
    try (cbn [run_status run_vars]; split; [discriminate | auto]).
  destruct (@cycle_failures self l inp Hl) as [Hbreak Hgo].
  destruct (next (cycle self l inp)) eqn:Hn;
    cbn [run_status run_vars run_events after].
  - specialize (Hgo ltac:(discriminate)).
    destruct (IH (bot (cycle self l inp)) (vars (cycle self l inp)) Hgo) as [Ha Hb].
    split; [| exact Hb].
    intros Hs. destruct (Ha Hs) as [Hcf [pre Hpre]]. split; [exact Hcf |].
    exists (events (cycle self l inp) ++ pre). rewrite Hpre, app_assoc. reflexivity.
  - split; [intros _; apply Hbreak; reflexivity | congruence].
  - split; [discriminate | intros _; apply Hgo; discriminate].
Qed.

(** *** The claims on the run loop *)

Lemma replay_readable (tr : list event) (d : Database.t) :
  Database.readable d -> Database.readable (replay d tr).
Proof.
  revert d. induction tr as [| e tr IH]; intros d Hd; [exact Hd |].
  rewrite replay_cons. apply IH.
  destruct e; cbn [apply_event]; auto using mark_replied_keeps_readable.
Qed.

Lemma mark_replied_keeps_rows (d : Database.t) (id id' user text' reply : str) (now : Q) :
  Database.rows_for d id <> [] ->
  Database.rows_for (Database.mark_replied d id' user text' reply now) id <> [].
Proof.
  unfold Database.mark_replied, Database.execute, Database.rows_for.
  destruct d as [[| |] [rows |]]; cbn; auto.
  intros Hrows. destruct (list_eq_dec N.eq_dec id id') as [-> | Hne].
  - rewrite (select_inserted (Database.mk_row id' user text' reply now)). discriminate.
  - rewrite (select_inserted_other (Database.mk_row id' user text' reply now)); auto.
Qed.

Lemma replay_keeps_rows (tr : list event) (d : Database.t) (id : str) :
  Database.rows_for d id <> [] -> Database.rows_for (replay d tr) id <> [].
Proof.
  revert d. induction tr as [| e tr IH]; intros d Hd; [exact Hd |].
  rewrite replay_cons. apply IH.
  destruct e; cbn [apply_event]; auto using mark_replied_keeps_rows.
Qed.

(** C1. On a store whose reads succeed, in any sequence of runs: whenever
    the reply generator or the action dispatcher is invoked for a tweet
    id, the store has no row for that id at that moment, neither from
    before the runs nor recorded earlier in them; so an id the store
    already answers [True] for is never acted on.  The candidate that
    selection returns is one [has_replied] answered [False] for. *)
Theorem dedup_invariant (self : t) (interval : Z) (runs : list run_input) :
  Database.readable (db self) ->
  let tr := fst (run_continuous self interval runs) in
  (forall pre e post id,
     tr = pre ++ e :: post -> acts_on id e ->
     Database.rows_for (replay (db self) pre) id = []
     /\ Database.has_replied (replay (db self) pre) id = false)
  /\ (forall id e,
        Database.has_replied (db self) id = true -> In e tr -> ~ acts_on id e)
  /\ replay (db self) tr = db (snd (run_continuous self interval runs))
  /\ (forall visible post,
        snd (select self visible) = Some post ->
        Database.has_replied (db self) (tweet_id post) = false).
Proof.
  intros Hd tr.
  destruct (@run_continuous_dedup runs self interval Hd) as (Hok & Hrep & _).
  fold tr in Hok, Hrep.
  assert (Hat : forall pre e post id,
             tr = pre ++ e :: post -> acts_on id e ->
             Database.rows_for (replay (db self) pre) id = []).
  { intros pre e post id Htr Hact. rewrite Htr in Hok.
    eapply dedup_ok_at; eassumption. }
  repeat split.
  - eapply Hat; eassumption.
  - apply has_replied_truthful; [apply replay_readable, Hd |].
    eapply Hat; eassumption.
  - intros id e Hid Hin Hact.
    destruct (in_split _ _ Hin) as (pre & post & Htr).
    apply (@replay_keeps_rows pre (db self) id).
    + intros Hnone. apply (proj2 (@has_replied_truthful (db self) id Hd)) in Hnone.
      congruence.
    + eapply Hat; eassumption.
  - exact Hrep.
  - intros visible post Hsel. apply (select_found self visible Hsel).
Qed.


(** C4. A selection cycle that finds no candidate adds 1 to
    [consecutive_failures], one that finds a candidate sets it to 0.  With
    the budget [MAX_FAILURES] of 5 the iteration that brings the count to
    5 breaks out of the loop: the run is [Aborted] with the events of
    that iteration as its last ones, whatever the feed would still show;
    a run that is not aborted has a count below 5. *)
Theorem failure_budget :
  MAX_FAILURES = 5%Z
  /\ (forall self l inp,
        snd (search_loop self inp 10 0) = Ok None ->
        let s := cycle self l inp in
        consecutive_failures (vars s) = (consecutive_failures l + 1)%Z
        /\ replies_made (vars s) = replies_made l
        /\ bot s = self
        /\ next s = if (5 <=? consecutive_failures l + 1)%Z then Break else Continue)
  /\ (forall self l inp post,
        snd (search_loop self inp 10 0) = Ok (Some post) ->
        consecutive_failures (vars (cycle self l inp)) = 0%Z)
  /\ (forall self l inp rest,
        (replies_made l < max_replies_per_run self)%Z ->
        next (cycle self l inp) = Break ->
        while_loop self l (inp :: rest)
        = mk_run (events (cycle self l inp)) (bot (cycle self l inp))
                 (vars (cycle self l inp)) Aborted)
  /\ (forall self inp,
        let r := run_once self inp in
        (run_status r = Aborted ->
         consecutive_failures (run_vars r) = 5%Z
         /\ exists pre,
              run_events r
              = pre ++ [Log WARNING "Could not find any suitable tweets after multiple scrolls";
                        Log ERROR "Too many failures finding tweets, aborting run";
                        Log INFO "Run complete"])
        /\ (run_status r <> Aborted ->
            (0 <= consecutive_failures (run_vars r) < 5)%Z)).
Proof.
  split; [reflexivity |]. split; [| split; [| split]].
  - intros self l inp Hnone. cbv zeta.
    destruct (cycle_cases self l inp)
      as [(e & He & _) | [(_ & ->) | (post & Hp & _)]]; cbv zeta in *; try congruence.
    change MAX_FAILURES with 5%Z.
    destruct (5 <=? consecutive_failures l + 1)%Z; cbn; auto.
  - intros self l inp post Hfound.
    destruct (cycle_cases self l inp)
      as [(e & He & _) | [(Hn & _) | (post' & _ & _ & _ & ->)]]; cbv zeta in *;
      try congruence.
    cbn [vars].
    destruct (reply_process_next self (mk_locals (replies_made l) 0) inp post') as [_ ->].
    reflexivity.
  - intros self l inp rest Hquota Hbreak. cbn [while_loop].
    destruct (Z.ltb_spec (replies_made l) (max_replies_per_run self)); [| lia].
    rewrite Hbreak. reflexivity.
  - intros self inp. cbv zeta. unfold run_once.
    destruct (navigate inp) as [_ | e];
      [| cbn [run_status run_vars consecutive_failures]; split; [discriminate | lia]].
    destruct (@while_loop_failures (cycles inp) self (mk_locals 0 0)
                ltac:(cbn; unfold MAX_FAILURES; lia)) as [Ha Hb].
    change MAX_FAILURES with 5%Z in *.
    destruct (run_status (while_loop self (mk_locals 0 0) (cycles inp))) eqn:Hs;
      cbn [after run_status]; rewrite ?Hs; cbn [after run_status run_vars run_events];
      try (split; [congruence | intros _; apply Hb; congruence]).
    split; [| congruence]. intros _.
    destruct (Ha eq_refl) as [Hcf [pre Hpre]]. split; [exact Hcf |].
    exists (Log INFO "Navigating to home feed..." :: pre).
    rewrite Hpre. cbn [app]. rewrite <- app_assoc. reflexivity.
Qed.

Lemma search_events_no_submit (tr : list event) id el reply_text success :
  forallb search_event tr = true -> ~ In (Submit id el reply_text success) tr.
Proof.
  intros Hq Hin. apply (proj1 (forallb_forall _ _) Hq) in Hin. discriminate Hin.
Qed.

(** C7. When [reply_to_tweet] returns [False] or raises, the iteration
    logs it and goes on to the next one; the store, [replies_made] and
    [last_reply_time] are as before, nothing is recorded, and
    [consecutive_failures] is the 0 that the selection set. *)
Theorem submission_failure (self : t) (l : locals) (inp : cycle_input)
    (id : str) (el : nat) (reply_text : str) (success : result bool) :
  In (Submit id el reply_text success) (events (cycle self l inp)) ->
  success <> Ok true ->
  let s := cycle self l inp in
  next s = Continue
  /\ bot s = self
  /\ db (bot s) = db self
  /\ last_reply_time (bot s) = last_reply_time self
  /\ replies_made (vars s) = replies_made l
  /\ consecutive_failures (vars s) = 0%Z
  /\ (forall id' user tweet_text reply' now,
        ~ In (MarkReplied id' user tweet_text reply' now) (events s))
  /\ (success = Ok false /\ In (Log WARNING "Reply action failed") (events s)
      \/ (exists e, success = Raise e)
         /\ In (Log ERROR "Exception during reply action") (events s))
  /\ (forall rest,
        (replies_made l < max_replies_per_run self)%Z ->
        while_loop self l (inp :: rest)
        = after (events s) (while_loop self (mk_locals (replies_made l) 0) rest)).
Proof.
  intros Hin Hfail. cbv zeta.
  pose proof (search_loop_events self inp 10 0) as Hq.
  assert (Hquiet : forall more,
             forallb search_event more = true ->
             ~ In (Submit id el reply_text success)
                  (fst (search_loop self inp 10 0) ++ more)).
  { intros more Hm. apply search_events_no_submit.
    rewrite forallb_app, Hq, Hm. reflexivity. }
  assert (Hstep : exists post,
             cycle self l inp
             = (let s := reply_process self (mk_locals (replies_made l) 0) inp post in
                mk_step (fst (search_loop self inp 10 0) ++ events s)
                        (bot s) (vars s) (next s))).
  { destruct (cycle_cases self l inp)
      as [(e & _ & Hc) | [(_ & Hc) | (post & _ & _ & _ & Hc)]]; cbv zeta in *.
    - exfalso. rewrite Hc in Hin. cbn [events] in Hin.
      apply (Hquiet [] eq_refl). rewrite app_nil_r. exact Hin.
    - exfalso. rewrite Hc in Hin.
      destruct (MAX_FAILURES <=? consecutive_failures l + 1)%Z; cbn [events] in Hin;
        rewrite <- ?app_assoc in Hin; revert Hin; apply Hquiet; reflexivity.
    - exists post. exact Hc. }
  destruct Hstep as [post Hc]. cbv zeta in Hc. rewrite Hc in *. cbn [events] in Hin.
  apply in_app_or in Hin as [Hin | Hin];
    [exfalso; revert Hin; apply search_events_no_submit, Hq |].
  apply reply_process_submit in Hin. subst success.
  destruct (@reply_process_failed self (mk_locals (replies_made l) 0) inp post Hfail)
    as (Hbot & Hvars & Hnext & Hmark & Hlog).
  cbn [events bot vars next]. rewrite Hbot, Hvars, Hnext. cbn [replies_made consecutive_failures].
  repeat split.
  - intros id' user tweet_text reply' now Hm. apply in_app_or in Hm as [Hm | Hm].
    + apply (proj1 (forallb_forall _ _) Hq) in Hm. discriminate Hm.
    + exact (Hmark _ _ _ _ _ Hm).
  - destruct Hlog as [[Hs Hl] | [Hs Hl]]; [left | right];
      (split; [exact Hs | apply in_or_app; right; exact Hl]).
  - intros rest Hquota. cbn [while_loop].
    destruct (Z.ltb_spec (replies_made l) (max_replies_per_run self)); [| lia].
    rewrite Hc. cbn [next events bot vars]. rewrite Hbot, Hvars, Hnext. reflexivity.
Qed.

(** C9. [has_replied] answers [False] whenever its query raises, which it
    does when there is no connection, the connection is closed or the
    table is missing.  Then a tweet id the store has a row for passes the
    check: when such a tweet comes first in view and passes the filter,
    the iteration generates a reply to it and submits it. *)
Theorem dedup_fails_open :
  (forall d id e,
     Database.has_replied_query d id = Raise e -> Database.has_replied d id = false)
  /\ (forall d id,
        Database.conn d <> Database.Open \/ Database.replied_tweets d = None ->
        (exists e, Database.has_replied_query d id = Raise e)
        /\ Database.has_replied d id = false)
  /\ (forall self l inp post rest e,
        Database.has_replied_query (db self) (tweet_id post) = Raise e ->
        Database.rows_for (db self) (tweet_id post) <> [] ->
        scans inp 1%Z = Ok (Ok (Some post) :: rest) ->
        ReplyEngine.is_appropriate_tweet (text post) = true ->
        In (HasReplied (tweet_id post) false) (events (cycle self l inp))
        /\ exists reply_text,
             In (Generate (tweet_id post) (text post) (username post) (Ok reply_text))
                (events (cycle self l inp))
             /\ In (Submit (tweet_id post) (element post) reply_text (submit inp))
                   (events (cycle self l inp))).
Proof.
  split; [exact has_replied_fails_open |]. split.
  - intros d id Hbad. destruct (unreadable_raises d id Hbad) as [e He].
    split; [eauto | eapply has_replied_fails_open, He].
  - intros self l inp post rest e Hraise _ Hscan Happ.
    pose proof (has_replied_fails_open _ _ Hraise) as Hr.
    destruct (search_loop_first self inp Hscan Hr Happ) as [Hfound Hlog].
    unfold cycle. rewrite Hfound. cbn [events].
    destruct (reply_process_acts self (mk_locals (replies_made l) 0) inp post)
      as (reply_text & Hg & Hs).
    split; [apply in_or_app; left; exact Hlog |].
    exists reply_text. split; apply in_or_app; right; assumption.
Qed.

(** C10. [__init__] sets [last_reply_time] to 0 and an iteration changes
    it only when its submission succeeded.  So on a new bot, whatever its
    store holds, at times of day of 30 seconds or more: in any sequence
    of runs, a rate-limit check that makes the loop wait comes after a
    successful submission of this bot. *)
Theorem first_reply_not_rate_limited :
  (forall manual store engine, fresh (__init__ manual store engine))
  /\ (forall self l inp,
        last_reply_time (bot (cycle self l inp)) <> last_reply_time self ->
        submit inp = Ok true
        /\ exists id el reply_text,
             In (Submit id el reply_text (Ok true)) (events (cycle self l inp)))
  /\ (forall manual store engine interval runs,
        (forall run c, In run runs -> In c (cycles run) ->
           30 # 1 <= clock_rate_limit c) ->
        let tr := fst (run_continuous (__init__ manual store engine) interval runs) in
        forall pre e post,
          tr = pre ++ e :: post -> is_wait e = true ->
          existsb is_success pre = true).
Proof.
  split; [intros; split; reflexivity |]. split.
  - intros self l inp Hchange.
    destruct (cycle_cases self l inp)
      as [(e & _ & Hc) | [(_ & Hc) | (post & _ & _ & _ & Hc)]]; cbv zeta in *;
      rewrite Hc in *.
    + cbn [bot] in Hchange. congruence.
    + destruct (MAX_FAILURES <=? consecutive_failures l + 1)%Z; cbn [bot] in Hchange;
        congruence.
    + cbn [bot events] in *.
      destruct (reply_process_last_reply_time self (mk_locals (replies_made l) 0) inp post)
        as [_ Hs].
      specialize (Hs Hchange). split; [exact Hs |].
      destruct (reply_process_acts self (mk_locals (replies_made l) 0) inp post)
        as (reply_text & _ & Hin).
      rewrite Hs in Hin. exists (tweet_id post), (element post), reply_text.
      apply in_or_app. right. exact Hin.
  - intros manual store engine interval runs Hclock tr pre e post Htr Hw.
    assert (Hf : fresh (__init__ manual store engine)) by (split; reflexivity).
    destruct (@run_continuous_calm runs _ interval Hf Hclock) as [Hcalm _].
    fold tr in Hcalm. rewrite Htr in Hcalm. eapply calm_at; eassumption.
Qed.

(** *** Submissions, recordings and the quota *)

Lemma successes_app (a b : list event) :
  successes (a ++ b) = successes a ++ successes b.
Proof.
  induction a as [| e a IH]; [reflexivity |].
  destruct e; cbn [app successes]; try exact IH.
  destruct success as [[|] |]; cbn [app]; rewrite ?IH; reflexivity.
Qed.

Lemma records_app (a b : list event) : records (a ++ b) = records a ++ records b.
Proof.
  induction a as [| e a IH]; [reflexivity |].
  destruct e; cbn [app records]; rewrite ?IH; reflexivity.
Qed.

Lemma search_events_silent (tr : list event) :
  forallb search_event tr = true ->
  successes tr = [] /\ records tr = [] /\ filter is_submit tr = [].
Proof.
  induction tr as [| e tr IH]; [auto |].
  cbn [forallb]. intros H. apply andb_true_iff in H as [He Htr].
  destruct (IH Htr) as (Hs & Hr & Hf).
  destruct e; cbn in He; try discriminate; cbn; auto.
Qed.

(** What the reply process leaves: a success, recorded, or nothing. *)
Lemma reply_process_outcome (self : t) l inp post :
  let s := reply_process self l inp post in
  max_replies_per_run (bot s) = max_replies_per_run self
  /\ exists reply_text,
       (submit inp = Ok true
        /\ successes (events s) = [(tweet_id post, reply_text)]
        /\ records (events s) = [(tweet_id post, reply_text)]
        /\ db (bot s)
           = Database.mark_replied (db self) (tweet_id post) (username post)
               (text post) reply_text (clock_record inp)
        /\ replies_made (vars s) = (replies_made l + 1)%Z)
       \/ (submit inp <> Ok true
           /\ successes (events s) = [] /\ records (events s) = []
           /\ bot s = self /\ replies_made (vars s) = replies_made l).
Proof.
  cbv zeta.
  reply_cases; destruct (submit inp) as [[|] | e]; (split; [reflexivity |]);
    exists reply;
    first [ left; repeat split; reflexivity
          | right; repeat split; try reflexivity; discriminate ].
Qed.

Lemma cycle_counts (self : t) (l : locals) (inp : cycle_input) :
  let s := cycle self l inp in
  records (events s) = successes (events s)
  /\ replies_made (vars s)
     = (replies_made l + Z.of_nat (length (successes (events s))))%Z
  /\ (length (successes (events s)) <= 1)%nat
  /\ max_replies_per_run (bot s) = max_replies_per_run self.
Proof.
  cbv zeta. pose proof (search_loop_events self inp 10 0) as Hq.
  assert (Hquiet : forall more,
             forallb search_event more = true ->
             records (fst (search_loop self inp 10 0) ++ more) = []
             /\ successes (fst (search_loop self inp 10 0) ++ more) = []).
  { intros more Hm.
    destruct (@search_events_silent (fst (search_loop self inp 10 0) ++ more))
      as (Hs & Hr & _); [rewrite forallb_app, Hq, Hm; reflexivity | auto]. }
  destruct (cycle_cases self l inp)
    as [(e & _ & ->) | [(_ & ->) | (post & _ & _ & _ & ->)]]; cbv zeta.
  - cbn [events vars bot]. destruct (Hquiet [] eq_refl) as [Hr Hs].
    rewrite app_nil_r in Hr, Hs. rewrite Hr, Hs. cbn. repeat split; lia.
  - destruct (MAX_FAILURES <=? consecutive_failures l + 1)%Z;
      cbn [events vars bot replies_made]; rewrite <- ?app_assoc;
      [ destruct (Hquiet [Log WARNING "Could not find any suitable tweets after multiple scrolls";
                          Log ERROR "Too many failures finding tweets, aborting run"] eq_refl)
          as [Hr Hs]
      | destruct (Hquiet [Log WARNING "Could not find any suitable tweets after multiple scrolls"]
                    eq_refl) as [Hr Hs] ];
      cbn [app] in *; rewrite Hr, Hs; cbn; repeat split; lia.
  - cbn [events vars bot].
    destruct (search_events_silent _ Hq) as (Hs & Hr & _).
    rewrite records_app, successes_app, Hs, Hr. cbn [app].
    destruct (reply_process_outcome self (mk_locals (replies_made l) 0) inp post)
      as [Hmax [reply [(_ & Hsucc & Hrec & _ & Hn) | (_ & Hsucc & Hrec & _ & Hn)]]];
      rewrite Hsucc, Hrec, Hn, Hmax; cbn; repeat split; lia.
Qed.

Lemma while_loop_counts (inputs : list cycle_input) (self : t) (l : locals) :
  let r := while_loop self l inputs in
  records (run_events r) = successes (run_events r)
  /\ replies_made (run_vars r)
     = (replies_made l + Z.of_nat (length (successes (run_events r))))%Z
  /\ max_replies_per_run (run_bot r) = max_replies_per_run self
  /\ (replies_made (run_vars r) <= Z.max (replies_made l) (max_replies_per_run self))%Z
  /\ (run_status r = QuotaReached ->
      (max_replies_per_run self <= replies_made (run_vars r))%Z).
Proof.
  revert self l. induction inputs as [| inp rest IH]; intros self l; cbv zeta;
    cbn [while_loop];
    destruct (Z.ltb_spec (replies_made l) (max_replies_per_run self)) as [Hlt | Hge];
    try (cbn [run_events run_vars run_bot run_status records successes length];
         repeat split; try lia; discriminate).
  destruct (cycle_counts self l inp) as (Hrec & Hn & Hone & Hmax).
  destruct (next (cycle self l inp)); cbn [run_events run_vars run_bot run_status after];
    try (repeat split; try assumption; try lia; discriminate).
  destruct (IH (bot (cycle self l inp)) (vars (cycle self l inp)))
    as (Hrec' & Hn' & Hmax' & Hle' & Hq').
  rewrite records_app, successes_app, length_app, Hrec, Hrec', Hn', Hn, Hmax', Hmax in *.
  repeat split; try lia.
  intros Hs. specialize (Hq' Hs). lia.
Qed.

Lemma run_once_replies_made (self : t) (inp : run_input) :
  replies_made (run_vars (run_once self inp))
  = Z.of_nat (length (successes (run_events (run_once self inp)))).
Proof.
  unfold run_once.
  destruct (navigate inp) as [_ | e]; [| reflexivity].
  destruct (while_loop_counts (cycles inp) self (mk_locals 0 0)) as (_ & Hn & _).
  cbn [replies_made] in Hn.
  destruct (run_status (while_loop self (mk_locals 0 0) (cycles inp))) eqn:Hs;
    cbn [after run_status]; rewrite ?Hs; cbn [after run_events run_vars];
    rewrite ?successes_app; cbn [successes app];
    rewrite ?app_nil_r, Hn; reflexivity.
Qed.

(** X10. In every run the recordings are exactly the successful
    submissions, with the same tweet ids and reply texts in the same
    order, and the number [run_once] returns is their number. *)
Theorem run_once_records (self : t) (inp : run_input) :
  let r := run_once self inp in
  records (run_events r) = successes (run_events r)
  /\ replies_made (run_vars r) = Z.of_nat (length (successes (run_events r))).
Proof.
  cbv zeta. unfold run_once.
  destruct (navigate inp) as [_ | e]; [| split; reflexivity].
  destruct (while_loop_counts (cycles inp) self (mk_locals 0 0)) as (Hrec & Hn & _).
  cbn [replies_made] in Hn.
  destruct (run_status (while_loop self (mk_locals 0 0) (cycles inp))) eqn:Hs;
    cbn [after run_status]; rewrite ?Hs; cbn [after run_events run_vars];
    rewrite ?records_app, ?successes_app; cbn [records successes app];
    rewrite ?app_nil_r, Hrec, Hn; split; reflexivity.
Qed.

Lemma run_once_loop (self : t) (inp : run_input) :
  navigate inp = Ok tt ->
  run_status (run_once self inp)
  = run_status (while_loop self (mk_locals 0 0) (cycles inp))
  /\ run_vars (run_once self inp)
     = run_vars (while_loop self (mk_locals 0 0) (cycles inp))
  /\ run_bot (run_once self inp)
     = run_bot (while_loop self (mk_locals 0 0) (cycles inp)).
Proof.
  intros Hnav. unfold run_once. rewrite Hnav.
  destruct (run_status (while_loop self (mk_locals 0 0) (cycles inp))) eqn:Hs;
    cbn [after run_status]; rewrite Hs; cbn [after run_status run_vars run_bot];
    rewrite ?Hs; auto.
Qed.

(** X11. A run makes at most [max_replies_per_run] successful
    submissions (none when the quota is zero or negative); it ends on the
    quota only when the quota is reached, and with a quota of zero or
    less it does not look at the feed at all. *)
Theorem run_once_quota (self : t) (inp : run_input) :
  let r := run_once self inp in
  (Z.of_nat (length (successes (run_events r)))
   <= Z.max 0 (max_replies_per_run self))%Z
  /\ (run_status r = QuotaReached ->
      (max_replies_per_run self <= Z.of_nat (length (successes (run_events r))))%Z)
  /\ ((max_replies_per_run self <= 0)%Z ->
      filter is_scan (run_events r) = [] /\ successes (run_events r) = []).
Proof.
  cbv zeta.
  rewrite <- (run_once_replies_made self inp).
  destruct (navigate inp) as [[] | e] eqn:Hnav.
  - destruct (run_once_loop self inp Hnav) as (Hstatus & Hvars & _).
    rewrite Hstatus, Hvars.
    destruct (while_loop_counts (cycles inp) self (mk_locals 0 0))
      as (_ & _ & _ & Hle & Hq).
    cbn [replies_made] in Hle.
    split; [exact Hle |]. split; [exact Hq |].
    intros Hzero.
    assert (Hloop : while_loop self (mk_locals 0 0) (cycles inp)
                    = mk_run [] self (mk_locals 0 0) QuotaReached).
    { destruct (cycles inp) as [| c rest]; cbn [while_loop replies_made];
        destruct (Z.ltb_spec 0 (max_replies_per_run self)); try lia; reflexivity. }
    unfold run_once. rewrite Hnav, Hloop. cbn. auto.
  - unfold run_once. rewrite Hnav.
    cbn [run_vars run_status run_events replies_made filter is_scan successes].
    repeat split; try lia; discriminate.
Qed.

(** *** The search *)

Lemma select_none (self : t) (visible : list (result (option post_data))) :
  snd (select self visible) = None ->
  forallb (fun el => negb (eligible self el)) visible = true.
Proof.
  induction visible as [| el rest IH]; [reflexivity |].
  cbn [select]. destruct el as [[p |] | e].
  - destruct (Database.has_replied (db self) (tweet_id p)) eqn:Hr.
    + cbn [prepend snd]. intros H. cbn [forallb eligible]. rewrite Hr. exact (IH H).
    + destruct (ReplyEngine.is_appropriate_tweet (text p)) eqn:Ha; cbn [negb prepend snd];
        [discriminate |].
      intros H. cbn [forallb eligible]. rewrite Hr, Ha. exact (IH H).
  - cbn [prepend snd]. intros H. exact (IH H).
  - cbn [prepend snd]. intros H. exact (IH H).
Qed.

(** X12. [select] takes the first eligible element of the view, in the
    order it is given: every element before the one selected has no data,
    is answered [True] by the store or fails the filter; and it selects
    nothing only when no element of the view is eligible. *)
Theorem select_first_eligible (self : t) (visible : list (result (option post_data))) :
  match snd (select self visible) with
  | Some post =>
      exists before after,
        visible = before ++ Ok (Some post) :: after
        /\ forallb (fun el => negb (eligible self el)) before = true
        /\ eligible self (Ok (Some post)) = true
  | None => forallb (fun el => negb (eligible self el)) visible = true
  end.
Proof.
  induction visible as [| el rest IH]; [reflexivity |].
  assert (Hskip : eligible self el = false ->
            snd (select self (el :: rest)) = snd (select self rest) ->
            match snd (select self (el :: rest)) with
            | Some post =>
                exists before after,
                  el :: rest = before ++ Ok (Some post) :: after
                  /\ forallb (fun x => negb (eligible self x)) before = true
                  /\ eligible self (Ok (Some post)) = true
            | None => forallb (fun x => negb (eligible self x)) (el :: rest) = true
            end).
  { intros Hel ->. destruct (snd (select self rest)) as [post |].
    - destruct IH as (before & after & -> & Hb & Hp).
      exists (el :: before), after. cbn [app forallb]. rewrite Hel, Hb. auto.
    - cbn [forallb]. rewrite Hel, IH. reflexivity. }
  destruct el as [[p |] | e]; try (apply Hskip; reflexivity).
  destruct (Database.has_replied (db self) (tweet_id p)) eqn:Hr.
  - apply Hskip; [cbn; rewrite Hr; reflexivity | cbn [select]; rewrite Hr; reflexivity].
  - destruct (ReplyEngine.is_appropriate_tweet (text p)) eqn:Ha.
    + cbn [select]. rewrite Hr, Ha. cbn [negb snd].
      exists [], rest. cbn. rewrite Hr, Ha. auto.
    + apply Hskip; [cbn; rewrite Hr, Ha; reflexivity
                   | cbn [select]; rewrite Hr, Ha; reflexivity].
Qed.

Lemma select_no_scan (self : t) visible :
  filter is_scan (fst (select self visible)) = []
  /\ filter is_scroll (fst (select self visible)) = [].
Proof.
  induction visible as [| el rest [IH1 IH2]]; [auto |].
  cbn [select]. destruct el as [[p |] | e]; try (cbn; auto; fail).
  destruct (Database.has_replied (db self) (tweet_id p)); [cbn; auto; fail |].
  destruct (ReplyEngine.is_appropriate_tweet (text p)); cbn; auto.
Qed.

Lemma search_loop_bound (self : t) inp remaining search_attempts :
  let search := search_loop self inp remaining search_attempts in
  (length (filter is_scan (fst search)) <= remaining)%nat
  /\ length (filter is_scroll (fst search)) = length (filter is_scan (fst search))
  /\ (snd search = Ok None ->
      length (filter is_scan (fst search)) = remaining
      /\ forall k, (search_attempts < k <= search_attempts + Z.of_nat remaining)%Z ->
           exists visible,
             scans inp k = Ok visible
             /\ forallb (fun el => negb (eligible self el)) visible = true).
Proof.
  cbv zeta. revert search_attempts.
  induction remaining as [| remaining IH]; intros k.
  - cbn. repeat split; auto. intros j Hj. lia.
  - cbn [search_loop].
    destruct (scans inp (k + 1)%Z) as [visible | e] eqn:Hscan;
      [| cbn; repeat split; try lia; discriminate].
    destruct (select_no_scan self visible) as [Hns Hnr].
    pose proof (select_none self visible) as Hfirst.
    destruct (snd (select self visible)) as [p |]; unfold prepend; cbn [fst snd];
      [| specialize (Hfirst eq_refl)].
    + cbn [filter is_scan is_scroll]. rewrite Hns, Hnr. cbn.
      repeat split; try lia; discriminate.
    + destruct (IH (k + 1)%Z) as (Hle & Heq & Hnone).
      rewrite !filter_app. cbn [filter is_scan is_scroll].
      rewrite !filter_app, Hns, Hnr. cbn [filter is_scan is_scroll app length].
      split; [lia | split; [lia |]].
      intros Hs. destruct (Hnone Hs) as [Hlen Hviews]. split; [lia |].
      intros j Hj.
      destruct (Z.eq_dec j (k + 1)) as [-> | Hne]; [eauto |].
      apply Hviews. lia.
Qed.

Lemma reply_process_no_scan (self : t) l inp post :
  filter is_scan (events (reply_process self l inp post)) = []
  /\ filter is_scroll (events (reply_process self l inp post)) = [].
Proof. reply_cases; destruct (submit inp) as [[|] | e]; split; reflexivity. Qed.

(** X13. An iteration looks at the feed at most 10 times, each time
    after one scroll.  When it fails to select a candidate it has looked
    exactly 10 times, at the views of the search attempts 1 to 10, and
    none of them showed an eligible element. *)
Theorem search_bound (self : t) (l : locals) (inp : cycle_input) :
  let tr := events (cycle self l inp) in
  (length (filter is_scan tr) <= 10)%nat
  /\ length (filter is_scroll tr) = length (filter is_scan tr)
  /\ (snd (search_loop self inp 10 0) = Ok None ->
      length (filter is_scan tr) = 10%nat
      /\ forall k, (1 <= k <= 10)%Z ->
           exists visible,
             scans inp k = Ok visible
             /\ forallb (fun el => negb (eligible self el)) visible = true).
Proof.
  cbv zeta.
  destruct (search_loop_bound self inp 10 0) as (Hle & Heq & Hnone). cbv zeta in *.
  assert (Hsame : filter is_scan (events (cycle self l inp))
                  = filter is_scan (fst (search_loop self inp 10 0))
                  /\ filter is_scroll (events (cycle self l inp))
                     = filter is_scroll (fst (search_loop self inp 10 0))).
  { destruct (cycle_cases self l inp)
      as [(e & _ & ->) | [(_ & ->) | (post & _ & _ & _ & ->)]]; cbv zeta.
    - auto.
    - destruct (MAX_FAILURES <=? consecutive_failures l + 1)%Z; cbn [events];
        rewrite !filter_app; cbn [filter is_scan is_scroll]; rewrite !app_nil_r; auto.
    - cbn [events]. rewrite !filter_app.
      destruct (reply_process_no_scan self (mk_locals (replies_made l) 0) inp post)
        as [-> ->].
      rewrite !app_nil_r. auto. }
  destruct Hsame as [-> ->]. split; [exact Hle | split; [exact Heq |]].
  intros Hs. destruct (Hnone Hs) as [Hlen Hviews]. split; [exact Hlen |].
  intros k Hk. apply Hviews. lia.
Qed.

(** *** One successful reply per tweet *)










(** *** The spacing of submissions *)



(** *** Manual approval *)




(** *** Starting and cleaning up *)




End WithUnicode.
End BotFacts.

(** ** The action performer *)

Module ActionFacts.
Import PyStr ActionPerformer.

Lemma find_reply_button_inv (find_element : str -> lookup) (selectors : list str)
    (held result : option button) :
  find_reply_button find_element selectors held = Ok result ->
  (result = held /\ forall s, In s selectors -> find_element s = NoSuchElement)
  \/ exists b before selector after,
       result = Some b
       /\ selectors = before ++ selector :: after
       /\ find_element selector = Found b
       /\ (forall s, In s before ->
             find_element s = NoSuchElement
             \/ exists hidden, find_element s = Found hidden
                               /\ is_displayed hidden = Ok false)
       /\ (is_displayed b = Ok true
           \/ is_displayed b = Ok false
              /\ forall s, In s after -> find_element s = NoSuchElement).
Proof.
  revert held. induction selectors as [| sel rest IH]; intros held; cbn [find_reply_button].
  - intros [= <-]. left. split; [reflexivity | intros s []].
  - destruct (find_element sel) as [| b | e] eqn:Hsel; [| | discriminate].
    + intros H. destruct (IH held H)
        as [[-> Hall] | (b & before & selector & after & -> & -> & Hf & Hb & Hd)].
      * left. split; [reflexivity |]. intros s [<- | Hs]; auto.
      * right. exists b, (sel :: before), selector, after.
        repeat split; auto. intros s [<- | Hs]; auto.
    + destruct (is_displayed b) as [[|] | e] eqn:Hshown; cbn [bind]; [| | discriminate].
      * intros [= <-]. right. exists b, [], sel, rest.
        repeat split; auto. intros s [].
      * intros H. destruct (IH (Some b) H)
          as [[-> Hall] | (b' & before & selector & after & -> & -> & Hf & Hb & Hd)].
        -- right. exists b, [], sel, rest. repeat split; auto. intros s [].
        -- right. exists b', (sel :: before), selector, after.
           repeat split; auto. intros s [<- | Hs]; eauto.
Qed.

(** X18. [click_reply_button] clicks the button of the first selector that
    finds a displayed one; when the selectors find buttons but none is
    displayed it clicks the last one found although it is hidden; it
    answers [True] exactly when it clicked without an exception, and
    [False] without clicking when no selector finds a button. *)
Theorem reply_button_choice (find_element : str -> lookup) :
  (forall b,
     snd (click_reply_button find_element) = Some b ->
     fst (click_reply_button find_element)
     = match click b with Ok _ => true | Raise _ => false end
     /\ exists before selector after,
          reply_selectors = before ++ selector :: after
          /\ find_element selector = Found b
          /\ (forall s, In s before ->
                find_element s = NoSuchElement
                \/ exists hidden, find_element s = Found hidden
                                  /\ is_displayed hidden = Ok false)
          /\ (is_displayed b = Ok true
              \/ is_displayed b = Ok false
                 /\ forall s, In s after -> find_element s = NoSuchElement))
  /\ (snd (click_reply_button find_element) = None ->
      fst (click_reply_button find_element) = false)
  /\ ((forall s, In s reply_selectors -> find_element s = NoSuchElement) ->
      click_reply_button find_element = (false, None)).
Proof.
  unfold click_reply_button. split; [| split].
  - intros b.
    destruct (find_reply_button find_element reply_selectors None) as [[held |] | e] eqn:H;
      try discriminate.
    destruct (find_reply_button_inv _ _ _ H)
      as [[Hnone _] | (b' & before & selector & after & Hb & Hsel & Hf & Hbefore & Hd)];
      [discriminate |].
    injection Hb as ->.
    destruct (click b') eqn:Hclick; cbn [fst snd]; intros [= <-]; rewrite Hclick;
      (split; [reflexivity |]); exists before, selector, after; auto.
  - destruct (find_reply_button find_element reply_selectors None) as [[held |] | e];
      [destruct (click held) |..]; cbn; congruence.
  - intros Hall. cbn [reply_selectors find_reply_button].
    rewrite !Hall by (cbn; auto 6). reflexivity.
Qed.

End ActionFacts.

(** ** The post fetcher *)

Module FetcherFacts.
Import PyStr PostFetcher StrFacts StoreFacts.

Section WithDigits.
Variable uni_isdecimal : codepoint -> bool.

Lemma startswith_split (p s : str) :
  startswith p s = true -> s = p ++ skipn (length p) s.
Proof.
  revert s. induction p as [| a p IH]; intros s; [reflexivity |].
  destruct s as [| b s]; [discriminate |]. cbn [startswith length skipn app].
  intros H. apply andb_true_iff in H as [Hab Hp]. apply N.eqb_eq in Hab. subst b.
  f_equal. apply IH, Hp.
Qed.

Lemma take_digits_spec (s : str) :
  exists rest,
    s = take_digits uni_isdecimal s ++ rest
    /\ forallb (is_digit uni_isdecimal) (take_digits uni_isdecimal s) = true
    /\ is_digit uni_isdecimal (hd 0%N rest) = false.
Proof.
  induction s as [| c s (rest & Hs & Hd & Hr)].
  - exists []. repeat split.
  - cbn [take_digits]. destruct (is_digit uni_isdecimal c) eqn:Hc.
    + exists rest. cbn [app forallb]. rewrite Hc, Hd. repeat split; [f_equal; exact Hs | exact Hr].
    + exists (c :: s). repeat split. exact Hc.
Qed.

Lemma search_status_spec (s id : str) :
  search_status uni_isdecimal s = Some id ->
  id <> [] /\ forallb (is_digit uni_isdecimal) id = true
  /\ exists before rest,
       s = before ++ lit "/status/" ++ id ++ rest
       /\ is_digit uni_isdecimal (hd 0%N rest) = false.
Proof.
  assert (Hhere : forall t, match_status_here uni_isdecimal t = Some id ->
            id <> [] /\ forallb (is_digit uni_isdecimal) id = true
            /\ exists rest, t = lit "/status/" ++ id ++ rest
                            /\ is_digit uni_isdecimal (hd 0%N rest) = false).
  { intros t. unfold match_status_here.
    destruct (startswith (lit "/status/") t) eqn:Hp; [| discriminate].
    apply startswith_split in Hp. change (length (lit "/status/")) with 8%nat in Hp.
    destruct (take_digits_spec (skipn 8 t)) as (rest & Hs & Hd & Hr).
    destruct (take_digits uni_isdecimal (skipn 8 t)) as [| d ds] eqn:E; [discriminate |].
    intros [= <-]. split; [discriminate |]. split; [exact Hd |].
    exists rest. split; [| exact Hr]. rewrite <- Hs. exact Hp. }
  induction s as [| c s IH]; cbn [search_status].
  - destruct (match_status_here uni_isdecimal []) eqn:E; [| discriminate].
    intros [= ->]. destruct (Hhere _ E) as (Hn & Hd & rest & Hs & Hr).
    repeat split; auto. exists [], rest. auto.
  - destruct (match_status_here uni_isdecimal (c :: s)) eqn:E.
    + intros [= ->]. destruct (Hhere _ E) as (Hn & Hd & rest & Hs & Hr).
      repeat split; auto. exists [], rest. auto.
    + intros H. destruct (IH H) as (Hn & Hd & before & rest & Hs & Hr).
      repeat split; auto. exists (c :: before), rest. cbn [app]. rewrite <- Hs. auto.
Qed.

Lemma scan_links_spec (found : list (result (option str))) (id : str) :
  scan_links uni_isdecimal found = Ok (Some id) ->
  exists href, In (Ok (Some href)) found /\ search_status uni_isdecimal href = Some id.
Proof.
  induction found as [| link rest IH]; cbn [scan_links]; [discriminate |].
  assert (Hrest : scan_links uni_isdecimal rest = Ok (Some id) ->
            exists href, In (Ok (Some href)) (link :: rest)
                         /\ search_status uni_isdecimal href = Some id).
  { intros H. destruct (IH H) as (href & Hin & Hs). exists href. auto using in_cons. }
  destruct link as [[href |] | e]; [| exact Hrest | discriminate].
  destruct (negb (eqb href []) && contains (lit "/status/") href); [| exact Hrest].
  destruct (search_status uni_isdecimal href) as [found_id |] eqn:Hs; [| exact Hrest].
  intros [= ->]. exists href. auto using in_eq.
Qed.

Lemma tweet_id_nonempty (a : article) (id : str) :
  extract_tweet_id uni_isdecimal a = Some id ->
  id <> [] /\ forallb (is_digit uni_isdecimal) id = true.
Proof.
  unfold extract_tweet_id. destruct (links a) as [found | e]; cbn [bind]; [| discriminate].
  destruct (scan_links uni_isdecimal found) as [[id' |] | e] eqn:Hscan; try discriminate.
  intros [= ->]. destruct (scan_links_spec _ Hscan) as (href & _ & Hs).
  destruct (search_status_spec _ Hs) as (Hn & Hd & _). auto.
Qed.

Lemma match_status_here_none (t : str) :
  match_status_here uni_isdecimal t = None ->
  forall d r, t = lit "/status/" ++ d :: r -> is_digit uni_isdecimal d = false.
Proof.
  intros H d r ->. unfold match_status_here in H.
  rewrite startswith_app in H.
  change (skipn 8 (lit "/status/" ++ d :: r)) with (d :: r) in H.
  cbn [take_digits] in H. destruct (is_digit uni_isdecimal d); [discriminate | reflexivity].
Qed.

(** When the search finds nothing, no [/status/] of the string is followed
    by a digit. *)
Lemma search_status_none (s : str) :
  search_status uni_isdecimal s = None ->
  forall b d r, s = b ++ lit "/status/" ++ d :: r -> is_digit uni_isdecimal d = false.
Proof.
  induction s as [| c s IH]; cbn [search_status];
    destruct (match_status_here uni_isdecimal _) eqn:E; try discriminate.
  - intros _ b d r Hs. destruct b; discriminate.
  - intros H b d r Hs. destruct b as [| c' b].
    + eapply match_status_here_none; [exact E | exact Hs].
    + injection Hs as _ Hs. exact (IH H b d r Hs).
Qed.

(** The match the search returns is the leftmost one. *)
Lemma search_status_leftmost (s id : str) :
  search_status uni_isdecimal s = Some id ->
  exists before rest,
    s = before ++ lit "/status/" ++ id ++ rest
    /\ is_digit uni_isdecimal (hd 0%N rest) = false
    /\ forall b d r,
         s = b ++ lit "/status/" ++ d :: r -> is_digit uni_isdecimal d = true ->
         (length before <= length b)%nat.
Proof.
  assert (Hhere : forall t, match_status_here uni_isdecimal t = Some id ->
            exists rest, t = lit "/status/" ++ id ++ rest
                         /\ is_digit uni_isdecimal (hd 0%N rest) = false).
  { intros t. unfold match_status_here.
    destruct (startswith (lit "/status/") t) eqn:Hp; [| discriminate].
    apply startswith_split in Hp. change (length (lit "/status/")) with 8%nat in Hp.
    destruct (take_digits_spec (skipn 8 t)) as (rest & Hs & Hd & Hr).
    destruct (take_digits uni_isdecimal (skipn 8 t)) as [| d ds] eqn:E; [discriminate |].
    intros [= <-]. exists rest. split; [| exact Hr]. rewrite <- Hs. exact Hp. }
  induction s as [| c s IH]; cbn [search_status].
  - destruct (match_status_here uni_isdecimal []) eqn:E; [| discriminate].
    intros [= ->]. destruct (Hhere _ E) as (rest & Hs & Hr).
    exists [], rest. repeat split; auto. intros. cbn. lia.
  - destruct (match_status_here uni_isdecimal (c :: s)) eqn:E.
    + intros [= ->]. destruct (Hhere _ E) as (rest & Hs & Hr).
      exists [], rest. repeat split; auto. intros. cbn. lia.
    + intros H. destruct (IH H) as (before & rest & Hs & Hr & Hleft).
      exists (c :: before), rest. split; [cbn [app]; rewrite <- Hs; reflexivity |].
      split; [exact Hr |].
      intros b d r Hb Hd. destruct b as [| c' b].
      * rewrite (@match_status_here_none _ E d r Hb) in Hd. discriminate.
      * injection Hb as _ Hb. cbn [length]. apply le_n_S. exact (Hleft b d r Hb Hd).
Qed.

Lemma search_status_contains (s id : str) :
  search_status uni_isdecimal s = Some id -> contains (lit "/status/") s = true.
Proof.
  intros H. destruct (search_status_spec _ H) as (_ & _ & before & rest & -> & _).
  apply contains_app.
Qed.

(** The link the loop returns from is the first one whose [href] has a
    match; no link before it raised. *)
Lemma scan_links_first (found : list (result (option str))) (id : str) :
  scan_links uni_isdecimal found = Ok (Some id) ->
  exists earlier href later,
    found = earlier ++ Ok (Some href) :: later
    /\ search_status uni_isdecimal href = Some id
    /\ forall link, In link earlier ->
         link = Ok None
         \/ exists h, link = Ok (Some h) /\ search_status uni_isdecimal h = None.
Proof.
  induction found as [| link rest IH]; cbn [scan_links]; [discriminate |].
  assert (Hrest : (link = Ok None
                   \/ exists h, link = Ok (Some h)
                                /\ search_status uni_isdecimal h = None) ->
            scan_links uni_isdecimal rest = Ok (Some id) ->
            exists earlier href later,
              link :: rest = earlier ++ Ok (Some href) :: later
              /\ search_status uni_isdecimal href = Some id
              /\ forall l, In l earlier ->
                   l = Ok None
                   \/ exists h, l = Ok (Some h) /\ search_status uni_isdecimal h = None).
  { intros Hlink H. destruct (IH H) as (earlier & href & later & -> & Hs & Hearlier).
    exists (link :: earlier), href, later. repeat split; [exact Hs |].
    intros l [<- | Hl]; auto. }
  destruct link as [[href |] | e]; [| apply Hrest; auto | discriminate].
  destruct (search_status uni_isdecimal href) as [found_id |] eqn:Hs.
  - rewrite (search_status_contains _ Hs), andb_true_r.
    destruct href as [| c href]; [discriminate |].
    change (negb (eqb (c :: href) [])) with true. cbv iota.
    intros [= ->]. exists [], (c :: href), rest. repeat split; [exact Hs |].
    intros l [].
  - intros H. apply Hrest; [right; eauto |].
    destruct (negb (eqb href []) && contains (lit "/status/") href); exact H.
Qed.

(** X19. A tweet id that [extract_tweet_id] returns is a non-empty string
    of decimal digits: the longest run of digits that follows the
    leftmost [/status/] followed by a digit, in the [href] of the first
    link of the article that has such a place; no link before that one
    raised. *)
Theorem extract_tweet_id_digits (a : article) (id : str) :
  extract_tweet_id uni_isdecimal a = Some id ->
  id <> [] /\ forallb (is_digit uni_isdecimal) id = true
  /\ exists earlier href later before rest,
       links a = Ok (earlier ++ Ok (Some href) :: later)
       /\ href = before ++ lit "/status/" ++ id ++ rest
       /\ is_digit uni_isdecimal (hd 0%N rest) = false
       /\ (forall b d r,
             href = b ++ lit "/status/" ++ d :: r -> is_digit uni_isdecimal d = true ->
             (length before <= length b)%nat)
       /\ (forall link, In link earlier ->
             link = Ok None
             \/ exists h,
                  link = Ok (Some h)
                  /\ forall b d r,
                       h = b ++ lit "/status/" ++ d :: r ->
                       is_digit uni_isdecimal d = false).
Proof.
  unfold extract_tweet_id. destruct (links a) as [found | e]; cbn [bind]; [| discriminate].
  destruct (scan_links uni_isdecimal found) as [[id' |] | e] eqn:Hscan; try discriminate.
  intros [= ->].
  destruct (scan_links_first _ Hscan) as (earlier & href & later & -> & Hs & Hearlier).
  destruct (search_status_spec _ Hs) as (Hn & Hd & _).
  destruct (search_status_leftmost _ Hs) as (before & rest & Hhref & Hr & Hleft).
  split; [exact Hn |]. split; [exact Hd |].
  exists earlier, href, later, before, rest.
  split; [reflexivity |]. split; [exact Hhref |]. split; [exact Hr |].
  split; [exact Hleft |].
  intros link Hin. destruct (Hearlier link Hin) as [-> | (h & -> & Hnone)]; [auto |].
  right. exists h. split; [reflexivity |]. intros b d r Hh.
  eapply search_status_none; [exact Hnone | exact Hh].
Qed.

(** X20. Post data that [extract_post_data] returns has the tweet id that
    [extract_tweet_id] found, a non-empty string of digits; the text that
    [extract_tweet_text] found, of at least 10 characters; and a
    user name that is never empty, the one [extract_username] found or
    [unknown]. *)
Theorem extract_post_data_valid (a : article) (d : post_dict) :
  extract_post_data uni_isdecimal a = Some d ->
  extract_tweet_id uni_isdecimal a = Some (tweet_id d)
  /\ tweet_id d <> [] /\ forallb (is_digit uni_isdecimal) (tweet_id d) = true
  /\ extract_tweet_text a = Some (text d) /\ (10 <= len (text d))%Z
  /\ username d <> []
  /\ (extract_username a = Some (username d)
      \/ username d = lit "unknown"
         /\ (extract_username a = None \/ extract_username a = Some []))
  /\ element d = handle a /\ already_replied d = false.
Proof.
  unfold extract_post_data.
  destruct (extract_tweet_id uni_isdecimal a) as [[| c id] |] eqn:Hid; try discriminate.
  destruct (tweet_id_nonempty _ Hid) as (Hn & Hd).
  destruct (extract_tweet_text a) as [[| t body] |]; try discriminate.
  destruct (Z.ltb_spec (len (t :: body)) 10); [discriminate |].
  intros [= <-]. cbn [tweet_id text username element already_replied].
  repeat split; auto.
  - destruct (extract_username a) as [[| n name] |]; discriminate.
  - destruct (extract_username a) as [[| n name] |]; auto.
Qed.

Lemma existsb_eqb_false (id : str) (seen : list str) :
  existsb (eqb id) seen = false -> ~ In id seen.
Proof.
  intros H Hin. assert (Hex : existsb (eqb id) seen = true).
  { apply existsb_exists. exists id. split; [exact Hin | apply eqb_refl]. }
  congruence.
Qed.

Lemma collect_spec (max_posts : Z) (articles : list article) (posts : list post_dict) :
  NoDup (map tweet_id posts) ->
  (Z.of_nat (length posts) <= Z.max 0 max_posts)%Z ->
  let out := collect uni_isdecimal max_posts (map tweet_id posts) posts articles in
  NoDup (map tweet_id out)
  /\ (Z.of_nat (length out) <= Z.max 0 max_posts)%Z
  /\ forall p, In p out ->
       In p posts
       \/ exists a, In a articles /\ extract_post_data uni_isdecimal a = Some p.
Proof.
  revert posts. induction articles as [| a rest IH]; intros posts Hnd Hlen; cbv zeta.
  - cbn [collect]. rewrite map_rev, length_rev. repeat split.
    + apply NoDup_rev, Hnd.
    + exact Hlen.
    + intros p Hp. left. apply in_rev, Hp.
  - cbn [collect].
    destruct (Z.leb_spec max_posts (Z.of_nat (length posts))) as [Hfull | Hroom].
    + rewrite map_rev, length_rev. repeat split.
      * apply NoDup_rev, Hnd.
      * exact Hlen.
      * intros p Hp. left. apply in_rev, Hp.
    + assert (Hskip :
        let out := collect uni_isdecimal max_posts (map tweet_id posts) posts rest in
        NoDup (map tweet_id out)
        /\ (Z.of_nat (length out) <= Z.max 0 max_posts)%Z
        /\ forall p, In p out ->
             In p posts
             \/ exists a', In a' (a :: rest)
                           /\ extract_post_data uni_isdecimal a' = Some p).
      { destruct (IH posts Hnd Hlen) as (H1 & H2 & H3). repeat split; auto.
        intros p Hp. destruct (H3 p Hp) as [Hin | (a' & Ha' & He)]; eauto using in_cons. }
      destruct (extract_post_data uni_isdecimal a) as [post_data |] eqn:He; [| exact Hskip].
      destruct (existsb (eqb (tweet_id post_data)) (map tweet_id posts)) eqn:Hseen;
        [exact Hskip |].
      change (tweet_id post_data :: map tweet_id posts)
        with (map tweet_id (post_data :: posts)).
      destruct (IH (post_data :: posts)) as (H1 & H2 & H3).
      * cbn [map]. constructor; [apply existsb_eqb_false, Hseen | exact Hnd].
      * cbn [length]. lia.
      * repeat split; auto. intros p Hp.
        destruct (H3 p Hp) as [[<- | Hin] | (a' & Ha' & He')]; eauto using in_eq, in_cons.
Qed.

(** X21. [fetch_posts] returns at most [max_posts] posts (none for a
    limit of zero or less), no two of them with the same tweet id, each
    the post data of a visible article; and it returns the empty list
    when waiting for the feed, scrolling or reading the feed raises. *)
Theorem fetch_posts_bounds (max_posts : Z) (scroll_first : bool)
    (wait scroll : result unit) (visible : result (list article)) :
  let posts := fetch_posts uni_isdecimal max_posts scroll_first wait scroll visible in
  NoDup (map tweet_id posts)
  /\ (Z.of_nat (length posts) <= Z.max 0 max_posts)%Z
  /\ (forall p, In p posts ->
        exists articles a,
          visible = Ok articles /\ In a articles
          /\ extract_post_data uni_isdecimal a = Some p)
  /\ (is_raise wait = true \/ scroll_first && is_raise scroll = true
      \/ is_raise visible = true -> posts = []).
Proof.
  cbv zeta. unfold fetch_posts.
  assert (Hnone : NoDup (map tweet_id (@nil post_dict))
                  /\ (Z.of_nat (length (@nil post_dict)) <= Z.max 0 max_posts)%Z
                  /\ (forall p, In p (@nil post_dict) ->
                        exists articles a,
                          visible = Ok articles /\ In a articles
                          /\ extract_post_data uni_isdecimal a = Some p)
                  /\ (is_raise wait = true \/ scroll_first && is_raise scroll = true
                      \/ is_raise visible = true -> @nil post_dict = [])).
  { repeat split; [constructor | cbn; lia | intros p []]. }
  destruct wait as [[] | e]; cbn [bind]; [| exact Hnone].
  destruct (if scroll_first then scroll else Ok tt) as [[] | e] eqn:Hscroll; cbn [bind];
    [| exact Hnone].
  destruct visible as [articles | e]; cbn [bind]; [| exact Hnone].
  destruct (@collect_spec max_posts articles [] ltac:(constructor) ltac:(cbn; lia))
    as (H1 & H2 & H3).
  cbn [map] in *. repeat split; auto.
  - intros p Hp. destruct (H3 p Hp) as [[] | (a & Ha & He)]. eauto.
  - intros [H | [H | H]]; try discriminate.
    destruct scroll_first; [| discriminate]. subst scroll. discriminate.
Qed.

End WithDigits.
End FetcherFacts.

(** ** The properties on sample data *)

Module OnSamples.
Import PyStr Bot Samples.

Lemma generate_reply_length_bound_witness :
  let backend := fun (_ : str) (_ : Z) => ReplyEngine.Body (Some long_response) in
  let raw := long_response in
  (ReplyEngine._query_ollama (backend [] 0%Z) = Some raw
   /\ raw <> []
   /\ (200 < len (ReplyEngine.clean (U := ascii_only) raw))%Z
   /\ contains (lit ".") (slice None (Some 197%Z) (ReplyEngine.clean (U := ascii_only) raw))
      = false)
  /\ ReplyEngine.generate_reply (U := ascii_only) engine backend 0 (lit "hello") None
     = Ok (slice None (Some 197%Z) (ReplyEngine.clean (U := ascii_only) raw) ++ lit "...").
Proof.
  intros backend raw.
  assert (Hq : ReplyEngine._query_ollama
                 (backend (ReplyEngine._format_prompt_for_gemma
                             (ReplyEngine.system_instruction engine) (lit "hello")) 0%Z)
               = Some raw) by reflexivity.
  assert (Hraw : raw <> []) by discriminate.
  assert (Hlong : (200 < len (ReplyEngine.clean (U := ascii_only) raw))%Z)
    by (vm_compute; reflexivity).
  assert (Hno : contains (lit ".")
                  (slice None (Some 197%Z) (ReplyEngine.clean (U := ascii_only) raw))
                = false) by (vm_compute; reflexivity).
  split; [repeat split; assumption |].
  exact (proj1 (proj1 (proj2 (EngineFacts.generate_reply_length_bound (U := ascii_only)))
                  engine backend 0%nat (lit "hello") None raw Hq Hraw Hlong Hno)).
Defined.

Lemma fallback_guarantee_witness :
  (forall attempt, (0 <= attempt < ReplyEngine.max_retries)%Z ->
     is_raise
       (ReplyEngine.attempt_body (U := ascii_only)
          (backend_down
             (ReplyEngine._format_prompt_for_gemma
                (ReplyEngine.system_instruction engine) (lit "hello"))
             attempt)) = true)
  /\ exists phrase,
       ReplyEngine.generate_reply (U := ascii_only) engine backend_down 3 (lit "hello") None
       = Ok phrase
       /\ nth_error ReplyEngine.fallbacks (3 mod length ReplyEngine.fallbacks) = Some phrase
       /\ In phrase ReplyEngine.fallbacks
       /\ phrase <> [].
Proof.
  assert (Hfail : forall attempt, (0 <= attempt < ReplyEngine.max_retries)%Z ->
            is_raise
              (ReplyEngine.attempt_body (U := ascii_only)
                 (backend_down
                    (ReplyEngine._format_prompt_for_gemma
                       (ReplyEngine.system_instruction engine) (lit "hello"))
                    attempt)) = true) by (intros; reflexivity).
  split; [exact Hfail |].
  exact (proj1 (proj2 (proj2 (proj2 (EngineFacts.fallback_guarantee (U := ascii_only)))))
           engine backend_down 3%nat (lit "hello") None Hfail).
Defined.

Lemma is_appropriate_tweet_vignettes_witness :
  (ReplyEngine.holds_ignoring_case (lit "bomb") shouting_bomb
   /\ ReplyEngine.is_appropriate_tweet (U := ascii_only) shouting_bomb = false)
  /\ (isupper (U := ascii_only) all_caps = true /\ (20 < len all_caps)%Z
      /\ ReplyEngine.is_appropriate_tweet (U := ascii_only) all_caps = false).
Proof.
  assert (Hb : ReplyEngine.holds_ignoring_case (lit "bomb") shouting_bomb).
  { exists (lit "That talk was a "), (lit "BoMb"), (lit ", honestly").
    split; reflexivity. }
  assert (Hup : isupper (U := ascii_only) all_caps = true) by reflexivity.
  assert (Hlen : (20 < len all_caps)%Z) by reflexivity.
  pose proof (EngineFacts.is_appropriate_tweet_vignettes (U := ascii_only))
    as (_ & _ & _ & _ & Hbomb & Hcaps & _).
  split; [split; [exact Hb | exact (Hbomb _ Hb)] |].
  split; [exact Hup | split; [exact Hlen | exact (Hcaps _ Hup Hlen)]].
Defined.

(** C8, as stated, fails: the filter is not free of side effects.  On
    [shouting_bomb] it writes a line to the logger. *)
Lemma is_appropriate_tweet_counterexample :
  ReplyEngine.is_appropriate_tweet_logged (U := ascii_only) shouting_bomb
  = ([lit "Skipping tweet with blocklisted word: bomb"], false)
  /\ fst (ReplyEngine.is_appropriate_tweet_logged (U := ascii_only) shouting_bomb) <> [].
Proof. split; [reflexivity | discriminate]. Qed.


Lemma dedup_invariant_witness :
  Database.readable (db bot0)
  /\ replay (db bot0)
       (fst (run_continuous (U := ascii_only) bot0 30 [replying_run; replying_run]))
     = db (snd (run_continuous (U := ascii_only) bot0 30 [replying_run; replying_run])).
Proof.
  assert (Hd : Database.readable (db bot0)) by (split; [reflexivity | discriminate]).
  split; [exact Hd |].
  exact (proj1 (proj2 (proj2 (@BotFacts.dedup_invariant ascii_only bot0 30%Z
                                [replying_run; replying_run] Hd)))).
Defined.


Lemma failure_budget_witness :
  (snd (search_loop (U := ascii_only) bot0 answers_empty 10 0) = Ok None
   /\ consecutive_failures (vars (cycle (U := ascii_only) bot0 start answers_empty)) = 1%Z)
  /\ (run_status (run_once (U := ascii_only) bot0 failing_run) = Aborted
      /\ consecutive_failures (run_vars (run_once (U := ascii_only) bot0 failing_run)) = 5%Z).
Proof.
  assert (Hnone : snd (search_loop (U := ascii_only) bot0 answers_empty 10 0) = Ok None)
    by reflexivity.
  assert (Hs : run_status (run_once (U := ascii_only) bot0 failing_run) = Aborted)
    by (vm_compute; reflexivity).
  pose proof (BotFacts.failure_budget (U := ascii_only)) as (_ & Hcount & _ & _ & Hrun).
  split.
  - split; [exact Hnone | exact (proj1 (Hcount bot0 start answers_empty Hnone))].
  - split; [exact Hs | exact (proj1 (proj1 (Hrun bot0 failing_run) Hs))].
Defined.

Lemma submission_failure_witness :
  (In (Submit (lit "2") 2 (lit "Solid take btw.") (Ok false))
      (events (cycle (U := ascii_only) bot0 start (answers (Ok false))))
   /\ Ok false <> Ok true)
  /\ bot (cycle (U := ascii_only) bot0 start (answers (Ok false))) = bot0.
Proof.
  assert (Hin : In (Submit (lit "2") 2 (lit "Solid take btw.") (Ok false))
                   (events (cycle (U := ascii_only) bot0 start (answers (Ok false))))).
  { vm_compute. do 13 right. left. reflexivity. }
  assert (Hne : @Ok bool false <> Ok true) by discriminate.
  split; [split; assumption |].
  exact (proj1 (proj2 (@BotFacts.submission_failure ascii_only bot0 start
                         (answers (Ok false)) (lit "2") 2%nat (lit "Solid take btw.")
                         (Ok false) Hin Hne))).
Defined.

Lemma dedup_fails_open_witness :
  (Database.has_replied_query (db bot_down) (tweet_id post_b) = Raise AttributeError
   /\ Database.rows_for (db bot_down) (tweet_id post_b) = [row_b]
   /\ scans answers_b 1%Z = Ok [Ok (Some post_b)]
   /\ ReplyEngine.is_appropriate_tweet (U := ascii_only) (text post_b) = true)
  /\ exists reply_text,
       In (Generate (tweet_id post_b) (text post_b) (username post_b) (Ok reply_text))
          (events (cycle (U := ascii_only) bot_down start answers_b))
       /\ In (Submit (tweet_id post_b) (element post_b) reply_text (submit answers_b))
             (events (cycle (U := ascii_only) bot_down start answers_b)).
Proof.
  assert (Hraise : Database.has_replied_query (db bot_down) (tweet_id post_b)
                   = Raise AttributeError) by reflexivity.
  assert (Hrows : Database.rows_for (db bot_down) (tweet_id post_b) = [row_b])
    by reflexivity.
  assert (Hrows' : Database.rows_for (db bot_down) (tweet_id post_b) <> [])
    by (rewrite Hrows; discriminate).
  assert (Hscan : scans answers_b 1%Z = Ok [Ok (Some post_b)]) by reflexivity.
  assert (Happ : ReplyEngine.is_appropriate_tweet (U := ascii_only) (text post_b) = true)
    by reflexivity.
  split; [repeat split; assumption |].
  exact (proj2 (proj2 (proj2 (BotFacts.dedup_fails_open (U := ascii_only)))
                  bot_down start answers_b post_b [] AttributeError
                  Hraise Hrows' Hscan Happ)).
Defined.

Lemma first_reply_not_rate_limited_witness :
  (forall run c, In run [replying_run] -> In c (cycles run) ->
     30 # 1 <= clock_rate_limit c)
  /\ forall pre e post,
       fst (run_continuous (U := ascii_only) (__init__ false store_down engine) 30
              [replying_run])
       = pre ++ e :: post ->
       is_wait e = true -> existsb is_success pre = true.
Proof.
  assert (Hclock : forall run c, In run [replying_run] -> In c (cycles run) ->
                     30 # 1 <= clock_rate_limit c).
  { intros run c [<- | []] [<- | [<- | []]]; discriminate. }
  split; [exact Hclock |].
  exact (proj2 (proj2 (BotFacts.first_reply_not_rate_limited (U := ascii_only)))
           false store_down engine 30%Z [replying_run] Hclock).
Defined.

(** *** Further properties on sample data *)

Lemma store_readable : Database.readable store.
Proof. split; [reflexivity | discriminate]. Qed.

Lemma mark_then_has_replied_witness :
  (Database.readable store
   /\ Database.accepts None
        (Database.row_parameters
           (Database.mk_row (lit "2") (lit "bob") (lit "tweet") (lit "reply") (1 # 1)))
      = true
   /\ Database.accepts None
        (Database.row_parameters
           (Database.mk_row (lit "2") (lit "bob") (lit "tweet") broken_reply (1 # 1)))
      = false)
  /\ Database.has_replied_with
       (Database.mark_replied_with store None (lit "2") (lit "bob") (lit "tweet")
                                   (lit "reply") (1 # 1))
       None (lit "2") = true
  /\ Database.mark_replied_with store None (lit "2") (lit "bob") (lit "tweet")
                                broken_reply (1 # 1)
     = store.
Proof.
  split; [split; [exact store_readable | split; reflexivity] |].
  split.
  - exact (proj1 (@StoreFacts.mark_then_has_replied store None (lit "2") (lit "bob")
                    (lit "tweet") (lit "reply") (1 # 1) store_readable) eq_refl).
  - exact (proj1 (proj2 (@StoreFacts.mark_then_has_replied store None (lit "2") (lit "bob")
                           (lit "tweet") broken_reply (1 # 1) store_readable)) eq_refl).
Defined.

Lemma mark_all_latest_witness :
  Database.readable store
  /\ Database.rows_for
       (Database.mark_all_with store [(None, row_a); (None, row_b); (locked, row_b_again)])
       (lit "2")
     = [row_b].
Proof.
  split; [exact store_readable |].
  exact (@StoreFacts.mark_all_latest store
           [(None, row_a); (None, row_b); (locked, row_b_again)] (lit "2") store_readable).
Defined.

Lemma mark_replied_count_witness :
  (Database.readable store_two /\ Database.unique_keys store_two)
  /\ Database.get_replied_count_with
       (Database.mark_replied_with store_two None (lit "3") (lit "carol") (lit "tweet")
                                   (lit "again") (3 # 1))
       None
     = 3%Z.
Proof.
  assert (Hd : Database.readable store_two) by (split; [reflexivity | discriminate]).
  assert (Hu : Database.unique_keys store_two).
  { vm_compute. repeat constructor; cbn; intuition discriminate. }
  split; [split; assumption |].
  exact (proj1 (proj2 (@StoreFacts.mark_replied_count store_two None (lit "3") (lit "carol")
                         (lit "tweet") (lit "again") (3 # 1) Hd Hu))).
Defined.

Lemma get_recent_replies_sorted_witness :
  (Database.conn store_two = Database.Open
   /\ Database.replied_tweets store_two = Some [row_a; row_b]
   /\ (@None exn = None /\ (- 2 ^ 63 <= 1 < 2 ^ 63)%Z))
  /\ exists rest,
       Permutation (Database.get_recent_replies_with store_two None 1 ++ rest)
                   [row_a; row_b]
       /\ StronglySorted Database.more_recent
            (Database.get_recent_replies_with store_two None 1 ++ rest)
       /\ length (Database.get_recent_replies_with store_two None 1)
          = (if (1 <? 0)%Z then length [row_a; row_b]
             else Nat.min (Z.to_nat 1) (length [row_a; row_b])).
Proof.
  assert (Hc : Database.conn store_two = Database.Open) by reflexivity.
  assert (Ht : Database.replied_tweets store_two = Some [row_a; row_b]) by reflexivity.
  assert (Hok : @None exn = None /\ (- 2 ^ 63 <= 1 < 2 ^ 63)%Z) by (split; [reflexivity | lia]).
  split; [split; [exact Hc | split; [exact Ht | exact Hok]] |].
  exact (proj1 (@StoreFacts.get_recent_replies_sorted store_two [row_a; row_b] None 1%Z
                  Hc Ht) Hok).
Defined.

Lemma blocklist_rejects_witness :
  (In (lit "war") ReplyEngine.blocklist
   /\ ReplyEngine.holds_ignoring_case (lit "war") warehouse)
  /\ ReplyEngine.is_appropriate_tweet (U := ascii_only) warehouse = false.
Proof.
  assert (Hin : In (lit "war") ReplyEngine.blocklist) by (cbn; tauto).
  assert (Hs : ReplyEngine.holds_ignoring_case (lit "war") warehouse).
  { exists (lit "the "), (lit "WAR"), (lit "ehouse is full of boxes"). split; reflexivity. }
  split; [split; assumption |].
  exact (@EngineFacts.blocklist_rejects ascii_only (lit "war") warehouse Hin Hs).
Defined.

Lemma three_attempts_witness :
  let prompt :=
    ReplyEngine._format_prompt_for_gemma (ReplyEngine.system_instruction engine)
      (lit "hello") in
  ((0 <= 1 < 3)%Z
   /\ (forall attempt, (0 <= attempt < 1)%Z ->
         is_raise (ReplyEngine.attempt_body (U := ascii_only)
                     (backend_second prompt attempt)) = true)
   /\ ReplyEngine.attempt_body (U := ascii_only) (backend_second prompt 1%Z)
      = Ok (lit "Fair point, shipping beats polishing here."))
  /\ ReplyEngine.generate_reply (U := ascii_only) engine backend_second 0 (lit "hello") None
     = Ok (lit "Fair point, shipping beats polishing here.").
Proof.
  intros prompt.
  assert (Hk : (0 <= 1 < 3)%Z) by lia.
  assert (Hfail : forall attempt, (0 <= attempt < 1)%Z ->
            is_raise (ReplyEngine.attempt_body (U := ascii_only)
                        (backend_second prompt attempt)) = true).
  { intros attempt Ha. replace attempt with 0%Z by lia. reflexivity. }
  assert (Hok : ReplyEngine.attempt_body (U := ascii_only) (backend_second prompt 1%Z)
                = Ok (lit "Fair point, shipping beats polishing here."))
    by (vm_compute; reflexivity).
  split; [repeat split; try assumption; lia |].
  exact (proj2 (@EngineFacts.three_attempts ascii_only engine 0%nat (lit "hello") None)
           backend_second 1%Z (lit "Fair point, shipping beats polishing here.")
           Hk Hfail Hok).
Defined.

Lemma run_once_quota_witness :
  (max_replies_per_run bot_zero <= 0)%Z
  /\ filter is_scan (run_events (run_once (U := ascii_only) bot_zero replying_run)) = []
  /\ successes (run_events (run_once (U := ascii_only) bot_zero replying_run)) = [].
Proof.
  assert (Hzero : (max_replies_per_run bot_zero <= 0)%Z) by (cbn; lia).
  split; [exact Hzero |].
  exact (proj2 (proj2 (@BotFacts.run_once_quota ascii_only bot_zero replying_run)) Hzero).
Defined.

Lemma search_bound_witness :
  snd (search_loop (U := ascii_only) bot0 answers_empty 10 0) = Ok None
  /\ length (filter is_scan (events (cycle (U := ascii_only) bot0 start answers_empty)))
     = 10%nat.
Proof.
  assert (Hnone : snd (search_loop (U := ascii_only) bot0 answers_empty 10 0) = Ok None)
    by reflexivity.
  split; [exact Hnone |].
  exact (proj1 (proj2 (proj2 (@BotFacts.search_bound ascii_only bot0 start answers_empty))
                  Hnone)).
Defined.




Lemma reply_button_choice_witness :
  snd (ActionPerformer.click_reply_button find_hidden) = Some hidden_button
  /\ fst (ActionPerformer.click_reply_button find_hidden)
     = match ActionPerformer.click hidden_button with
       | Ok _ => true
       | Raise _ => false
       end.
Proof.
  assert (Hb : snd (ActionPerformer.click_reply_button find_hidden) = Some hidden_button)
    by reflexivity.
  split; [exact Hb |].
  exact (proj1 (proj1 (ActionFacts.reply_button_choice find_hidden) hidden_button Hb)).
Defined.

Lemma extract_tweet_id_digits_witness :
  PostFetcher.extract_tweet_id ascii_digits quoting_article = Some (lit "111")
  /\ forallb (PostFetcher.is_digit ascii_digits) (lit "111") = true.
Proof.
  assert (Hid : PostFetcher.extract_tweet_id ascii_digits quoting_article
                = Some (lit "111")) by reflexivity.
  split; [exact Hid |].
  exact (proj1 (proj2 (@FetcherFacts.extract_tweet_id_digits ascii_digits quoting_article
                         (lit "111") Hid))).
Defined.

Lemma extract_post_data_valid_witness :
  let d := PostFetcher.mk_dict (lit "1234567890") (lit "bob")
             (lit "I think microservices are overrated") 7 false in
  PostFetcher.extract_post_data ascii_digits sample_article = Some d
  /\ (10 <= len (PostFetcher.text d))%Z.
Proof.
  intros d.
  assert (Hd : PostFetcher.extract_post_data ascii_digits sample_article = Some d)
    by reflexivity.
  split; [exact Hd |].
  exact (proj1 (proj2 (proj2 (proj2 (proj2
           (@FetcherFacts.extract_post_data_valid ascii_digits sample_article d Hd)))))).
Defined.

Lemma fetch_posts_bounds_witness :
  (is_raise (Ok tt) = true \/ true && is_raise (@Raise unit WebDriverException) = true
   \/ is_raise (Ok [sample_article]) = true)
  /\ PostFetcher.fetch_posts ascii_digits 10 true (Ok tt) (Raise WebDriverException)
       (Ok [sample_article]) = [].
Proof.
  assert (H : is_raise (Ok tt) = true \/ true && is_raise (@Raise unit WebDriverException) = true
              \/ is_raise (Ok [sample_article]) = true) by (right; left; reflexivity).
  split; [exact H |].
  exact (proj2 (proj2 (proj2 (@FetcherFacts.fetch_posts_bounds ascii_digits 10%Z true (Ok tt)
                                (Raise WebDriverException) (Ok [sample_article])))) H).
Defined.

End OnSamples.
